(** * Histogram, bin generators and block timer

    A shallow embedding of the templates of the histogram header of the
    platform library: [HistogramBin<T>],
    the three bin generators, [Histogram<T>] (construction, validation,
    lookup, add, reset, total) and [GenericBlockTimer].

    Conventions of the embedding
    - a value of the numeric type [T] is a [Z]; [std::numeric_limits<T>]
      is the class [NumericLimits] (integer types only);
    - [size_t] is 64 bits wide and [int] 32 bits wide, conversions between
      integer types are modular;
    - a [std::vector<HistogramBin<T>*>] is a [list HistogramBin]: every
      generator of the header allocates a fresh bin per call, so a pointer
      to a bin is its position in the vector and [nullptr] is [None];
    - [double] is the kernel's binary64 [float];
    - a call either returns, throws, or has undefined behaviour
      ([outcome]). *)

From Stdlib Require Import ZArith Lia Floats.
From stdpp Require Import base list strings pretty.

Local Open Scope Z_scope.

(** ** Outcomes of a call *)

Inductive exn : Type :=
  | overflow_error (what : string).

Inductive outcome (A : Type) : Type :=
  | Ret (a : A)
  | Throw (e : exn)
  | Undefined.

Arguments Ret {A} a.
Arguments Throw {A} e.
Arguments Undefined {A}.

#[export] Instance outcome_ret : MRet outcome := @Ret.

#[export] Instance outcome_bind : MBind outcome := λ A B k c,
  match c with
  | Ret a => k a
  | Throw e => Throw e
  | Undefined => Undefined
  end.

(** ** Integer types *)

(** [std::numeric_limits<T>::min()] and [max()] of an integer type. *)
Class NumericLimits : Type := {
  Tmin : Z;
  Tmax : Z;
  Tmin_lt_Tmax : Tmin < Tmax
}.

Definition in_range `{NumericLimits} (v : Z) : Prop := Tmin <= v <= Tmax.

Definition uint64_max : Z := 2 ^ 64 - 1.

(** [uint64_t], which is also [hrtime_t]. *)
#[export] Program Instance uint64_t : NumericLimits :=
  {| Tmin := 0; Tmax := uint64_max |}.
Next Obligation. reflexivity. Qed.

(** Conversion to [size_t] / [uint64_t]. *)
Definition to_size_t (z : Z) : Z := z mod 2 ^ 64.

(** Conversion to [int]. *)
Definition to_int (z : Z) : Z := (z + 2 ^ 31) mod 2 ^ 32 - 2 ^ 31.

(** ** HistogramBin *)

Record HistogramBin : Type := mkBin {
  _count : Z;
  _start : Z;
  _end : Z
}.

(** [HistogramBin(T s, T e)] *)
Definition new_HistogramBin (s e : Z) : HistogramBin :=
  {| _count := 0; _start := s; _end := e |}.

(** [_count.fetch_add(amount)] *)
Definition incr (amount : Z) (b : HistogramBin) : HistogramBin :=
  {| _count := to_size_t (_count b + amount); _start := _start b; _end := _end b |}.

(** [_count.store(val)] *)
Definition set (val : Z) (b : HistogramBin) : HistogramBin :=
  {| _count := val; _start := _start b; _end := _end b |}.

Definition accepts `{NumericLimits} (b : HistogramBin) (value : Z) : bool :=
  (_start b <=? value) && ((value <? _end b) || (value =? Tmax)).

(** [HistogramBinSampleAdder::operator()(size_t n, const HistogramBin<T>* b)] *)
Definition HistogramBinSampleAdder (n : Z) (b : HistogramBin) : Z :=
  to_size_t (n + _count b).

(** [BinCompare::operator()(T t, HistogramBin<T>* b)] *)
Definition BinCompare (t : Z) (b : HistogramBin) : bool := t <? _end b.

(** ** Generators

    A generator is a callable with private state; a call returns the next
    bin and the advanced state.  The generators of the header that throw do
    so before they change any member. *)

Record Generator : Type := mkGenerator {
  G_state : Type;
  G_call : G_state -> outcome (HistogramBin * G_state)
}.

(** The [k]-th invocation (0-based) of a generator object, whatever the
    earlier invocations did: an invocation that threw left the object as it
    was. *)
Fixpoint nth_call (G : Generator) (k : nat) (g : G_state G)
  : outcome (HistogramBin * G_state G) :=
  match k with
  | O => G_call G g
  | S k' =>
      match G_call G g with
      | Ret (_, g') => nth_call G k' g'
      | Throw _ => nth_call G k' g
      | Undefined => Undefined
      end
  end.

(** [std::generate(first, last, gen)] over a range of [n] slots. *)
Fixpoint generate (G : Generator) (n : nat) (g : G_state G)
  : outcome (list HistogramBin) :=
  match n with
  | O => Ret []
  | S n' =>
      r ← G_call G g;
      rest ← generate G n' (snd r);
      Ret (fst r :: rest)
  end.

(** *** FixedInputGenerator *)

(** The iterator [it] is a position in [input]; [end] is [length input]. *)
Record FixedInputState : Type := mkFixedInput {
  fi_input : list Z;
  fi_it : nat
}.

Definition FixedInputGenerator_new (input : list Z) : FixedInputState :=
  {| fi_input := input; fi_it := 0 |}.

Definition FixedInputGenerator_call (g : FixedInputState)
  : outcome (HistogramBin * FixedInputState) :=
  if decide (length (fi_input g) <= fi_it g + 1)%nat then
    Throw (overflow_error
             "FixedInputGenerator::operator() would overflow input sequence")
  else
    match fi_input g !! fi_it g, fi_input g !! S (fi_it g) with
    | Some current, Some next =>
        Ret (new_HistogramBin current next,
             {| fi_input := fi_input g; fi_it := S (fi_it g) |})
    | _, _ => Undefined
    end.

Definition FixedInputGenerator : Generator :=
  {| G_state := FixedInputState; G_call := FixedInputGenerator_call |}.

(** *** Conversions between [T] and [double] *)

(** [static_cast<double>(z)]: the nearest binary64 value, ties to even. *)
Definition Z2double (z : Z) : float :=
  SF2Prim (binary_normalize prec emax z 0 false).

(** The integral part of a finite [double] (rounding toward zero). *)
Definition trunc_double (f : float) : option Z :=
  match Prim2SF f with
  | S754_zero _ => Some 0
  | S754_finite s m e =>
      let mag :=
        match e with
        | Z0 => Zpos m
        | Zpos p => Z.shiftl (Zpos m) (Zpos p)
        | Zneg p => Z.shiftr (Zpos m) (Zpos p)
        end in
      Some (if s then - mag else mag)
  | S754_infinity _ | S754_nan => None
  end.

Section generators.
Context `{NumericLimits}.

(** [static_cast<T>(f)]: undefined unless the truncated value is a [T]. *)
Definition double2T (f : float) : outcome Z :=
  match trunc_double f with
  | Some z => if decide (Tmin <= z <= Tmax) then Ret z else Undefined
  | None => Undefined
  end.

(** [a + b] stored back into a [T]: modular for an unsigned type, no
    result guaranteed on overflow of a signed one. *)
Definition Tadd (a b : Z) : outcome Z :=
  if decide (Tmin = 0) then Ret ((a + b) mod (Tmax + 1))
  else if decide (Tmin <= a + b <= Tmax) then Ret (a + b)
  else Undefined.

(** *** GrowingWidthGenerator *)

Record GrowingWidthState : Type := mkGrowingWidth {
  gw_growth : float;
  gw_start : Z;
  gw_width : float
}.

Definition GrowingWidthGenerator_new (start width : Z) (growth : float)
  : GrowingWidthState :=
  {| gw_growth := growth; gw_start := start; gw_width := Z2double width |}.

Definition GrowingWidthGenerator_call (g : GrowingWidthState)
  : outcome (HistogramBin * GrowingWidthState) :=
  w ← double2T (gw_width g);
  e ← Tadd (gw_start g) w;
  Ret (new_HistogramBin (gw_start g) e,
       {| gw_growth := gw_growth g;
          gw_start := e;
          gw_width := (gw_width g * gw_growth g)%float |}).

Definition GrowingWidthGenerator : Generator :=
  {| G_state := GrowingWidthState; G_call := GrowingWidthGenerator_call |}.

(** *** ExponentialGenerator *)

(** [std::pow] of <cmath>, which the header only calls. *)
Variable pow : float -> float -> float.

Record ExponentialState : Type := mkExponential {
  eg_start : Z;
  eg_power : float
}.

Definition ExponentialGenerator_new (start : Z) (power : float)
  : ExponentialState :=
  {| eg_start := start; eg_power := power |}.

Definition ExponentialGenerator_call (g : ExponentialState)
  : outcome (HistogramBin * ExponentialState) :=
  start ← double2T (pow (eg_power g) (Z2double (eg_start g)));
  let _start' := to_size_t (eg_start g + 1) in
  e ← double2T (pow (eg_power g) (Z2double _start'));
  Ret (new_HistogramBin start e,
       {| eg_start := _start'; eg_power := eg_power g |}).

Definition ExponentialGenerator : Generator :=
  {| G_state := ExponentialState; G_call := ExponentialGenerator_call |}.
End generators.

(** ** Histogram *)

Record Histogram : Type := mkHistogram {
  bins : list HistogramBin
}.

Definition endl : string := String (Ascii.ascii_of_nat 10) EmptyString.
Definition tab : string := String (Ascii.ascii_of_nat 9) EmptyString.

Section histogram.
Context `{NumericLimits}.

(** The loop of [verify()], from the bin at position [pos] on; the second
    component is what is written to [std::cerr]. *)
Fixpoint verify_loop (prev : Z) (pos : Z) (bs : list HistogramBin)
  : bool * string :=
  match bs with
  | [] => if decide (prev ≠ Tmax) then (false, EmptyString)
          else (true, EmptyString)
  | b :: rest =>
      if decide (_start b ≠ prev) then
        (false,
         "Expected " +:+ pretty (_start b) +:+ " == " +:+ pretty prev
           +:+ " at pos " +:+ pretty pos +:+ endl)
      else if decide (_start b ≠ prev) then (false, EmptyString)
      else verify_loop (_end b) (pos + 1) rest
  end.

Definition verify (bs : list HistogramBin) : bool * string :=
  verify_loop Tmin 0 bs.

(** [fill(generator)] on a vector of [n] slots.  The value of [verify()]
    is dropped, as in the source; its diagnostic is the second component. *)
Definition fill (G : Generator) (g : G_state G) (n : nat)
  : outcome (Histogram * string) :=
  bs ← generate G n g;
  match head bs with
  | None => Undefined
  | Some front =>
      let bs1 :=
        if decide (_start front > Tmin)
        then new_HistogramBin Tmin (_start front) :: bs else bs in
      match last bs1 with
      | None => Undefined
      | Some back =>
          let bs2 :=
            if decide (_end back < Tmax)
            then bs1 ++ [new_HistogramBin (_end back) Tmax] else bs1 in
          let r := verify bs2 in
          Ret ({| bins := bs2 |}, snd r)
      end
  end.

(** [Histogram(const G& generator, size_t n = 30)] *)
Definition Histogram_new (G : Generator) (g : G_state G) (n : nat)
  : outcome (Histogram * string) :=
  fill G g n.

(** [Histogram(size_t n = 30)] *)
Definition Histogram_default (pow : float -> float -> float) (n : nat)
  : outcome (Histogram * string) :=
  fill (ExponentialGenerator pow) (ExponentialGenerator_new 0 2%float) n.

(** [std::upper_bound(first, last, value, comp)]: the halving loop over
    the window of [len] elements that starts at position [first]. *)
Fixpoint upper_bound_loop (fuel : nat) (bs : list HistogramBin) (value : Z)
    (first len : nat) : nat :=
  match fuel with
  | O => first
  | S fuel' =>
      if decide (len = 0)%nat then first
      else
        let half := (len / 2)%nat in
        let middle := (first + half)%nat in
        match bs !! middle with
        | Some b =>
            if BinCompare value b
            then upper_bound_loop fuel' bs value first half
            else upper_bound_loop fuel' bs value (S middle)
                   (len - half - 1)%nat
        | None => first
        end
  end.

(** The position returned; [length bs] is [bins.end()]. *)
Definition upper_bound (bs : list HistogramBin) (value : Z) : nat :=
  upper_bound_loop (length bs) bs value 0 (length bs).

(** [findBin(amount)]: the position of the bin, [None] for [nullptr]. *)
Definition findBin (h : Histogram) (amount : Z) : outcome (option nat) :=
  if decide (amount = Tmax) then
    match bins h with
    | [] => Undefined
    | _ :: _ => Ret (Some (length (bins h) - 1)%nat)
    end
  else
    let it := upper_bound (bins h) amount in
    match bins h !! it with
    | None => Ret None
    | Some b => if negb (accepts b amount) then Ret None else Ret (Some it)
    end.

(** [getBin(amount)] *)
Definition getBin (h : Histogram) (amount : Z) : outcome (option nat) :=
  findBin h amount.

(** [add(amount, count)]: [findBin(amount)->incr(count)]. *)
Definition add (h : Histogram) (amount : Z) (count : Z) : outcome Histogram :=
  p ← findBin h amount;
  match p with
  | None => Undefined
  | Some i => Ret {| bins := alter (incr count) i (bins h) |}
  end.

(** [reset()] *)
Definition reset (h : Histogram) : Histogram :=
  {| bins := set 0 <$> bins h |}.

(** [total()]: [std::accumulate(begin(), end(), 0, a)], whose accumulator
    has the type of the literal [0], which is [int]. *)
Definition total (h : Histogram) : Z :=
  to_size_t
    (foldl (fun init b => to_int (HistogramBinSampleAdder (to_size_t init) b))
       0 (bins h)).
End histogram.

(** ** GenericBlockTimer *)

(** Modelled from the spec: [hrtime_t] and [gethrtime()] are declared in
    platform/platform.h, which is not part of the sources at hand; a
    timestamp is an unsigned 64-bit count of nanoseconds read from a
    monotonic clock, so a difference of two of them is taken modulo 2^64. *)
Definition hrtime_sub (a b : Z) : Z := to_size_t (a - b).

(** The members of a timer: whether [dest] and [out] are non-null, the
    start timestamp and the name ([None] for [nullptr]). *)
Record GenericBlockTimer : Type := mkTimer {
  dest : bool;
  start : Z;
  name : option string;
  out : bool
}.

(** The objects a timer refers to: the histogram behind [dest], the text
    written so far to the stream behind [out], and to [std::cerr]. *)
Record World : Type := mkWorld {
  w_histogram : Histogram;
  w_out : string;
  w_cerr : string
}.

Section timer.
Context `{NumericLimits}.
Variable THRESHOLD_MS : Z.

(** [GenericBlockTimer(d, n, o)], with [now] the value of [gethrtime()]. *)
Definition GenericBlockTimer_new (d : bool) (n : option string) (o : bool)
    (now : Z) : GenericBlockTimer :=
  {| dest := d; start := now; name := n; out := o |}.

(** [log(spent, name, o)] *)
Definition log (spent : Z) (nm : option string) (o : bool) (w : World)
  : World :=
  let w1 :=
    match o, nm with
    | true, Some n =>
        {| w_histogram := w_histogram w;
           w_out := w_out w +:+ n +:+ tab +:+ pretty spent +:+ endl;
           w_cerr := w_cerr w |}
    | _, _ => w
    end in
  if decide (THRESHOLD_MS > 0) then
    let msec := spent / 1000000 in
    match nm with
    | Some n =>
        if decide (msec > THRESHOLD_MS) then
          {| w_histogram := w_histogram w1;
             w_out := w_out w1;
             w_cerr := w_cerr w1 +:+ "BlockTimer<" +:+ n
                         +:+ "> Took too long: " +:+ pretty msec
                         +:+ "ms" +:+ endl |}
        else w1
    | None => w1
    end
  else w1.

(** [~GenericBlockTimer()], with [now] the value of [gethrtime()]. *)
Definition GenericBlockTimer_delete (t : GenericBlockTimer) (now : Z)
    (w : World) : outcome World :=
  let spent := hrtime_sub now (start t) in
  h ← (if dest t then add (w_histogram w) (spent / 1000) 1
       else Ret (w_histogram w));
  Ret (log spent (name t) (out t)
         {| w_histogram := h; w_out := w_out w; w_cerr := w_cerr w |}).
End timer.

(** * Vocabulary of the properties *)

(** ** The invariants of a histogram, as the specification words them *)

Section vocabulary.
Context `{NumericLimits}.

(** Buckets are sorted ascending by [start]. *)
Definition sorted_by_start (bs : list HistogramBin) : Prop :=
  ∀ i b b', bs !! i = Some b → bs !! S i = Some b' → _start b <= _start b'.

(** [bucket[i].end == bucket[i+1].start] for every adjacent pair. *)
Definition contiguous (bs : list HistogramBin) : Prop :=
  ∀ i b b', bs !! i = Some b → bs !! S i = Some b' → _end b = _start b'.

(** The first bucket starts at the minimum of [T], the last one ends at
    its maximum. *)
Definition covers (bs : list HistogramBin) : Prop :=
  (∃ b, head bs = Some b ∧ _start b = Tmin) ∧
  (∃ b, last bs = Some b ∧ _end b = Tmax).

Definition invariant (h : Histogram) : Prop :=
  sorted_by_start (bins h) ∧ contiguous (bins h) ∧ covers (bins h).

(** The ends of the buckets never decrease: the order [upper_bound]
    relies on. *)
Definition ends_sorted (bs : list HistogramBin) : Prop :=
  ∀ i j b b', (i <= j)%nat → bs !! i = Some b → bs !! j = Some b' →
              _end b <= _end b'.

(** Position [i] holds the first bucket, in ascending order, whose end is
    strictly greater than [v]. *)
Definition first_above (bs : list HistogramBin) (v : Z) (i : nat) : Prop :=
  (∃ b, bs !! i = Some b ∧ v < _end b) ∧
  (∀ j b, (j < i)%nat → bs !! j = Some b → _end b <= v).

(** The boundaries of every bucket are values of [T]. *)
Definition typed (bs : list HistogramBin) : Prop :=
  Forall (fun b => in_range (_start b) ∧ in_range (_end b)) bs.

(** Every bucket has [start <= end] and adjacent buckets meet. *)
Definition chain (bs : list HistogramBin) : Prop :=
  Forall (fun b => _start b <= _end b) bs ∧ contiguous bs.

(** What the loop of [verify] checks from a bucket on: each bucket starts
    where the previous one ended, and the last one ends at the maximum. *)
Fixpoint linked (prev : Z) (bs : list HistogramBin) : Prop :=
  match bs with
  | [] => prev = Tmax
  | b :: rest => _start b = prev ∧ linked (_end b) rest
  end.

(** The boundaries of a bucket; [add] and [reset] never change them. *)
Definition bounds (b : HistogramBin) : Z * Z := (_start b, _end b).

Definition same_bounds (bs bs' : list HistogramBin) : Prop :=
  bounds <$> bs = bounds <$> bs'.

(** The sum of all bucket counters, as a mathematical integer. *)
Definition sum_counts (bs : list HistogramBin) : Z :=
  foldr (fun b acc => _count b + acc) 0 bs.

(** The vector [fill] leaves behind: the generated buckets, one more in
    front when the first does not start at the minimum, one more at the
    back when the last does not end at the maximum. *)
Definition padded (bs : list HistogramBin) (front back : HistogramBin)
  : list HistogramBin :=
  (if decide (_start front > Tmin)
   then [new_HistogramBin Tmin (_start front)] else [])
  ++ bs ++
  (if decide (_end back < Tmax)
   then [new_HistogramBin (_end back) Tmax] else []).

(** The width member after [k] calls: the width multiplied [k] times by
    the growth factor. *)
Definition gw_width_at (g : GrowingWidthState) (k : nat) : float :=
  Nat.iter k (fun w => (w * gw_growth g)%float) (gw_width g).

(** The cursor ([_start]) after [k] calls: each call moves it by the width
    of that call, cut down to a [T]. *)
Fixpoint gw_cursor_at (g : GrowingWidthState) (k : nat) : outcome Z :=
  match k with
  | O => Ret (gw_start g)
  | S k' =>
      c ← gw_cursor_at g k';
      w ← double2T (gw_width_at g k');
      Tadd c w
  end.

(** The generator after its first call, which left the cursor at [e]. *)
Definition gw_advance (g : GrowingWidthState) (e : Z) : GrowingWidthState :=
  {| gw_growth := gw_growth g; gw_start := e;
     gw_width := (gw_width g * gw_growth g)%float |}.

(** The exponent ([_start]) after [j] increments. *)
Definition eg_exponent (g : ExponentialState) (j : nat) : Z :=
  Nat.iter j (fun e => to_size_t (e + 1)) (eg_start g).

(** The [j]-th boundary: the power of the base at that exponent, cut
    down to a [T]. *)
Definition eg_boundary (pow : float -> float -> float)
    (g : ExponentialState) (j : nat) : outcome Z :=
  double2T (pow (eg_power g) (Z2double (eg_exponent g j))).

Definition eg_advance (g : ExponentialState) : ExponentialState :=
  {| eg_start := to_size_t (eg_start g + 1); eg_power := eg_power g |}.
End vocabulary.

(** [add(v, 1)] called [N] times in a row. *)
Fixpoint add_times `{NumericLimits} (N : nat) (h : Histogram) (v : Z)
  : outcome Histogram :=
  match N with
  | O => Ret h
  | S n => h' ← add h v 1; add_times n h' v
  end.

(** A call of [add] or of [reset]. *)
Inductive op : Type :=
  | op_add (amount count : Z)
  | op_reset.

(** A sequence of [add] and [reset] calls on one histogram. *)
Fixpoint run_ops `{NumericLimits} (ops : list op) (h : Histogram)
  : outcome Histogram :=
  match ops with
  | [] => Ret h
  | op_add amount count :: rest => h' ← add h amount count; run_ops rest h'
  | op_reset :: rest => run_ops rest (reset h)
  end.

Definition op_in_range `{NumericLimits} (o : op) : Prop :=
  match o with
  | op_add amount _ => in_range amount
  | op_reset => True
  end.

(** The line written to the stream behind [out]. *)
Definition timing_line (n : string) (spent : Z) : string :=
  n +:+ tab +:+ pretty spent +:+ endl.

(** The line written to [std::cerr] for a slow block. *)
Definition slow_warning (n : string) (msec : Z) : string :=
  "BlockTimer<" +:+ n +:+ "> Took too long: " +:+ pretty msec +:+ "ms"
    +:+ endl.

(** Over [uint64_t]: [0,5), [5,15), [15,max). *)
Definition sample_histogram : Histogram :=
  {| bins := [new_HistogramBin 0 5; new_HistogramBin 5 15;
              new_HistogramBin 15 uint64_max] |}.

(** A generator that hands out a bucket with the same boundaries on every
    call. *)
Definition repeating_generator (b : HistogramBin) : Generator :=
  {| G_state := unit; G_call := fun _ => Ret (b, tt) |}.

(** A function that agrees with [std::pow] where both arguments are
    integers and the power is a [double]; it serves to instantiate the
    theorems on the exponential generator. *)
Definition pow_integral (b e : float) : float :=
  match trunc_double b, trunc_double e with
  | Some b, Some e => Z2double (b ^ e)
  | _, _ => nan
  end.

(** * Further code of the sources *)

(** ** Printing *)

Section printing.

(** [out << t] for a value [t] of [T], on a stream in its default state:
    the decimal digits for the integer types proper, the character with
    that code for the character types ([char], [int8_t], [uint8_t]). *)
Variable put_T : Z -> string.

(** [operator<<(std::ostream&, const HistogramBin<T>&)]; [out] is the text
    written to the stream so far.  The counter is a [size_t]. *)
Definition print_HistogramBin (out : string) (b : HistogramBin) : string :=
  out +:+ "[" +:+ put_T (_start b) +:+ ", " +:+ put_T (_end b) +:+ ") = "
      +:+ pretty (_count b).

(** The loop of [operator<<(std::ostream&, const std::vector<HistogramBin<T>*>&)],
    with its flag [needComma]. *)
Fixpoint print_bins_loop (needComma : bool) (out : string)
    (b : list HistogramBin) : string :=
  match b with
  | [] => out
  | x :: rest =>
      let out1 := if needComma then out +:+ ", " else out in
      print_bins_loop true (print_HistogramBin out1 x) rest
  end.

Definition print_bins (out : string) (b : list HistogramBin) : string :=
  print_bins_loop false out b.

(** [operator<<(std::ostream&, const Histogram<T>&)] *)
Definition print_Histogram (out : string) (h : Histogram) : string :=
  print_bins (out +:+ "{Histogram: ") (bins h) +:+ "}".
End printing.

(** [out << t] for an integer type wider than a character. *)
Definition put_integer (t : Z) : string := pretty t.

(** [out << t] for a character type of eight bits. *)
Definition put_character (t : Z) : string :=
  String (Ascii.ascii_of_N (Z.to_N (t mod 256))) EmptyString.

(** ** BlockTimer *)

(** [typedef GenericBlockTimer<Histogram<hrtime_t>, 10> BlockTimer;] *)
Definition BlockTimer_delete (t : GenericBlockTimer) (now : Z) (w : World)
  : outcome World :=
  GenericBlockTimer_delete (H := uint64_t) 10 t now w.

(** ** Backtraces *)

Definition MAX_FRAMES : nat := 50.

Definition INT_MAX : Z := 2 ^ 31 - 1.

(** [snprintf(mem + off, n, ...)] of the C library, where [text] is what
    the format expands to and [mem] the array the pointer points into: at
    most [n - 1] characters and a terminating zero are stored, nothing when
    [n] is zero, and the value returned is the length of [text] whether it
    was cut or not (negative when that length is no [int]).  A pointer or
    a store outside the array is undefined. *)
Definition snprintf_c99 (mem : list Ascii.ascii) (off n : Z)
    (text : list Ascii.ascii) : outcome (list Ascii.ascii * Z) :=
  if decide (0 <= off <= Z.of_nat (length mem)) then
    let len := Z.of_nat (length text) in
    let ret := if decide (len <= INT_MAX) then len else -1 in
    if decide (n = 0) then Ret (mem, ret)
    else
      let k := Z.to_nat (Z.min len (n - 1)) in
      if decide (off + Z.of_nat k + 1 <= Z.of_nat (length mem)) then
        Ret (take (Z.to_nat off) mem ++ take k text ++ [Ascii.zero]
               ++ drop (Z.to_nat off + k + 1) mem, ret)
      else Undefined
  else Undefined.

(** [_snprintf(mem + off, n, ...)] of the Windows C runtime: a text shorter
    than [n] is stored with a terminating zero and its length returned; a
    text of exactly [n] characters is stored without the zero and its
    length returned; of a longer text the first [n] characters are stored,
    without the zero, and a negative value is returned. *)
Definition _snprintf (mem : list Ascii.ascii) (off n : Z)
    (text : list Ascii.ascii) : outcome (list Ascii.ascii * Z) :=
  if decide (0 <= off <= Z.of_nat (length mem)) then
    let len := Z.of_nat (length text) in
    let ret := if decide (len <= INT_MAX) then len else -1 in
    if decide (len < n) then
      if decide (off + len + 1 <= Z.of_nat (length mem)) then
        Ret (take (Z.to_nat off) mem ++ text ++ [Ascii.zero]
               ++ drop (Z.to_nat off + length text + 1) mem, ret)
      else Undefined
    else if decide (len = n) then
      if decide (off + len <= Z.of_nat (length mem)) then
        Ret (take (Z.to_nat off) mem ++ text
               ++ drop (Z.to_nat off + length text) mem, ret)
      else Undefined
    else
      if decide (off + n <= Z.of_nat (length mem)) then
        Ret (take (Z.to_nat off) mem ++ take (Z.to_nat n) text
               ++ drop (Z.to_nat off + Z.to_nat n) mem, -1)
      else Undefined
  else Undefined.

(** What [snprintf] stands for in [backtrace.c]: under [WIN32] the header
    [strings.h] of [include/win32] is the one included, and it has
    [#define snprintf _snprintf]. *)
Definition snprintf (WIN32 : bool) (mem : list Ascii.ascii) (off n : Z)
    (text : list Ascii.ascii) : outcome (list Ascii.ascii * Z) :=
  if WIN32 then _snprintf mem off n text else snprintf_c99 mem off n text.

(** Whether [HAVE_BACKTRACE_SUPPORT] gets defined: under [WIN32], or where
    the configuration found both [backtrace()] and [dladdr()]. *)
Definition backtrace_support (WIN32 HAVE_BACKTRACE HAVE_DLADDR : bool) : bool :=
  WIN32 || (HAVE_BACKTRACE && HAVE_DLADDR).

(** [struct context] of the buffer callback; [c_buffer] is the array that
    [buffer] points to. *)
Record context : Type := mkContext {
  c_indent : string;
  c_buffer : list Ascii.ascii;
  c_size : Z;
  c_offset : Z;
  c_error : bool
}.

(** [memory_cb(ctx, frame)] *)
Definition memory_cb (WIN32 : bool) (c : context) (frame : string)
  : outcome context :=
  if c_error c then Ret c
  else
    r ← snprintf WIN32 (c_buffer c) (c_offset c)
          (to_size_t (c_size c - c_offset c - 1))
          (String.list_ascii_of_string (c_indent c +:+ frame +:+ endl));
    if decide (snd r < 0) then
      Ret {| c_indent := c_indent c; c_buffer := fst r; c_size := c_size c;
             c_offset := c_offset c; c_error := true |}
    else
      Ret {| c_indent := c_indent c; c_buffer := fst r; c_size := c_size c;
             c_offset := to_size_t (c_offset c + snd r);
             c_error := c_error c |}.

(** [print_to_file_cb(ctx, frame)]; the context is the text of the stream. *)
Definition print_to_file_cb (ctx : string) (frame : string) : outcome string :=
  Ret (ctx +:+ tab +:+ frame +:+ endl).

Section backtrace.
Context {ctx : Type}.

(** Whether [HAVE_BACKTRACE_SUPPORT] is defined. *)
Variable HAVE_BACKTRACE_SUPPORT : bool.

(** What [describe_address] leaves in [msg] for a frame address; it is
    made from the answers of the dynamic linker. *)
Variable describe_address : Z -> string.

(** The loop [for (ii = 1; ii < active_frames; ii++)]. *)
Fixpoint print_backtrace_loop (write_cb : ctx -> string -> outcome ctx)
    (frames : list Z) (active_frames : nat) (fuel ii : nat) (context : ctx)
  : outcome ctx :=
  match fuel with
  | O => Ret context
  | S fuel' =>
      if decide (ii < active_frames)%nat then
        match frames !! ii with
        | Some addr =>
            c ← write_cb context (describe_address addr);
            print_backtrace_loop write_cb frames active_frames fuel' (S ii) c
        | None => Undefined
        end
      else Ret context
  end.

(** [print_backtrace(write_cb, context)]; [stack] holds the return
    addresses of the call stack, innermost first, of which [backtrace()]
    stores the first [MAX_FRAMES]. *)
Definition print_backtrace (stack : list Z)
    (write_cb : ctx -> string -> outcome ctx) (context : ctx) : outcome ctx :=
  if HAVE_BACKTRACE_SUPPORT then
    let frames := take MAX_FRAMES stack in
    let active_frames := length frames in
    c ← print_backtrace_loop write_cb frames active_frames active_frames 1
          context;
    if decide (active_frames = MAX_FRAMES)
    then write_cb c "<frame limit reached, possible truncation>"
    else Ret c
  else write_cb context "<backtrace not supported on this platform>".
End backtrace.

(** [print_backtrace_to_file(stream)] *)
Definition print_backtrace_to_file (HAVE_BACKTRACE_SUPPORT : bool)
    (describe_address : Z -> string) (stack : list Z) (stream : string)
  : outcome string :=
  print_backtrace HAVE_BACKTRACE_SUPPORT describe_address stack
    print_to_file_cb stream.

(** [print_backtrace_to_buffer(indent, buffer, size)]: the value returned
    and the array behind [buffer] afterwards. *)
Definition print_backtrace_to_buffer (WIN32 HAVE_BACKTRACE HAVE_DLADDR : bool)
    (describe_address : Z -> string) (stack : list Z)
    (indent : string) (buffer : list Ascii.ascii) (size : Z)
  : outcome (bool * list Ascii.ascii) :=
  c ← print_backtrace (backtrace_support WIN32 HAVE_BACKTRACE HAVE_DLADDR)
        describe_address stack (memory_cb WIN32)
        {| c_indent := indent; c_buffer := buffer; c_size := size;
           c_offset := 0; c_error := false |};
  Ret (negb (c_error c), c_buffer c).

(** ** Vocabulary for the further code *)

(** The texts handed to the callback of [print_backtrace], in order. *)
Definition backtrace_messages (HAVE_BACKTRACE_SUPPORT : bool)
    (describe_address : Z -> string) (stack : list Z) : list string :=
  if HAVE_BACKTRACE_SUPPORT then
    (describe_address <$> drop 1 (take MAX_FRAMES stack)) ++
    (if decide (MAX_FRAMES <= length stack)%nat
     then ["<frame limit reached, possible truncation>"] else [])
  else ["<backtrace not supported on this platform>"].

(** A callback applied to one text after the other. *)
Fixpoint emit {ctx : Type} (write_cb : ctx -> string -> outcome ctx)
    (msgs : list string) (context : ctx) : outcome ctx :=
  match msgs with
  | [] => Ret context
  | m :: rest => c ← write_cb context m; emit write_cb rest c
  end.

(** The characters of the line the buffer callback makes of a text. *)
Definition buffer_line (indent : string) (frame : string) : list Ascii.ascii :=
  String.list_ascii_of_string (indent +:+ frame +:+ endl).

(** Texts joined by a separator. *)
Fixpoint join (sep : string) (l : list string) : string :=
  match l with
  | [] => EmptyString
  | [x] => x
  | x :: rest => x +:+ sep +:+ join sep rest
  end.

(** The buckets a fixed-input generator that stands at position [it] of
    [s] yields in [n] calls. *)
Fixpoint fixed_buckets (s : list Z) (it n : nat) : list HistogramBin :=
  match n with
  | O => []
  | S n' =>
      match s !! it, s !! S it with
      | Some a, Some b => new_HistogramBin a b :: fixed_buckets s (S it) n'
      | _, _ => []
      end
  end.

(** The boundary values never decrease. *)
Definition ascending (s : list Z) : Prop :=
  ∀ i a b, s !! i = Some a → s !! S i = Some b → a <= b.

(** The buckets of the default histogram of [n] generated buckets. *)
Definition default_bins (n : nat) : list HistogramBin :=
  new_HistogramBin 0 1 ::
  ((fun i => new_HistogramBin (2 ^ Z.of_nat i) (2 ^ (Z.of_nat i + 1)))
     <$> seq 0 n) ++
  [new_HistogramBin (2 ^ Z.of_nat n) uint64_max].

(** Each bucket starts where the one before it ended, the first one at
    [prev]. *)
Fixpoint joined (prev : Z) (bs : list HistogramBin) : Prop :=
  match bs with
  | [] => True
  | b :: rest => _start b = prev ∧ joined (_end b) rest
  end.

(** The characters the buffer callback makes of a sequence of texts. *)
Definition buffer_text (indent : string) (msgs : list string)
  : list Ascii.ascii :=
  foldr (fun m acc => buffer_line indent m ++ acc) [] msgs.

(** The text the file callback makes of a sequence of texts. *)
Definition file_text (msgs : list string) : string :=
  foldr (fun m acc => tab +:+ m +:+ endl +:+ acc) EmptyString msgs.

(** The width member of a growing-width generator made with [width] and
    [growth], after [k] calls: the width as a [double], multiplied [k]
    times by the growth factor, each product rounded to a [double]. *)
Definition gw_width_seq (width : Z) (growth : float) (k : nat) : float :=
  Nat.iter k (fun w => (w * growth)%float) (Z2double width).

(** The sum of the first [k] of the widths [t 0], [t 1], ... *)
Fixpoint gw_moved (t : nat → Z) (k : nat) : Z :=
  match k with
  | O => 0
  | S k' => gw_moved t k' + t k'
  end.

(** * Properties *)

(** ** The halving search *)

Section search.
Context `{NumericLimits}.

(** What the loop guarantees on any vector, sorted or not: the bucket just
    before the returned position does not end above [value], and the one
    at the returned position (if any) does. *)
Lemma upper_bound_loop_bracket bs value fuel first len :
  (len <= fuel)%nat → (first + len <= length bs)%nat →
  (first = 0%nat ∨ ∃ b, bs !! pred first = Some b ∧ _end b <= value) →
  ((first + len)%nat = length bs ∨
   ∃ b, bs !! (first + len)%nat = Some b ∧ value < _end b) →
  let r := upper_bound_loop fuel bs value first len in
  (first <= r <= first + len)%nat ∧
  (r = 0%nat ∨ ∃ b, bs !! pred r = Some b ∧ _end b <= value) ∧
  (r = length bs ∨ ∃ b, bs !! r = Some b ∧ value < _end b).
Proof.
  revert first len.
  induction fuel as [|fuel IH]; intros first len Hfuel Hlen HL HR;
    cbv zeta; cbn [upper_bound_loop].
  - assert (len = 0)%nat as -> by lia.
    rewrite Nat.add_0_r in HR. split; [lia|]. split; assumption.
  - destruct (decide (len = 0)%nat) as [->|Hne].
    + rewrite Nat.add_0_r in HR. split; [lia|]. split; assumption.
    + pose proof (Nat.div_lt len 2 ltac:(lia) ltac:(lia)) as Hhalf.
      destruct (lookup_lt_is_Some_2 bs (first + len / 2)%nat ltac:(lia))
        as [b Hb].
      rewrite Hb. unfold BinCompare.
      destruct (Z.ltb_spec value (_end b)) as [Hlt|Hge].
      * destruct (IH first (len / 2)%nat) as (Hr & HL' & HR');
          [lia|lia|assumption|right; eauto|].
        split; [lia|]. split; assumption.
      * destruct (IH (S (first + len / 2)) (len - len / 2 - 1)%nat)
          as (Hr & HL' & HR'); [lia|lia|right; simpl; eauto| |].
        { replace (S (first + len / 2) + (len - len / 2 - 1))%nat
            with (first + len)%nat by lia. assumption. }
        split; [lia|]. split; assumption.
Qed.

Lemma upper_bound_bracket bs value :
  let r := upper_bound bs value in
  (r <= length bs)%nat ∧
  (r = 0%nat ∨ ∃ b, bs !! pred r = Some b ∧ _end b <= value) ∧
  (r = length bs ∨ ∃ b, bs !! r = Some b ∧ value < _end b).
Proof.
  unfold upper_bound.
  destruct (upper_bound_loop_bracket bs value (length bs) 0 (length bs))
    as (Hr & HL & HR); [lia|lia|by left|by left|].
  split; [lia|]. split; assumption.
Qed.

(** On a vector whose ends are in order the returned position is that of
    the first bucket whose end exceeds [value]. *)
Lemma upper_bound_first_above bs value b :
  ends_sorted bs → bs !! upper_bound bs value = Some b →
  first_above bs value (upper_bound bs value).
Proof.
  intros Hs Hb.
  destruct (upper_bound_bracket bs value) as (Hr & HL & HR).
  split.
  - destruct HR as [HR|HR]; [|assumption].
    apply lookup_lt_Some in Hb. lia.
  - intros j bj Hj Hbj.
    destruct HL as [HL|(bp & Hbp & Hle)]; [lia|].
    pose proof (Hs j (pred (upper_bound bs value)) bj bp ltac:(lia) Hbj Hbp).
    lia.
Qed.

Lemma upper_bound_end_none bs value :
  ends_sorted bs → bs !! upper_bound bs value = None →
  ∀ b, b ∈ bs → _end b <= value.
Proof.
  intros Hs Hnone b Hin.
  apply lookup_ge_None in Hnone.
  destruct (upper_bound_bracket bs value) as (Hr & HL & _).
  apply list_elem_of_lookup in Hin as [j Hj].
  pose proof (lookup_lt_Some _ _ _ Hj) as Hjlt.
  destruct HL as [HL|(bp & Hbp & Hle)]; [lia|].
  pose proof (Hs j (pred (upper_bound bs value)) b bp ltac:(lia) Hj Hbp).
  lia.
Qed.

Lemma first_above_unique bs v i j :
  first_above bs v i → first_above bs v j → i = j.
Proof.
  intros [(bi & Hbi & Hi) Hi'] [(bj & Hbj & Hj) Hj'].
  destruct (lt_eq_lt_dec i j) as [[Hlt|Heq]|Hgt]; [|assumption|].
  - specialize (Hj' i bi Hlt Hbi). lia.
  - specialize (Hi' j bj Hgt Hbj). lia.
Qed.
End search.

(** ** Adjacent-pair predicates on a vector, by its structure *)

Section adjacency.
Context `{NumericLimits}.

Lemma contiguous_nil : contiguous [].
Proof. intros i b b' Hb. by rewrite lookup_nil in Hb. Qed.

Lemma contiguous_singleton b : contiguous [b].
Proof. intros i x x' Hx Hx'. destruct i; simpl in Hx'; by try rewrite lookup_nil in Hx'. Qed.

Lemma contiguous_cons b b' bs :
  contiguous (b :: b' :: bs) ↔ _end b = _start b' ∧ contiguous (b' :: bs).
Proof.
  split.
  - intros Hc. split.
    + by apply (Hc 0%nat).
    + intros i x x' Hx Hx'. by apply (Hc (S i)).
  - intros [He Hc] [|i] x x' Hx Hx'; simpl in *.
    + by simplify_eq.
    + by apply (Hc i).
Qed.

Lemma sorted_by_start_cons b b' bs :
  sorted_by_start (b :: b' :: bs) ↔
  _start b <= _start b' ∧ sorted_by_start (b' :: bs).
Proof.
  split.
  - intros Hc. split.
    + by apply (Hc 0%nat).
    + intros i x x' Hx Hx'. by apply (Hc (S i)).
  - intros [He Hc] [|i] x x' Hx Hx'; simpl in *.
    + by simplify_eq.
    + by apply (Hc i).
Qed.

Lemma sorted_by_start_singleton b : sorted_by_start [b].
Proof. intros i x x' Hx Hx'. destruct i; simpl in Hx'; by try rewrite lookup_nil in Hx'. Qed.

Lemma verify_loop_linked prev pos bs :
  fst (verify_loop prev pos bs) = true ↔ linked prev bs.
Proof.
  revert prev pos. induction bs as [|b rest IH]; intros prev pos; simpl.
  - destruct (decide (prev ≠ Tmax)); simpl; split; try done.
    intros _. by destruct (decide (prev = Tmax)).
  - destruct (decide (_start b ≠ prev)); simpl.
    + split; [done|]. by intros [? _].
    + rewrite IH. split; [|by intros [_ ?]].
      intros ?. split; [|done]. by destruct (decide (_start b = prev)).
Qed.

Lemma linked_last prev bs :
  linked prev bs →
  match last bs with Some b => _end b = Tmax | None => prev = Tmax end.
Proof.
  revert prev. induction bs as [|b rest IH]; intros prev; simpl; [done|].
  intros [_ Hl]. specialize (IH _ Hl).
  destruct rest as [|b' rest]; [done|]. rewrite last_cons_cons.
  destruct (last (b' :: rest)) eqn:El; [done|].
  by apply last_None in El.
Qed.

Lemma linked_contiguous prev bs : linked prev bs → contiguous bs.
Proof.
  revert prev. induction bs as [|b rest IH]; intros prev; simpl.
  - intros _. apply contiguous_nil.
  - intros [_ Hl]. destruct rest as [|b' rest].
    + apply contiguous_singleton.
    + apply contiguous_cons. split; [|by eapply IH].
      simpl in Hl. by destruct Hl as [-> _].
Qed.

Lemma contiguous_linked b bs l :
  contiguous (b :: bs) → last (b :: bs) = Some l → _end l = Tmax →
  linked (_start b) (b :: bs).
Proof.
  revert b. induction bs as [|b' rest IH]; intros b Hc Hl He; simpl.
  - simpl in Hl. by simplify_eq.
  - apply contiguous_cons in Hc as [Hbb Hc].
    split; [done|]. rewrite Hbb. apply IH; [done| |done].
    by rewrite last_cons_cons in Hl.
Qed.

(** [verify] passes exactly on the contiguous vectors that span the whole
    domain; the order of the starts is not part of what it checks. *)
Lemma verify_iff bs :
  fst (verify bs) = true ↔ contiguous bs ∧ covers bs.
Proof.
  unfold verify. rewrite verify_loop_linked. split.
  - intros Hl. split; [by eapply linked_contiguous|].
    pose proof (linked_last _ _ Hl) as Hlast.
    destruct bs as [|b rest].
    + simpl in Hl. pose proof Tmin_lt_Tmax. lia.
    + split.
      * exists b. simpl in Hl. by destruct Hl.
      * destruct (last (b :: rest)) as [l|] eqn:El; [by exists l|].
        apply last_None in El. done.
  - intros [Hc [(b & Hb & Hs) (l & Hl & He)]].
    destruct bs as [|b0 rest]; [done|].
    simpl in Hb. simplify_eq. rewrite <- Hs.
    by eapply contiguous_linked.
Qed.
End adjacency.

(** ** Lookup on a contiguous vector that spans the domain *)

Section lookup.
Context `{NumericLimits}.

Lemma accepts_iff b v :
  accepts b v = true ↔ _start b <= v ∧ (v < _end b ∨ v = Tmax).
Proof.
  unfold accepts.
  rewrite andb_true_iff, orb_true_iff, Z.leb_le, Z.ltb_lt, Z.eqb_eq. done.
Qed.

(** Below the maximum, the search ends on a bucket that holds the value;
    no order on the buckets is needed for that. *)
Lemma upper_bound_covered bs v :
  contiguous bs → covers bs → Tmin <= v < Tmax →
  ∃ b, bs !! upper_bound bs v = Some b ∧ _start b <= v < _end b.
Proof.
  intros Hc [(b0 & Hhead & Hmin) (bl & Hlast & Hmax)] Hv.
  destruct (upper_bound_bracket bs v) as (Hr & HL & HR).
  rewrite head_lookup in Hhead. rewrite last_lookup in Hlast.
  pose proof (lookup_lt_Some _ _ _ Hhead) as Hlen.
  destruct HR as [HR|(b & Hb & Hlt)].
  - exfalso. destruct HL as [HL|(bp & Hbp & Hle)]; [lia|].
    rewrite HR in Hbp. simplify_eq. lia.
  - exists b. split; [done|]. split; [|done].
    destruct HL as [HL|(bp & Hbp & Hle)].
    + rewrite HL in Hb. simplify_eq. lia.
    + destruct (upper_bound bs v) as [|r] eqn:Er; simpl in *.
      * simplify_eq. lia.
      * rewrite <- (Hc r bp b Hbp Hb). done.
Qed.

Lemma findBin_covered h v :
  contiguous (bins h) → covers (bins h) → in_range v →
  ∃ i b, findBin h v = Ret (Some i) ∧ bins h !! i = Some b ∧
         (v ≠ Tmax → _start b <= v < _end b) ∧
         (v = Tmax → S i = length (bins h)).
Proof.
  intros Hc Hcov Hv. unfold findBin.
  destruct (decide (v = Tmax)) as [->|Hne].
  - destruct Hcov as [_ (bl & Hlast & _)].
    rewrite last_lookup in Hlast.
    destruct (bins h) as [|b0 rest] eqn:Eb; [done|].
    exists (length (b0 :: rest) - 1)%nat, bl.
    split; [done|]. split; [|split; [done|simpl; lia]].
    rewrite <- Hlast. f_equal. simpl. lia.
  - destruct (upper_bound_covered (bins h) v Hc Hcov) as (b & Hb & Hin).
    { unfold in_range in Hv. lia. }
    rewrite Hb.
    assert (accepts b v = true) as -> by (apply accepts_iff; lia).
    exists (upper_bound (bins h) v), b. simpl. done.
Qed.
End lookup.

(** ** Sample histograms used to instantiate the theorems *)

Lemma sample_contiguous : contiguous (bins sample_histogram).
Proof. by apply (proj1 (verify_iff (bins sample_histogram))). Qed.

Lemma sample_covers : covers (bins sample_histogram).
Proof. by apply (proj1 (verify_iff (bins sample_histogram))). Qed.

Lemma sample_ends_sorted : ends_sorted (bins sample_histogram).
Proof.
  intros i j b b' Hij Hi Hj.
  destruct i as [|[|[|i]]]; destruct j as [|[|[|j]]];
    simpl in *; simplify_eq; simpl; try lia; by vm_compute.
Qed.

Lemma sample_sorted : sorted_by_start (bins sample_histogram).
Proof.
  intros i b b' Hi Hj.
  destruct i as [|[|[|i]]]; simpl in *; simplify_eq; simpl; lia.
Qed.

(** ** Lookup never misses *)

Section lookup_total.
Context `{NumericLimits}.

(** C5.  On a histogram whose buckets are contiguous and span the whole
    domain, [findBin v] yields a bucket (never the null pointer) for every
    representable [v]; so [add v count] does not dereference a null
    pointer and increments the counter of that bucket. *)
Theorem findBin_never_null (h : Histogram) (v count : Z) :
  contiguous (bins h) → covers (bins h) → in_range v →
  ∃ i b,
    findBin h v = Ret (Some i) ∧
    bins h !! i = Some b ∧
    add h v count = Ret {| bins := alter (incr count) i (bins h) |} ∧
    alter (incr count) i (bins h) !! i = Some (incr count b).
Proof.
  intros Hc Hcov Hv.
  destruct (findBin_covered h v Hc Hcov Hv) as (i & b & Hf & Hb & _).
  exists i, b. split; [done|]. split; [done|]. split.
  - unfold add. by rewrite Hf.
  - by rewrite list_lookup_alter_eq, Hb.
Qed.
End lookup_total.

Lemma findBin_never_null_witness :
  ∃ i b,
    findBin sample_histogram 7 = Ret (Some i) ∧
    bins sample_histogram !! i = Some b ∧
    add sample_histogram 7 1
      = Ret {| bins := alter (incr 1) i (bins sample_histogram) |} ∧
    alter (incr 1) i (bins sample_histogram) !! i = Some (incr 1 b).
Proof.
  apply (findBin_never_null sample_histogram 7 1).
  - exact sample_contiguous.
  - exact sample_covers.
  - unfold in_range; simpl; unfold uint64_max; lia.
Defined.

(** ** What [findBin] returns *)

Section lookup_spec.
Context `{NumericLimits}.

(** C2, for the histograms it holds of: those whose bucket ends never
    decrease, the order the search relies on.  For the maximum of [T],
    [findBin] (and [getBin]) returns the last bucket; for any other value
    it returns the first bucket whose end is strictly greater than the
    value, if that bucket accepts the value; and it returns the null
    pointer exactly when no bucket's end exceeds the value or that first
    bucket does not accept it. *)
Theorem findBin_spec (h : Histogram) (v : Z) :
  ends_sorted (bins h) →
  getBin h v = findBin h v ∧
  (v = Tmax → bins h ≠ [] →
     findBin h v = Ret (Some (pred (length (bins h)))) ∧
     bins h !! pred (length (bins h)) = last (bins h)) ∧
  (v ≠ Tmax →
     (∀ i b, first_above (bins h) v i → bins h !! i = Some b →
             accepts b v = true → findBin h v = Ret (Some i)) ∧
     (findBin h v = Ret None ↔
        (∀ b, b ∈ bins h → _end b <= v) ∨
        (∃ i b, first_above (bins h) v i ∧ bins h !! i = Some b ∧
                accepts b v = false))).
Proof.
  intros Hs. split; [done|]. split.
  - intros -> Hne. unfold findBin.
    destruct (decide (Tmax = Tmax)); [|done].
    destruct (bins h) as [|b0 rest] eqn:Eb; [done|].
    split; [|by rewrite last_lookup].
    do 2 f_equal. simpl. lia.
  - intros Hne. unfold findBin.
    destruct (decide (v = Tmax)); [done|].
    destruct (bins h !! upper_bound (bins h) v) as [b|] eqn:Eu.
    + pose proof (upper_bound_first_above _ _ _ Hs Eu) as Hfirst.
      split.
      * intros i bi Hi Hbi Hacc.
        pose proof (first_above_unique _ _ _ _ Hi Hfirst) as ->.
        simplify_eq. by rewrite Hacc.
      * destruct (accepts b v) eqn:Eacc; simpl.
        -- split; [done|]. intros [Hall|(i & bi & Hi & Hbi & Hacc)].
           ++ destruct Hfirst as [(b' & Hb' & Hlt) _].
              assert (b' ∈ bins h) as Hin
                  by (apply list_elem_of_lookup; eauto).
              specialize (Hall _ Hin). lia.
           ++ pose proof (first_above_unique _ _ _ _ Hi Hfirst) as ->.
              simplify_eq. congruence.
        -- split; [|done]. intros _. right. eauto.
    + pose proof (upper_bound_end_none _ _ Hs Eu) as Hall.
      split.
      * intros i bi [(b' & Hb' & Hlt) _] _ _.
        assert (b' ∈ bins h) as Hin by (apply list_elem_of_lookup; eauto).
        specialize (Hall _ Hin). lia.
      * split; [|done]. intros _. by left.
Qed.
End lookup_spec.

Lemma findBin_spec_witness :
  getBin sample_histogram 7 = findBin sample_histogram 7 ∧
  (7 = Tmax → bins sample_histogram ≠ [] →
     findBin sample_histogram 7
       = Ret (Some (pred (length (bins sample_histogram)))) ∧
     bins sample_histogram !! pred (length (bins sample_histogram))
       = last (bins sample_histogram)) ∧
  (7 ≠ Tmax →
     (∀ i b, first_above (bins sample_histogram) 7 i →
             bins sample_histogram !! i = Some b →
             accepts b 7 = true → findBin sample_histogram 7 = Ret (Some i)) ∧
     (findBin sample_histogram 7 = Ret None ↔
        (∀ b, b ∈ bins sample_histogram → _end b <= 7) ∨
        (∃ i b, first_above (bins sample_histogram) 7 i ∧
                bins sample_histogram !! i = Some b ∧ accepts b 7 = false))).
Proof.
  apply (findBin_spec sample_histogram 7). exact sample_ends_sorted.
Defined.

(** C2 as it was stated, for every histogram, fails on a histogram the
    constructor returns: over [uint64_t], in [0,10), [10,3), [3,20),
    [20,max), built from the boundary values 0, 10, 3, 20, the first
    bucket whose end exceeds 5 is [0,10), which accepts 5, while [findBin]
    and [getBin] return the third bucket, [3,20): the halving search looks
    at the third bucket, then at the second, and never at the first. *)
Lemma findBin_misses_first_bucket :
  ∃ h b,
    Histogram_new FixedInputGenerator
      (FixedInputGenerator_new [0; 10; 3; 20]) 3 = Ret (h, EmptyString) ∧
    bins h = [new_HistogramBin 0 10; new_HistogramBin 10 3;
              new_HistogramBin 3 20; new_HistogramBin 20 uint64_max] ∧
    5 < Tmax ∧
    first_above (bins h) 5 0 ∧
    bins h !! 0%nat = Some b ∧ accepts b 5 = true ∧
    findBin h 5 = Ret (Some 2%nat) ∧
    getBin h 5 = Ret (Some 2%nat).
Proof.
  eexists _, _. split; [reflexivity|]. split; [reflexivity|].
  split; [reflexivity|]. split.
  - split; [|intros j b Hj; lia].
    eexists. split; [reflexivity|]. simpl. lia.
  - split; [reflexivity|]. split; [reflexivity|].
    split; reflexivity.
Qed.

(** ** Which buckets accept a value *)

Section acceptance.
Context `{NumericLimits}.

Lemma sorted_by_start_le bs i j b b' :
  sorted_by_start bs → (i <= j)%nat →
  bs !! i = Some b → bs !! j = Some b' → _start b <= _start b'.
Proof.
  intros Hs. revert b'. induction j as [|j IH]; intros b' Hij Hi Hj.
  - assert (i = 0)%nat as -> by lia. simplify_eq. lia.
  - destruct (decide (i = S j)) as [->|Hne]; [simplify_eq; lia|].
    destruct (lookup_lt_is_Some_2 bs j) as [bj Hbj].
    { apply lookup_lt_Some in Hj. lia. }
    specialize (IH bj ltac:(lia) Hi Hbj).
    specialize (Hs j bj b' Hbj Hj). lia.
Qed.

(** In a histogram that meets the invariants the ends are in order. *)
Lemma invariant_ends_sorted h :
  invariant h → typed (bins h) → ends_sorted (bins h).
Proof.
  intros (Hs & Hc & _ & (bl & Hl & Hmax)) Ht i j b b' Hij Hi Hj.
  rewrite last_lookup in Hl.
  pose proof (lookup_lt_Some _ _ _ Hj) as Hjlt.
  destruct (decide (S j = length (bins h))) as [Hlast|Hnl].
  - replace (pred (length (bins h))) with j in Hl by lia. simplify_eq.
    rewrite Hmax.
    apply (Forall_lookup_1 _ _ _ _ Ht) in Hi as [_ [_ ?]]. done.
  - destruct (lookup_lt_is_Some_2 (bins h) (S j) ltac:(lia)) as [bj' Hbj'].
    destruct (lookup_lt_is_Some_2 (bins h) (S i) ltac:(lia)) as [bi' Hbi'].
    rewrite (Hc i b bi' Hi Hbi'), (Hc j b' bj' Hj Hbj').
    apply (sorted_by_start_le (bins h) (S i) (S j)); [done|lia|done|done].
Qed.

(** C3, as the code has it.  A bucket accepts [v] exactly when
    [start <= v] and ([v < end] or [v] is the maximum of [T]): the test
    does not look at whether the bucket is the last one.  In a histogram
    that meets the invariants every representable value other than the
    maximum is accepted by exactly one bucket, and the maximum is
    accepted by every bucket (lookup resolves it to the last one before
    [accepts] is consulted). *)
Theorem accepts_spec (h : Histogram) (v : Z) :
  invariant h → in_range v →
  (∀ b, accepts b v = true ↔ _start b <= v ∧ (v < _end b ∨ v = Tmax)) ∧
  (v ≠ Tmax →
     ∃ i, (∃ b, bins h !! i = Some b ∧ accepts b v = true) ∧
          ∀ j b', bins h !! j = Some b' → accepts b' v = true → j = i) ∧
  (∀ b, b ∈ bins h → in_range (_start b) → accepts b Tmax = true) ∧
  findBin h Tmax = Ret (Some (pred (length (bins h)))).
Proof.
  intros (Hs & Hc & Hcov) Hv.
  split; [intros b; apply accepts_iff|]. split; [|split].
  - intros Hne.
    destruct (findBin_covered h v Hc Hcov Hv) as (i & b & _ & Hb & Hin & _).
    specialize (Hin Hne).
    exists i. split.
    + exists b. split; [done|]. apply accepts_iff. lia.
    + intros j b' Hb' Hacc. apply accepts_iff in Hacc as [Hs' [He'|?]]; [|done].
      destruct (lt_eq_lt_dec i j) as [[Hlt|Heq]|Hgt]; [|done|]; exfalso.
      * destruct (lookup_lt_is_Some_2 (bins h) (S i)) as [bi' Hbi'].
        { apply lookup_lt_Some in Hb'. lia. }
        pose proof (Hc i b bi' Hb Hbi').
        pose proof (sorted_by_start_le (bins h) (S i) j bi' b' Hs
                      ltac:(lia) Hbi' Hb'). lia.
      * destruct (lookup_lt_is_Some_2 (bins h) (S j)) as [bj' Hbj'].
        { apply lookup_lt_Some in Hb. lia. }
        pose proof (Hc j b' bj' Hb' Hbj').
        pose proof (sorted_by_start_le (bins h) (S j) i bj' b Hs
                      ltac:(lia) Hbj' Hb). lia.
  - intros b _ [_ Hle]. apply accepts_iff. split; [done|by right].
  - unfold findBin. destruct (decide (Tmax = Tmax)); [|done].
    destruct Hcov as [(b0 & Hhead & _) _].
    destruct (bins h) as [|b1 rest]; [done|].
    do 2 f_equal. simpl. lia.
Qed.
End acceptance.

Lemma sample_invariant : invariant sample_histogram.
Proof.
  split; [exact sample_sorted|].
  split; [exact sample_contiguous|exact sample_covers].
Qed.

Lemma accepts_spec_witness :
  (∀ b, accepts b 7 = true ↔ _start b <= 7 ∧ (7 < _end b ∨ 7 = Tmax)) ∧
  (7 ≠ Tmax →
     ∃ i, (∃ b, bins sample_histogram !! i = Some b ∧ accepts b 7 = true) ∧
          ∀ j b', bins sample_histogram !! j = Some b' →
                  accepts b' 7 = true → j = i) ∧
  (∀ b, b ∈ bins sample_histogram → in_range (_start b) →
        accepts b Tmax = true) ∧
  findBin sample_histogram Tmax
    = Ret (Some (pred (length (bins sample_histogram)))).
Proof.
  apply (accepts_spec sample_histogram 7).
  - exact sample_invariant.
  - unfold in_range; simpl; unfold uint64_max; lia.
Defined.

(** The first bucket of [0,5), [5,15), [15,max), a histogram over
    [uint64_t] that meets the invariants, accepts the maximum of the type,
    although the maximum is not inside [0,5) and that bucket is not the
    last one: two buckets accept the maximum. *)
Lemma accepts_not_terminal_only :
  invariant sample_histogram ∧
  bins sample_histogram !! 0%nat = Some (new_HistogramBin 0 5) ∧
  accepts (new_HistogramBin 0 5) Tmax = true ∧
  ¬ (_start (new_HistogramBin 0 5) <= Tmax < _end (new_HistogramBin 0 5)) ∧
  1%nat ≠ length (bins sample_histogram) ∧
  bins sample_histogram !! 2%nat = Some (new_HistogramBin 15 Tmax) ∧
  accepts (new_HistogramBin 15 Tmax) Tmax = true.
Proof.
  split; [exact sample_invariant|].
  split; [reflexivity|]. split; [reflexivity|].
  split; [simpl; unfold uint64_max; lia|].
  split; [simpl; lia|]. split; reflexivity.
Qed.

(** ** FixedInputGenerator *)

Section fixed_input.

(** After [j] invocations of a generator over [s], the iterator stands at
    position [min j (length s - 1)]: it stops advancing once fewer than
    two boundary values remain. *)
Lemma FixedInputGenerator_nth_call (s : list Z) (k it : nat) :
  nth_call FixedInputGenerator k {| fi_input := s; fi_it := it |} =
  if decide (S (it + k) < length s)%nat then
    match s !! (it + k)%nat, s !! S (it + k) with
    | Some a, Some b =>
        Ret (new_HistogramBin a b,
             {| fi_input := s; fi_it := S (it + k) |})
    | _, _ => Undefined
    end
  else
    Throw (overflow_error
             "FixedInputGenerator::operator() would overflow input sequence").
Proof.
  revert it. induction k as [|k IH]; intros it.
  - rewrite Nat.add_0_r. simpl. unfold FixedInputGenerator_call. simpl.
    destruct (decide (length s <= it + 1)%nat);
      destruct (decide (S it < length s)%nat); try lia; done.
  - cbn [nth_call]. simpl G_call. unfold FixedInputGenerator_call at 1.
    simpl fi_input. simpl fi_it.
    destruct (decide (length s <= it + 1)%nat) as [Hend|Hmore].
    + rewrite IH.
      destruct (decide (S (it + k) < length s)%nat);
        destruct (decide (S (it + S k) < length s)%nat); try lia; done.
    + destruct (lookup_lt_is_Some_2 s it ltac:(lia)) as [a ->].
      destruct (lookup_lt_is_Some_2 s (S it) ltac:(lia)) as [b ->].
      rewrite IH. replace (S it + k)%nat with (it + S k)%nat by lia. done.
Qed.

(** C6.  Over a boundary sequence [s] of length [m], the [k]-th
    invocation (0-based) returns the bucket [s[k], s[k+1]) when
    [k < m - 1], and throws [std::overflow_error] when fewer than two
    boundary values remain ([k >= m - 1]); over [0, 5, 15] the calls
    give [0,5), [5,15) and then the exception. *)
Theorem FixedInputGenerator_sequence (s : list Z) (k : nat) :
  ((S k < length s)%nat →
     ∃ a b g',
       s !! k = Some a ∧ s !! S k = Some b ∧
       nth_call FixedInputGenerator k (FixedInputGenerator_new s)
         = Ret (new_HistogramBin a b, g')) ∧
  ((length s <= S k)%nat →
     ∃ what,
       nth_call FixedInputGenerator k (FixedInputGenerator_new s)
         = Throw (overflow_error what)) ∧
  (∃ g0 g1 what,
     nth_call FixedInputGenerator 0 (FixedInputGenerator_new [0; 5; 15])
       = Ret (new_HistogramBin 0 5, g0) ∧
     nth_call FixedInputGenerator 1 (FixedInputGenerator_new [0; 5; 15])
       = Ret (new_HistogramBin 5 15, g1) ∧
     nth_call FixedInputGenerator 2 (FixedInputGenerator_new [0; 5; 15])
       = Throw (overflow_error what)).
Proof.
  unfold FixedInputGenerator_new.
  split; [|split].
  - intros Hk. rewrite FixedInputGenerator_nth_call. simpl.
    destruct (decide (S k < length s)%nat); [|lia].
    destruct (lookup_lt_is_Some_2 s k ltac:(lia)) as [a Ha].
    destruct (lookup_lt_is_Some_2 s (S k) ltac:(lia)) as [b Hb].
    rewrite Ha, Hb. eauto 6.
  - intros Hk. rewrite FixedInputGenerator_nth_call. simpl.
    destruct (decide (S k < length s)%nat); [lia|]. eauto.
  - do 3 eexists. split; [reflexivity|]. split; reflexivity.
Qed.
End fixed_input.

(** ** Counters: what [add], [reset] and [total] do to them *)

Section counters.
Context `{NumericLimits}.

Lemma same_bounds_lookup bs bs' i b' :
  same_bounds bs bs' → bs' !! i = Some b' →
  ∃ b, bs !! i = Some b ∧ _start b = _start b' ∧ _end b = _end b'.
Proof.
  intros Hsb Hb'.
  assert ((bounds <$> bs) !! i = Some (bounds b')) as Hl.
  { rewrite Hsb, list_lookup_fmap, Hb'. done. }
  rewrite list_lookup_fmap in Hl.
  destruct (bs !! i) as [b|]; [|done].
  exists b. split; [done|]. simpl in Hl. unfold bounds in Hl.
  by simplify_eq.
Qed.

Lemma same_bounds_length bs bs' :
  same_bounds bs bs' → length bs = length bs'.
Proof.
  intros Hsb. by rewrite <- (length_fmap bounds bs), Hsb, length_fmap.
Qed.

Lemma same_bounds_trans bs1 bs2 bs3 :
  same_bounds bs1 bs2 → same_bounds bs2 bs3 → same_bounds bs1 bs3.
Proof. unfold same_bounds. congruence. Qed.

Lemma same_bounds_incr count i bs :
  same_bounds bs (alter (incr count) i bs).
Proof.
  unfold same_bounds. revert i.
  induction bs as [|b rest IH]; intros [|i]; simpl; try done.
  f_equal. apply IH.
Qed.

Lemma same_bounds_set val bs : same_bounds bs (set val <$> bs).
Proof.
  unfold same_bounds. rewrite <- list_fmap_compose.
  by apply list_fmap_ext.
Qed.

Lemma sorted_by_start_bounds bs bs' :
  same_bounds bs bs' → sorted_by_start bs → sorted_by_start bs'.
Proof.
  intros Hsb Hs i b b' Hb Hb'.
  destruct (same_bounds_lookup _ _ _ _ Hsb Hb) as (c & Hc & <- & _).
  destruct (same_bounds_lookup _ _ _ _ Hsb Hb') as (c' & Hc' & <- & _).
  by apply (Hs i).
Qed.

Lemma contiguous_bounds bs bs' :
  same_bounds bs bs' → contiguous bs → contiguous bs'.
Proof.
  intros Hsb Hs i b b' Hb Hb'.
  destruct (same_bounds_lookup _ _ _ _ Hsb Hb) as (c & Hc & _ & <-).
  destruct (same_bounds_lookup _ _ _ _ Hsb Hb') as (c' & Hc' & <- & _).
  by apply (Hs i).
Qed.

Lemma covers_bounds bs bs' :
  same_bounds bs bs' → covers bs → covers bs'.
Proof.
  intros Hsb [(b0 & Hhead & Hmin) (bl & Hlast & Hmax)].
  pose proof (same_bounds_length _ _ Hsb) as Hlen.
  rewrite head_lookup in Hhead. rewrite last_lookup in Hlast.
  destruct (lookup_lt_is_Some_2 bs' 0) as [b0' Hb0'].
  { apply lookup_lt_Some in Hhead. lia. }
  destruct (lookup_lt_is_Some_2 bs' (pred (length bs))) as [bl' Hbl'].
  { apply lookup_lt_Some in Hlast. lia. }
  destruct (same_bounds_lookup _ _ _ _ Hsb Hb0') as (c & Hc & Hcs & _).
  destruct (same_bounds_lookup _ _ _ _ Hsb Hbl') as (c' & Hc' & _ & Hce).
  simplify_eq. split.
  - exists b0'. rewrite head_lookup. split; [done|]. congruence.
  - exists bl'. rewrite last_lookup, <- Hlen. split; [done|]. congruence.
Qed.

Lemma upper_bound_loop_bounds bs bs' v fuel first len :
  same_bounds bs bs' →
  upper_bound_loop fuel bs v first len
    = upper_bound_loop fuel bs' v first len.
Proof.
  intros Hsb. revert first len.
  induction fuel as [|fuel IH]; intros first len; [done|].
  cbn [upper_bound_loop].
  destruct (decide (len = 0)%nat); [done|].
  destruct (bs' !! (first + len / 2)%nat) as [b'|] eqn:Eb'.
  - destruct (same_bounds_lookup _ _ _ _ Hsb Eb') as (b & -> & _ & He).
    unfold BinCompare. rewrite He, !IH. done.
  - apply lookup_ge_None in Eb'.
    rewrite <- (same_bounds_length _ _ Hsb) in Eb'.
    apply lookup_ge_None in Eb'. by rewrite Eb'.
Qed.

(** [findBin] only reads the boundaries. *)
Lemma findBin_bounds h h' v :
  same_bounds (bins h) (bins h') → findBin h v = findBin h' v.
Proof.
  intros Hsb. unfold findBin, upper_bound.
  pose proof (same_bounds_length _ _ Hsb) as Hlen.
  destruct (decide (v = Tmax)).
  - rewrite Hlen. destruct (bins h), (bins h'); simpl in *; done || lia.
  - rewrite Hlen, (upper_bound_loop_bounds _ _ _ _ _ _ Hsb).
    set (r := upper_bound_loop _ _ _ _ _).
    destruct (bins h' !! r) as [b'|] eqn:Eb'.
    + destruct (same_bounds_lookup _ _ _ _ Hsb Eb') as (b & -> & Hs & He).
      unfold accepts. by rewrite Hs, He.
    + apply lookup_ge_None in Eb'. rewrite <- Hlen in Eb'.
      apply lookup_ge_None in Eb'. by rewrite Eb'.
Qed.

Lemma to_int_add_l x y : to_int (to_int x + y) = to_int (x + y).
Proof. unfold to_int. Z.div_mod_to_equations. lia. Qed.

Lemma to_int_to_size_t x : to_int (to_size_t x) = to_int x.
Proof. unfold to_int, to_size_t. Z.div_mod_to_equations. lia. Qed.

Lemma to_size_t_add_l x y : to_size_t (to_size_t x + y) = to_size_t (x + y).
Proof. unfold to_size_t. Z.div_mod_to_equations. lia. Qed.

Lemma accumulate_int a bs :
  foldl (fun init b => to_int (HistogramBinSampleAdder (to_size_t init) b))
    (to_int a) bs
  = to_int (a + sum_counts bs).
Proof.
  revert a. induction bs as [|b rest IH]; intros a; simpl.
  - by rewrite Z.add_0_r.
  - unfold HistogramBinSampleAdder at 2.
    rewrite to_int_to_size_t.
    rewrite <- (to_int_to_size_t (to_size_t (to_int a) + _count b)).
    rewrite to_size_t_add_l, to_int_to_size_t, to_int_add_l, IH.
    f_equal. lia.
Qed.

(** [total()] is the sum of the counters cut down to an [int] and widened
    again to [size_t]. *)
Lemma total_sum h : total h = to_size_t (to_int (sum_counts (bins h))).
Proof.
  unfold total. f_equal.
  change 0 with (to_int 0) at 1. by rewrite accumulate_int.
Qed.

(** Below [2^31] samples in all, [total()] is the sum of the counters. *)
Lemma total_small h :
  0 <= sum_counts (bins h) < 2 ^ 31 → total h = sum_counts (bins h).
Proof.
  intros Hs. rewrite total_sum. unfold to_int, to_size_t.
  Z.div_mod_to_equations. lia.
Qed.
End counters.

(** ** Repeated [add] *)

Section repeated_add.
Context `{NumericLimits}.

Lemma iter_incr_count N b :
  0 <= _count b < 2 ^ 64 →
  _count (Nat.iter N (incr 1) b) = to_size_t (_count b + Z.of_nat N).
Proof.
  intros Hc. induction N as [|N IH].
  - simpl. unfold to_size_t. rewrite Z.add_0_r, Z.mod_small; lia.
  - rewrite Nat.iter_succ. unfold incr at 1. cbn [_count].
    rewrite IH, to_size_t_add_l. f_equal. lia.
Qed.

Lemma iter_incr_bounds N b : bounds (Nat.iter N (incr 1) b) = bounds b.
Proof. induction N as [|N IH]; [done|]. by rewrite Nat.iter_succ. Qed.

Lemma add_times_found N h v i :
  findBin h v = Ret (Some i) →
  add_times N h v
    = Ret {| bins := alter (Nat.iter N (incr 1)) i (bins h) |}.
Proof.
  revert h. induction N as [|N IH]; intros h Hf.
  - simpl. destruct h as [bs]. simpl. by rewrite list_alter_id.
  - cbn [add_times]. unfold add at 1. rewrite Hf.
    cbn [mbind outcome_bind]. rewrite IH.
    + cbn [bins]. do 2 f_equal. rewrite list_alter_alter_eq.
      apply list_alter_ext; [|done]. intros b _.
      unfold compose. by rewrite <- Nat.iter_succ_r.
    + rewrite <- Hf. symmetry. apply findBin_bounds. simpl.
      apply same_bounds_incr.
Qed.

Lemma sum_counts_alter f i bs b :
  bs !! i = Some b →
  sum_counts (alter f i bs) = sum_counts bs - _count b + _count (f b).
Proof.
  unfold sum_counts.
  revert i. induction bs as [|b0 rest IH]; intros [|i] Hb; simpl in *;
    try done.
  - simplify_eq. lia.
  - specialize (IH i Hb). unfold alter in IH. lia.
Qed.

(** While the histogram holds fewer than [2^31] samples, [N] calls of
    [add(v, 1)] raise the counter of the bucket of [v] and [total()] by
    exactly [N]. *)
Lemma add_times_small N h v :
  contiguous (bins h) → covers (bins h) → in_range v →
  Forall (fun b => 0 <= _count b) (bins h) →
  sum_counts (bins h) + Z.of_nat N < 2 ^ 31 →
  ∃ i b h' b',
    findBin h v = Ret (Some i) ∧ bins h !! i = Some b ∧
    add_times N h v = Ret h' ∧ bins h' !! i = Some b' ∧
    _count b' = _count b + Z.of_nat N ∧
    total h' = total h + Z.of_nat N.
Proof.
  intros Hc Hcov Hv Hpos Hsum.
  destruct (findBin_covered h v Hc Hcov Hv) as (i & b & Hf & Hb & _).
  assert (0 <= sum_counts (bins h)) as Hs0.
  { clear -Hpos. unfold sum_counts. induction Hpos; simpl; lia. }
  assert (_count b <= sum_counts (bins h)) as Hble.
  { clear -Hpos Hb. unfold sum_counts. revert i Hb.
    induction Hpos as [|b0 rest Hb0 Hrest IH]; intros [|i] Hb;
      simpl in *; try done.
    - simplify_eq.
      assert (0 <= foldr (fun b acc => _count b + acc) 0 rest)
        by (clear -Hrest; induction Hrest; simpl; lia).
      lia.
    - specialize (IH i Hb). lia. }
  pose proof (Forall_lookup_1 _ _ _ _ Hpos Hb) as Hb0. simpl in Hb0.
  exists i, b, {| bins := alter (Nat.iter N (incr 1)) i (bins h) |},
    (Nat.iter N (incr 1) b).
  split; [done|]. split; [done|].
  split; [by apply add_times_found|].
  assert (_count (Nat.iter N (incr 1) b) = _count b + Z.of_nat N) as Hcnt.
  { rewrite iter_incr_count by lia. unfold to_size_t.
    rewrite Z.mod_small; lia. }
  split; [simpl; by rewrite list_lookup_alter_eq, Hb|].
  split; [done|].
  rewrite !total_small; simpl.
  - rewrite (sum_counts_alter _ _ _ _ Hb), Hcnt. lia.
  - lia.
  - rewrite (sum_counts_alter _ _ _ _ Hb), Hcnt. lia.
Qed.
End repeated_add.

Lemma add_times_sample N :
  Z.of_nat N = 2 ^ 31 →
  ∃ h' b',
    add_times N sample_histogram 7 = Ret h' ∧
    bins h' !! 1%nat = Some b' ∧
    _count b' = 2 ^ 31 ∧
    sum_counts (bins h') = 2 ^ 31 ∧
    total sample_histogram = 0 ∧
    total h' = 2 ^ 64 - 2 ^ 31.
Proof.
  intros HN.
  assert (_count (Nat.iter N (incr 1) (new_HistogramBin 5 15)) = 2 ^ 31)
    as Hcnt.
  { rewrite iter_incr_count by (simpl; lia). rewrite HN. reflexivity. }
  exists {| bins := alter (Nat.iter N (incr 1)) 1%nat (bins sample_histogram) |},
    (Nat.iter N (incr 1) (new_HistogramBin 5 15)).
  split; [apply add_times_found; reflexivity|].
  split; [reflexivity|]. split; [exact Hcnt|].
  assert (sum_counts
            (alter (Nat.iter N (incr 1)) 1%nat (bins sample_histogram))
          = 2 ^ 31) as Hsum.
  { rewrite (sum_counts_alter _ _ _ (new_HistogramBin 5 15))
      by reflexivity.
    rewrite Hcnt. reflexivity. }
  split; [exact Hsum|]. split; [reflexivity|].
  rewrite total_sum. cbn [bins]. rewrite Hsum. reflexivity.
Qed.

(** C7, at the input where the code departs from it.  On the fresh
    histogram [0,5), [5,15), [15,max) over [uint64_t], [2^31] calls of
    [add(7, 1)] leave [2^31] in the counter of [5,15), which is also the
    sum of all counters, while [total()] went from [0] to [2^64 - 2^31]:
    the accumulator of [std::accumulate] is an [int]. *)
Theorem total_truncates_to_int :
  ∃ h' b',
    add_times (Z.to_nat (2 ^ 31)) sample_histogram 7 = Ret h' ∧
    bins h' !! 1%nat = Some b' ∧
    _count b' = 2 ^ 31 ∧
    sum_counts (bins h') = 2 ^ 31 ∧
    total sample_histogram = 0 ∧
    total h' = 2 ^ 64 - 2 ^ 31.
Proof. apply add_times_sample. apply Z2Nat.id. lia. Qed.

(** ** Construction *)

Section construction.
Context `{NumericLimits}.

Lemma generate_length G n g bs : generate G n g = Ret bs → length bs = n.
Proof.
  revert g bs. induction n as [|n IH]; intros g bs; simpl.
  - intros [= <-]. done.
  - destruct (G_call G g) as [[b g']| |]; simpl; try done.
    destruct (generate G n g') as [rest| |] eqn:Er; simpl; try done.
    intros [= <-]. simpl. f_equal. by eapply IH.
Qed.

Lemma fill_padded G g n bs front back :
  generate G n g = Ret bs → head bs = Some front → last bs = Some back →
  fill G g n
    = Ret ({| bins := padded bs front back |},
           snd (verify (padded bs front back))).
Proof.
  intros Hg Hf Hl. unfold fill, padded. rewrite Hg.
  cbn [mbind outcome_bind]. rewrite Hf.
  destruct bs as [|b0 rest]; [done|]. simpl in Hf. simplify_eq.
  destruct (decide (_start front > Tmin)).
  - rewrite last_cons_cons, Hl.
    destruct (decide (_end back < Tmax)); simpl; [done|].
    by rewrite app_nil_r.
  - rewrite Hl.
    destruct (decide (_end back < Tmax)); simpl; [done|].
    by rewrite app_nil_r.
Qed.

Lemma fill_returns G g n bs :
  generate G n g = Ret bs → (0 < n)%nat →
  ∃ front back,
    head bs = Some front ∧ last bs = Some back ∧
    fill G g n
      = Ret ({| bins := padded bs front back |},
             snd (verify (padded bs front back))).
Proof.
  intros Hg Hn. pose proof (generate_length _ _ _ _ Hg) as Hlen.
  destruct bs as [|b0 rest]; [simpl in Hlen; lia|].
  destruct (last (b0 :: rest)) as [back|] eqn:El.
  - exists b0, back. split; [done|]. split; [done|].
    by apply fill_padded.
  - by apply last_None in El.
Qed.

Lemma contiguous_app bs1 bs2 :
  contiguous bs1 → contiguous bs2 →
  (∀ l f, last bs1 = Some l → head bs2 = Some f → _end l = _start f) →
  contiguous (bs1 ++ bs2).
Proof.
  intros H1 H2. induction bs1 as [|b r IH]; intros Hj; [done|].
  destruct r as [|b' r'].
  - destruct bs2 as [|f r2]; [apply contiguous_singleton|].
    simpl. apply contiguous_cons. split; [by apply Hj|done].
  - simpl. apply contiguous_cons in H1 as [Hbb H1].
    apply contiguous_cons. split; [done|].
    apply IH; [done|]. intros l f Hl Hf. apply Hj; [|done].
    by rewrite last_cons_cons.
Qed.

Lemma chain_sorted bs : chain bs → sorted_by_start bs.
Proof.
  intros [Hle Hc] i b b' Hb Hb'.
  pose proof (Forall_lookup_1 _ _ _ _ Hle Hb) as Hbe. simpl in Hbe.
  rewrite <- (Hc i b b' Hb Hb'). done.
Qed.

Lemma padded_chain bs front back :
  head bs = Some front → last bs = Some back → typed bs → chain bs →
  chain (padded bs front back).
Proof.
  intros Hf Hl Ht [Hle Hc]. unfold padded. split.
  - apply Forall_app. split; [|apply Forall_app; split; [done|]].
    + destruct (decide (_start front > Tmin)); [|done].
      apply Forall_singleton. simpl. lia.
    + destruct (decide (_end back < Tmax)); [|done].
      apply Forall_singleton. simpl. lia.
  - apply contiguous_app; [|apply contiguous_app; [done| |]|].
    + destruct (decide (_start front > Tmin));
        [apply contiguous_singleton|apply contiguous_nil].
    + destruct (decide (_end back < Tmax));
        [apply contiguous_singleton|apply contiguous_nil].
    + intros l f Hl' Hf'. destruct (decide (_end back < Tmax)); [|done].
      simpl in Hf'. by simplify_eq.
    + intros l f Hl' Hf'. destruct (decide (_start front > Tmin)); [|done].
      simpl in Hl'. simplify_eq.
      destruct bs as [|b0 rest]; [done|]. simpl in *. by simplify_eq.
Qed.

Lemma padded_covers bs front back :
  head bs = Some front → last bs = Some back → typed bs →
  covers (padded bs front back).
Proof.
  intros Hf Hl Ht. unfold padded.
  assert (in_range (_start front)) as [Hf1 _].
  { destruct bs as [|b0 rest]; [done|]. simpl in Hf. simplify_eq.
    by apply Forall_cons_1 in Ht as [[? _] _]. }
  assert (in_range (_end back)) as [_ Hb2].
  { apply last_Some in Hl as [l' ->].
    by apply Forall_app in Ht as [_ [[_ ?] _]%Forall_cons_1]. }
  split.
  - destruct (decide (_start front > Tmin)).
    + eexists. split; [done|done].
    + exists front. split; [|lia].
      destruct bs as [|b0 rest]; [done|]. done.
  - destruct (decide (_end back < Tmax)).
    + eexists. rewrite !app_assoc, last_snoc. split; [done|done].
    + exists back. rewrite app_nil_r, last_app, Hl. split; [done|lia].
Qed.

Lemma run_ops_bounds ops h h' :
  run_ops ops h = Ret h' → same_bounds (bins h) (bins h').
Proof.
  revert h. induction ops as [|[v c|] rest IH]; intros h; simpl.
  - by intros [= <-].
  - unfold add. destruct (findBin h v) as [[i|]| |]; simpl; try done.
    intros Hr. eapply same_bounds_trans; [|by apply IH].
    apply same_bounds_incr.
  - intros Hr. eapply same_bounds_trans; [|by apply IH].
    apply same_bounds_set.
Qed.

(** On a contiguous vector that spans the domain no call of [add] with a
    representable value goes wrong. *)
Lemma run_ops_returns ops h :
  contiguous (bins h) → covers (bins h) → Forall op_in_range ops →
  ∃ h', run_ops ops h = Ret h'.
Proof.
  intros Hc Hcov Hops. revert h Hc Hcov.
  induction Hops as [|[v c|] rest Hv Hrest IH]; intros h Hc Hcov; simpl.
  - eauto.
  - destruct (findBin_covered h v Hc Hcov Hv) as (i & b & Hf & _).
    unfold add. rewrite Hf. simpl. apply IH; simpl.
    + eapply contiguous_bounds; [apply same_bounds_incr|done].
    + eapply covers_bounds; [apply same_bounds_incr|done].
  - apply IH; simpl.
    + eapply contiguous_bounds; [apply same_bounds_set|done].
    + eapply covers_bounds; [apply same_bounds_set|done].
Qed.
End construction.

Section construction_invariant.
Context `{NumericLimits}.

(** X25.  Whenever the generator supplies its [n >= 1] buckets, with
    boundaries that are values of [T], construction returns a histogram
    whose first bucket starts at the minimum of [T] and whose last bucket
    ends at its maximum, and that stays so after any sequence of [add] and
    [reset] calls.  If the generated buckets are contiguous and each has
    [start <= end], the buckets of the histogram are moreover sorted
    ascending by start and contiguous, this too is kept by [add] and
    [reset], and no such call with a representable value goes wrong. *)
Theorem construction_invariant (G : Generator) (g : G_state G) (n : nat)
    (bs : list HistogramBin) :
  generate G n g = Ret bs → (0 < n)%nat → typed bs →
  ∃ h d,
    Histogram_new G g n = Ret (h, d) ∧
    covers (bins h) ∧
    (∀ ops h', run_ops ops h = Ret h' → covers (bins h')) ∧
    (chain bs →
       invariant h ∧
       (∀ ops h', run_ops ops h = Ret h' → invariant h') ∧
       (∀ ops, Forall op_in_range ops → ∃ h', run_ops ops h = Ret h')).
Proof.
  intros Hg Hn Ht.
  destruct (fill_returns G g n bs Hg Hn) as (front & back & Hf & Hl & Hfill).
  eexists _, _. split; [exact Hfill|]. cbn [bins].
  pose proof (padded_covers bs front back Hf Hl Ht) as Hcov.
  split; [done|]. split.
  - intros ops h' Hr. apply run_ops_bounds in Hr.
    eapply covers_bounds; [exact Hr|done].
  - intros Hch.
    pose proof (padded_chain bs front back Hf Hl Ht Hch) as Hch'.
    assert (invariant {| bins := padded bs front back |}) as Hinv.
    { split; [by apply chain_sorted|]. split; [by destruct Hch'|done]. }
    split; [done|]. split.
    + intros ops h' Hr. apply run_ops_bounds in Hr.
      destruct Hinv as (Hs & Hc & _). split; [|split].
      * eapply sorted_by_start_bounds; [exact Hr|done].
      * eapply contiguous_bounds; [exact Hr|done].
      * eapply covers_bounds; [exact Hr|done].
    + intros ops Hops. apply run_ops_returns; [|done|done].
      by destruct Hch'.
Qed.
End construction_invariant.

Lemma construction_invariant_witness :
  ∃ h d,
    Histogram_new FixedInputGenerator (FixedInputGenerator_new [0; 5; 15]) 2
      = Ret (h, d) ∧
    covers (bins h) ∧
    (∀ ops h', run_ops ops h = Ret h' → covers (bins h')) ∧
    (chain [new_HistogramBin 0 5; new_HistogramBin 5 15] →
       invariant h ∧
       (∀ ops h', run_ops ops h = Ret h' → invariant h') ∧
       (∀ ops, Forall op_in_range ops → ∃ h', run_ops ops h = Ret h')).
Proof.
  apply (construction_invariant FixedInputGenerator
           (FixedInputGenerator_new [0; 5; 15]) 2
           [new_HistogramBin 0 5; new_HistogramBin 5 15]).
  - reflexivity.
  - lia.
  - repeat constructor; simpl; unfold uint64_max; lia.
Defined.

(** C1, at the input where the code departs from it.  Over [uint64_t], a
    fixed-input generator over [0, 10, 3, 20] asked for three buckets
    gives the histogram [0,10), [10,3), [3,20), [20,max).  [verify], which
    is to validate that the buckets are sorted, compares each start only
    with the end before it: it passes on this histogram and prints
    nothing, and the constructor returns the histogram; yet the starts 10
    and 3 of its second and third bucket are out of order, and they stay
    so after [add] and [reset]. *)
Theorem construction_breaks_invariant :
  ∃ h,
    Histogram_new FixedInputGenerator
      (FixedInputGenerator_new [0; 10; 3; 20]) 3 = Ret (h, EmptyString) ∧
    bins h = [new_HistogramBin 0 10; new_HistogramBin 10 3;
              new_HistogramBin 3 20; new_HistogramBin 20 uint64_max] ∧
    verify (bins h) = (true, EmptyString) ∧
    ¬ sorted_by_start (bins h) ∧
    ¬ invariant h ∧
    (∀ ops h', run_ops ops h = Ret h' → ¬ sorted_by_start (bins h')).
Proof.
  eexists. split; [reflexivity|]. split; [reflexivity|].
  split; [reflexivity|].
  assert (∀ bs, bs !! 1%nat = Some (new_HistogramBin 10 3) →
                bs !! 2%nat = Some (new_HistogramBin 3 20) →
                ¬ sorted_by_start bs) as Hns.
  { intros bs H1 H2 Hs. specialize (Hs 1%nat _ _ H1 H2). simpl in Hs. lia. }
  split; [by apply Hns|]. split.
  - intros [Hs _]. revert Hs. by apply Hns.
  - intros ops h' Hr Hs. apply run_ops_bounds in Hr.
    pose proof (sorted_by_start_bounds _ _ (eq_sym Hr) Hs) as Hs0.
    revert Hs0. by apply Hns.
Qed.

(** ** The result of [verify] is not consulted *)

(** C4, at the input where the code departs from it.  Over [uint64_t], a
    generator that yields [0,5) on each call, asked for two buckets:
    [verify] fails on the padded vector [0,5), [0,5), [5,max) and writes a
    line to [std::cerr], and the constructor returns a histogram with these
    overlapping buckets all the same. *)
Theorem verify_result_dropped :
  ∃ h d,
    Histogram_new (repeating_generator (new_HistogramBin 0 5)) tt 2
      = Ret (h, d) ∧
    bins h = [new_HistogramBin 0 5; new_HistogramBin 0 5;
              new_HistogramBin 5 uint64_max] ∧
    fst (verify (bins h)) = false ∧
    d = "Expected 0 == 5 at pos 1" +:+ endl ∧
    ¬ contiguous (bins h) ∧
    add h 3 1 = Ret {| bins := [incr 1 (new_HistogramBin 0 5);
                                new_HistogramBin 0 5;
                                new_HistogramBin 5 uint64_max] |}.
Proof.
  eexists _, _. split; [reflexivity|]. split; [reflexivity|].
  split; [reflexivity|]. split; [reflexivity|]. split; [|reflexivity].
  intros Hc. specialize (Hc 0%nat _ _ eq_refl eq_refl). simpl in Hc. lia.
Qed.

(** ** Multiplying a [double] by 1.0 *)

Lemma digits2_pos_iter_xO (k : nat) (m : positive) :
  Zpos (digits2_pos (Nat.iter k xO m)) = Zpos (digits2_pos m) + Z.of_nat k.
Proof.
  induction k as [|k IH]; [simpl; lia|].
  rewrite Nat.iter_succ. cbn [digits2_pos]. lia.
Qed.

Lemma shr_iter_xO_52 (m : positive) :
  SpecFloat.iter_pos shr_1 52
    {| shr_m := Zpos (Nat.iter 52 xO m); shr_r := false; shr_s := false |}
  = {| shr_m := Zpos m; shr_r := false; shr_s := false |}.
Proof. reflexivity. Qed.

(** The product of a binary64 value and 1.0 is that value: the mantissa is
    shifted up by 52 bits and rounded back with nothing lost. *)
Lemma SF64mul_one_r (x : spec_float) :
  valid_binary x = true →
  SF64mul x (S754_finite false 4503599627370496 (-52)) = x.
Proof.
  destruct x as [s|s| |s m e]; intros Hv.
  - destruct s; reflexivity.
  - destruct s; reflexivity.
  - reflexivity.
  - cbn [SpecFloat.valid_binary] in Hv. unfold bounded, canonical_mantissa in Hv.
    apply andb_prop in Hv as [Hc He].
    apply Z.eqb_eq in Hc. apply Z.leb_le in He.
    unfold SF64mul. cbn [SFmul].
    rewrite Pos.mul_comm.
    change (4503599627370496 * m)%positive with (Nat.iter 52 xO m).
    unfold binary_round_aux, shr_fexp.
    unfold Zdigits2 at 1. rewrite digits2_pos_iter_xO.
    replace (fexp prec emax (Z.pos (digits2_pos m) + Z.of_nat 52 + (e + -52))
             - (e + -52)) with 52.
    2:{ replace (Z.pos (digits2_pos m) + Z.of_nat 52 + (e + -52))
          with (Z.pos (digits2_pos m) + e) by lia.
        rewrite Hc. lia. }
    unfold shr at 1. cbn [shr_record_of_loc].
    rewrite !shr_iter_xO_52.
    cbn [shr_m loc_of_shr_record round_nearest_even].
    replace (e + -52 + 52) with e by lia.
    unfold Zdigits2. rewrite Hc, Z.sub_diag.
    cbn [shr shr_record_of_loc shr_m].
    change (emax - prec) with 971 in *.
    destruct (Z.leb_spec e 971); [|lia].
    destruct s; reflexivity.
Qed.

Lemma double_mul_one_r (x : float) : (x * 1)%float = x.
Proof.
  apply Prim2SF_inj. rewrite mul_spec.
  change (Prim2SF 1) with (S754_finite false 4503599627370496 (-52)).
  apply SF64mul_one_r. apply Prim2SF_valid.
Qed.

(** ** GrowingWidthGenerator *)

Section growing_width.
Context `{NumericLimits}.

Lemma double2T_not_throw f e : double2T f = Throw e → False.
Proof.
  unfold double2T. destruct (trunc_double f); [|done].
  by destruct (decide (Tmin <= z <= Tmax)).
Qed.

Lemma Tadd_not_throw a b e : Tadd a b = Throw e → False.
Proof.
  unfold Tadd. destruct (decide (Tmin = 0)); [done|].
  by destruct (decide (Tmin <= a + b <= Tmax)).
Qed.

Local Ltac outcome_cases c :=
  let E := fresh "E" in
  destruct c as [?|?|] eqn:E; cbn [mbind outcome_bind]; try done;
  try (exfalso; first [ by eapply double2T_not_throw
                      | by eapply Tadd_not_throw ]).

Lemma gw_width_at_advance g e k :
  gw_width_at (gw_advance g e) k = gw_width_at g (S k).
Proof. unfold gw_width_at. simpl gw_growth. simpl gw_width. by rewrite Nat.iter_succ_r. Qed.

Lemma gw_cursor_at_advance g k :
  gw_cursor_at g (S k) =
  w0 ← double2T (gw_width g);
  e0 ← Tadd (gw_start g) w0;
  gw_cursor_at (gw_advance g e0) k.
Proof.
  induction k as [|k IH].
  - simpl. unfold gw_width_at. simpl.
    outcome_cases (double2T (gw_width g)).
    outcome_cases (Tadd (gw_start g) a).
  - change (gw_cursor_at g (S (S k)))
      with (c ← gw_cursor_at g (S k);
            w ← double2T (gw_width_at g (S k)); Tadd c w).
    rewrite IH.
    outcome_cases (double2T (gw_width g)).
    outcome_cases (Tadd (gw_start g) a).
    cbn [gw_cursor_at]. by rewrite gw_width_at_advance.
Qed.

(** The [k]-th call in closed form. *)
Lemma GrowingWidthGenerator_nth_call g k :
  nth_call GrowingWidthGenerator k g =
  c ← gw_cursor_at g k;
  w ← double2T (gw_width_at g k);
  e ← Tadd c w;
  Ret (new_HistogramBin c e,
       {| gw_growth := gw_growth g; gw_start := e;
          gw_width := gw_width_at g (S k) |}).
Proof.
  revert g. induction k as [|k IH]; intros g.
  - simpl. unfold GrowingWidthGenerator_call, gw_width_at. simpl.
    outcome_cases (double2T (gw_width g)).
  - cbn [nth_call]. rewrite gw_cursor_at_advance.
    simpl G_call. unfold GrowingWidthGenerator_call.
    outcome_cases (double2T (gw_width g)).
    outcome_cases (Tadd (gw_start g) a).
    fold (gw_advance g a0). rewrite IH.
    by rewrite !gw_width_at_advance.
Qed.

Lemma gw_width_at_fixed g k :
  gw_growth g = 1%float → gw_width_at g k = gw_width g.
Proof.
  intros Hfix. unfold gw_width_at. rewrite Hfix.
  induction k as [|k IH]; [done|].
  by rewrite Nat.iter_succ, IH, double_mul_one_r.
Qed.

Lemma gw_cursor_at_fixed g w k :
  gw_growth g = 1%float →
  double2T (gw_width g) = Ret w → Tmin = 0 → in_range (gw_start g) →
  gw_cursor_at g k = Ret ((gw_start g + Z.of_nat k * w) mod (Tmax + 1)).
Proof.
  intros Hfix Hw Hmin [Hlo Hhi]. induction k as [|k IH].
  - simpl. rewrite Z.add_0_r, Z.mod_small; [done|lia].
  - cbn [gw_cursor_at]. rewrite IH, (gw_width_at_fixed g k Hfix), Hw.
    cbn [mbind outcome_bind]. unfold Tadd.
    destruct (decide (Tmin = 0)); [|done].
    rewrite Z.add_mod_idemp_l by lia. do 2 f_equal. lia.
Qed.
End growing_width.

Section growing_width_sequence.
Context `{NumericLimits}.

Lemma gw_width_at_new start width growth k :
  gw_width_at (GrowingWidthGenerator_new start width growth) k
  = gw_width_seq width growth k.
Proof. reflexivity. Qed.

(** The cursor of an unsigned type after [k] calls. *)
Lemma gw_cursor_at_wrapping start width growth (t : nat → Z) k :
  Tmin = 0 → in_range start →
  (∀ j, (j < k)%nat → double2T (gw_width_seq width growth j) = Ret (t j)) →
  gw_cursor_at (GrowingWidthGenerator_new start width growth) k
  = Ret ((start + gw_moved t k) mod (Tmax + 1)).
Proof.
  intros Hmin [Hlo Hhi] Ht. induction k as [|k IH].
  - simpl. rewrite Z.add_0_r, Z.mod_small; [done|lia].
  - cbn [gw_cursor_at gw_moved]. rewrite IH by (intros j Hj; apply Ht; lia).
    rewrite gw_width_at_new, Ht by lia.
    cbn [mbind outcome_bind]. unfold Tadd.
    destruct (decide (Tmin = 0)); [|done].
    rewrite Z.add_mod_idemp_l by lia. do 2 f_equal. lia.
Qed.

(** The cursor of any type after [k] calls, as long as it stays in [T]. *)
Lemma gw_cursor_at_exact start width growth (t : nat → Z) k :
  (∀ j, (j < k)%nat → double2T (gw_width_seq width growth j) = Ret (t j)) →
  (∀ j, (j <= k)%nat → in_range (start + gw_moved t j)) →
  gw_cursor_at (GrowingWidthGenerator_new start width growth) k
  = Ret (start + gw_moved t k).
Proof.
  intros Ht Hr. induction k as [|k IH].
  - simpl. by rewrite Z.add_0_r.
  - cbn [gw_cursor_at gw_moved].
    rewrite IH by (intros j Hj; first [apply Ht | apply Hr]; lia).
    rewrite gw_width_at_new, Ht by lia.
    cbn [mbind outcome_bind]. unfold Tadd.
    destruct (Hr (S k) ltac:(lia)) as [Hlo Hhi]. cbn [gw_moved] in Hlo, Hhi.
    destruct (decide (Tmin = 0)) as [Hmin|_].
    + rewrite Z.mod_small by lia. f_equal. lia.
    + destruct (decide (Tmin <= start + gw_moved t k + t k <= Tmax));
        [|lia].
      f_equal. lia.
Qed.

Lemma gw_moved_fixed (w : Z) (k : nat) :
  gw_moved (fun _ => w) k = Z.of_nat k * w.
Proof. induction k as [|k IH]; [done|]. cbn [gw_moved]. rewrite IH. lia. Qed.

Lemma gw_width_seq_fixed (width : Z) (k : nat) :
  gw_width_seq width 1%float k = Z2double width.
Proof.
  unfold gw_width_seq. induction k as [|k IH]; [done|].
  by rewrite Nat.iter_succ, IH, double_mul_one_r.
Qed.

(** Between two values of [T] on a line lie values of [T]. *)
Lemma in_range_between (start w : Z) (j k : nat) :
  (j <= k)%nat → in_range start → in_range (start + Z.of_nat k * w) →
  in_range (start + Z.of_nat j * w).
Proof.
  unfold in_range. intros Hj [Hlo Hhi] [Hlo' Hhi'].
  destruct (Z.le_gt_cases 0 w).
  - assert (0 <= Z.of_nat j * w <= Z.of_nat k * w) by nia. lia.
  - assert (Z.of_nat k * w <= Z.of_nat j * w <= 0) by nia. lia.
Qed.

Lemma GrowingWidthGenerator_kth_wrapping start width growth (t : nat → Z) k :
  Tmin = 0 → in_range start →
  (∀ j, (j <= k)%nat → double2T (gw_width_seq width growth j) = Ret (t j)) →
  nth_call GrowingWidthGenerator k
    (GrowingWidthGenerator_new start width growth)
  = Ret (new_HistogramBin ((start + gw_moved t k) mod (Tmax + 1))
           ((start + gw_moved t (S k)) mod (Tmax + 1)),
         {| gw_growth := growth;
            gw_start := (start + gw_moved t (S k)) mod (Tmax + 1);
            gw_width := gw_width_seq width growth (S k) |}).
Proof.
  intros Hmin Hr Ht. rewrite GrowingWidthGenerator_nth_call.
  rewrite (gw_cursor_at_wrapping start width growth t k Hmin Hr)
    by (intros j Hj; apply Ht; lia).
  rewrite !gw_width_at_new, Ht by lia.
  cbn [mbind outcome_bind gw_growth GrowingWidthGenerator_new]. unfold Tadd.
  destruct (decide (Tmin = 0)); [|done].
  cbn [mbind outcome_bind gw_moved].
  destruct Hr. rewrite Z.add_mod_idemp_l by lia.
  by rewrite Z.add_assoc.
Qed.

Lemma GrowingWidthGenerator_kth_exact start width growth (t : nat → Z) k :
  (∀ j, (j <= k)%nat → double2T (gw_width_seq width growth j) = Ret (t j)) →
  (∀ j, (j <= S k)%nat → in_range (start + gw_moved t j)) →
  nth_call GrowingWidthGenerator k
    (GrowingWidthGenerator_new start width growth)
  = Ret (new_HistogramBin (start + gw_moved t k) (start + gw_moved t (S k)),
         {| gw_growth := growth;
            gw_start := start + gw_moved t (S k);
            gw_width := gw_width_seq width growth (S k) |}).
Proof.
  intros Ht Hr. rewrite GrowingWidthGenerator_nth_call.
  rewrite (gw_cursor_at_exact start width growth t k)
    by (intros j Hj; first [apply Ht | apply Hr]; lia).
  rewrite !gw_width_at_new, Ht by lia.
  cbn [mbind outcome_bind gw_growth GrowingWidthGenerator_new]. unfold Tadd.
  destruct (Hr (S k) ltac:(lia)) as [Hlo Hhi]. cbn [gw_moved] in Hlo, Hhi.
  destruct (decide (Tmin = 0)) as [Hmin|_].
  - rewrite Z.mod_small by lia. cbn [mbind outcome_bind gw_moved].
    by rewrite Z.add_assoc.
  - destruct (decide (Tmin <= start + gw_moved t k + t k <= Tmax)); [|lia].
    cbn [mbind outcome_bind gw_moved]. by rewrite Z.add_assoc.
Qed.
End growing_width_sequence.

(** C8, as the code has it.  The generator made with [start], [width] and
    [growth] keeps the width as a [double].  Its [k]-th call yields the
    bucket from the cursor to the cursor plus the width of that call cut
    down to a [T], where the width of the [j]-th call is [width] as a
    [double] multiplied [j] times by [growth], and the cursor is [start]
    plus the cut widths of the calls before: modulo the size of an
    unsigned [T], and exactly as long as the cursor stays in [T].
    With a growth of 1.0 and a width that survives the way to [double] and
    back, the [k]-th bucket is
    [[start + k * width, start + (k + 1) * width)].  With start 0, width
    10 and growth 2.0 over [uint64_t] the first three calls yield [0,10),
    [10,30), [30,70). *)
Theorem GrowingWidthGenerator_sequence (L : NumericLimits)
    (start width : Z) (growth : float) (k : nat) :
  let g := GrowingWidthGenerator_new start width growth in
  (∀ t : nat → Z,
     (∀ j, (j <= k)%nat →
           double2T (gw_width_seq width growth j) = Ret (t j)) →
     (Tmin = 0 → in_range start →
      nth_call GrowingWidthGenerator k g
      = Ret (new_HistogramBin ((start + gw_moved t k) mod (Tmax + 1))
               ((start + gw_moved t k + t k) mod (Tmax + 1)),
             {| gw_growth := growth;
                gw_start := (start + gw_moved t k + t k) mod (Tmax + 1);
                gw_width := gw_width_seq width growth (S k) |})) ∧
     ((∀ j, (j <= S k)%nat → in_range (start + gw_moved t j)) →
      nth_call GrowingWidthGenerator k g
      = Ret (new_HistogramBin (start + gw_moved t k)
               (start + gw_moved t k + t k),
             {| gw_growth := growth;
                gw_start := start + gw_moved t k + t k;
                gw_width := gw_width_seq width growth (S k) |}))) ∧
  (growth = 1%float → double2T (Z2double width) = Ret width →
   in_range start →
   (Tmin = 0 →
    ∃ g',
      nth_call GrowingWidthGenerator k g
      = Ret (new_HistogramBin
               ((start + Z.of_nat k * width) mod (Tmax + 1))
               ((start + Z.of_nat (S k) * width) mod (Tmax + 1)), g')) ∧
   (in_range (start + Z.of_nat (S k) * width) →
    ∃ g',
      nth_call GrowingWidthGenerator k g
      = Ret (new_HistogramBin (start + Z.of_nat k * width)
               (start + Z.of_nat (S k) * width), g'))) ∧
  generate (GrowingWidthGenerator (H := uint64_t)) 3
    (GrowingWidthGenerator_new 0 10 2%float)
  = Ret [new_HistogramBin 0 10; new_HistogramBin 10 30;
         new_HistogramBin 30 70] ∧
  generate (GrowingWidthGenerator (H := uint64_t)) 3
    (GrowingWidthGenerator_new 7 10 1%float)
  = Ret [new_HistogramBin 7 17; new_HistogramBin 17 27;
         new_HistogramBin 27 37].
Proof.
  intros g. split; [|split; [|split; reflexivity]].
  - intros t Ht. split.
    + intros Hmin Hr. unfold g.
      rewrite (GrowingWidthGenerator_kth_wrapping start width growth t k
                 Hmin Hr Ht).
      cbn [gw_moved]. by rewrite Z.add_assoc.
    + intros Hr. unfold g.
      rewrite (GrowingWidthGenerator_kth_exact start width growth t k Ht Hr).
      cbn [gw_moved]. by rewrite Z.add_assoc.
  - intros -> Hw Hr.
    assert (∀ j, (j <= k)%nat →
                 double2T (gw_width_seq width 1%float j) = Ret width) as Ht.
    { intros j _. by rewrite gw_width_seq_fixed. }
    split.
    + intros Hmin. eexists. unfold g.
      rewrite (GrowingWidthGenerator_kth_wrapping start width 1%float
                 (fun _ => width) k Hmin Hr Ht).
      rewrite !gw_moved_fixed. reflexivity.
    + intros Hend. eexists. unfold g.
      rewrite (GrowingWidthGenerator_kth_exact start width 1%float
                 (fun _ => width) k Ht).
      * rewrite !gw_moved_fixed. reflexivity.
      * intros j Hj. rewrite gw_moved_fixed.
        by apply (in_range_between start width j (S k)).
Qed.

Lemma GrowingWidthGenerator_sequence_witness :
  ∃ g',
    nth_call (GrowingWidthGenerator (H := uint64_t)) 5
      (GrowingWidthGenerator_new 7 10 1%float)
    = Ret (new_HistogramBin (7 + Z.of_nat 5 * 10) (7 + Z.of_nat 6 * 10), g').
Proof.
  destruct (GrowingWidthGenerator_sequence uint64_t 7 10 1%float 5)
    as (_ & Hfixed & _).
  refine (proj2 (Hfixed eq_refl eq_refl _) _).
  - unfold in_range; simpl; unfold uint64_max; lia.
  - unfold in_range; simpl; unfold uint64_max; lia.
Defined.

(** C8 as it was stated fails where the width is no whole number or no
    [double]: over [uint64_t], with start 0, width 1 and growth 1.5 the
    widths are 1, 1.5 and 2.25, and the calls yield [0,1), [1,2), [2,4)
    where the claim has the second bucket 1.5 wide and the third start at
    2.5; and with width [2^53 + 1] and growth 1.0 the first bucket is
    [[0, 2^53)], one short of the width given. *)
Lemma GrowingWidthGenerator_width_is_cut :
  generate (GrowingWidthGenerator (H := uint64_t)) 3
    (GrowingWidthGenerator_new 0 1 1.5%float)
  = Ret [new_HistogramBin 0 1; new_HistogramBin 1 2; new_HistogramBin 2 4] ∧
  gw_width_seq 1 1.5%float 1 = 1.5%float ∧
  gw_width_seq 1 1.5%float 2 = 2.25%float ∧
  generate (GrowingWidthGenerator (H := uint64_t)) 1
    (GrowingWidthGenerator_new 0 (2 ^ 53 + 1) 1%float)
  = Ret [new_HistogramBin 0 (2 ^ 53)] ∧
  2 ^ 53 < 0 + (2 ^ 53 + 1).
Proof.
  split; [vm_compute; reflexivity|]. split; [vm_compute; reflexivity|].
  split; [vm_compute; reflexivity|]. split; [vm_compute; reflexivity|].
  lia.
Qed.

(** ** ExponentialGenerator *)

Section exponential.
Context `{NumericLimits}.
Variable pow : float -> float -> float.

Lemma eg_exponent_advance g j :
  eg_exponent (eg_advance g) j = eg_exponent g (S j).
Proof. unfold eg_exponent. simpl eg_start. by rewrite Nat.iter_succ_r. Qed.

Lemma eg_boundary_advance g j :
  eg_boundary pow (eg_advance g) j = eg_boundary pow g (S j).
Proof. unfold eg_boundary. by rewrite eg_exponent_advance. Qed.

(** The [k]-th call in closed form, when the boundaries up to the
    [k+1]-st are values of [T]. *)
Lemma ExponentialGenerator_nth_call g k (bnd : nat → Z) :
  (∀ j, (j <= S k)%nat → eg_boundary pow g j = Ret (bnd j)) →
  nth_call (ExponentialGenerator pow) k g =
  Ret (new_HistogramBin (bnd k) (bnd (S k)),
       {| eg_start := eg_exponent g (S k); eg_power := eg_power g |}).
Proof.
  revert g bnd. induction k as [|k IH]; intros g bnd Hb.
  - pose proof (Hb 0%nat ltac:(lia)) as H0.
    pose proof (Hb 1%nat ltac:(lia)) as H1.
    unfold eg_boundary, eg_exponent in H0, H1. simpl in H0, H1.
    simpl. unfold ExponentialGenerator_call.
    rewrite H0. cbn [mbind outcome_bind]. rewrite H1. done.
  - pose proof (Hb 0%nat ltac:(lia)) as H0.
    pose proof (Hb 1%nat ltac:(lia)) as H1.
    unfold eg_boundary, eg_exponent in H0, H1. simpl in H0, H1.
    cbn [nth_call]. simpl G_call. unfold ExponentialGenerator_call.
    rewrite H0. cbn [mbind outcome_bind]. rewrite H1.
    cbn [mbind outcome_bind]. fold (eg_advance g).
    rewrite (IH (eg_advance g) (fun j => bnd (S j))).
    + by rewrite eg_exponent_advance.
    + intros j Hj. rewrite eg_boundary_advance. apply Hb. lia.
Qed.

Lemma eg_exponent_small g j :
  0 <= eg_start g → eg_start g + Z.of_nat j < 2 ^ 64 →
  eg_exponent g j = eg_start g + Z.of_nat j.
Proof.
  intros H0 Hj. unfold eg_exponent. induction j as [|j IH]; [simpl; lia|].
  rewrite Nat.iter_succ, IH by lia. unfold to_size_t.
  rewrite Z.mod_small; lia.
Qed.

(** The exponent of a generator made with [start], after [j] increments
    of a [uint64_t]. *)
Lemma eg_exponent_new start power j :
  0 <= start < 2 ^ 64 →
  eg_exponent (ExponentialGenerator_new start power) j
  = to_size_t (start + Z.of_nat j).
Proof.
  intros Hs. unfold eg_exponent. cbn [eg_start ExponentialGenerator_new].
  induction j as [|j IH].
  - simpl. unfold to_size_t. rewrite Z.add_0_r, Z.mod_small; lia.
  - rewrite Nat.iter_succ, IH, to_size_t_add_l. f_equal. lia.
Qed.

Lemma ExponentialGenerator_call_boundaries g :
  ExponentialGenerator_call pow g =
  (s ← eg_boundary pow g 0; e ← eg_boundary pow g 1;
   Ret (new_HistogramBin s e, eg_advance g)).
Proof. reflexivity. Qed.

(** A boundary that is no value of [T] leaves the call that needs it, and
    every later one, without a defined result. *)
Lemma ExponentialGenerator_nth_call_undefined g k j :
  (j <= S k)%nat → eg_boundary pow g j = Undefined →
  nth_call (ExponentialGenerator pow) k g = Undefined.
Proof.
  revert g j. induction k as [|k IH]; intros g j Hj Hb.
  - cbn [nth_call G_call ExponentialGenerator].
    rewrite ExponentialGenerator_call_boundaries.
    destruct j as [|[|j]]; [by rewrite Hb| |lia].
    destruct (eg_boundary pow g 0) as [s|e|] eqn:E0;
      cbn [mbind outcome_bind]; [by rewrite Hb| |done].
    exfalso. by eapply double2T_not_throw.
  - cbn [nth_call G_call ExponentialGenerator].
    rewrite ExponentialGenerator_call_boundaries.
    destruct j as [|j]; [by rewrite Hb|].
    destruct (eg_boundary pow g 0) as [s|e|] eqn:E0;
      cbn [mbind outcome_bind]; [| |done].
    2: { exfalso. by eapply double2T_not_throw. }
    destruct (eg_boundary pow g 1) as [s'|e|] eqn:E1;
      cbn [mbind outcome_bind]; [| |done].
    2: { exfalso. by eapply double2T_not_throw. }
    apply (IH (eg_advance g) j); [lia|].
    by rewrite eg_boundary_advance.
Qed.
End exponential.

(** A power of two up to [2^63] survives the way from [uint64_t] to
    [double] and back. *)
Lemma double2T_power_of_two (n : Z) :
  0 <= n <= 63 → double2T (H := uint64_t) (Z2double (2 ^ n)) = Ret (2 ^ n).
Proof.
  intros Hn. replace n with (Z.of_nat (Z.to_nat n)) by lia.
  assert (Z.to_nat n < 64)%nat as Hm by lia.
  revert Hm. generalize (Z.to_nat n). intros m Hm.
  do 64 (destruct m as [|m]; [vm_compute; reflexivity|]). lia.
Qed.

Section exponential_two.
Variable pow : float -> float -> float.

(** [std::pow] is exact on the powers of two at hand. *)
Hypothesis pow_two :
  ∀ n, 0 <= n <= 63 → pow 2%float (Z2double n) = Z2double (2 ^ n).

Lemma ExponentialGenerator_call_two (i : Z) :
  0 <= i <= 62 →
  ExponentialGenerator_call (H := uint64_t) pow
    {| eg_start := i; eg_power := 2%float |}
  = Ret (new_HistogramBin (2 ^ i) (2 ^ (i + 1)),
         {| eg_start := i + 1; eg_power := 2%float |}).
Proof.
  intros Hi. unfold ExponentialGenerator_call. cbn [eg_start eg_power].
  assert (to_size_t (i + 1) = i + 1) as ->.
  { unfold to_size_t. rewrite Z.mod_small; lia. }
  rewrite !pow_two, !double2T_power_of_two by lia. done.
Qed.

Lemma eg_boundary_two (i : Z) (j : nat) :
  0 <= i → i + Z.of_nat j <= 63 →
  eg_boundary (H := uint64_t) pow (ExponentialGenerator_new i 2%float) j
  = Ret (2 ^ (i + Z.of_nat j)).
Proof.
  intros Hi Hj. unfold eg_boundary.
  rewrite eg_exponent_small by (simpl; lia). simpl eg_start. simpl eg_power.
  rewrite pow_two, double2T_power_of_two by lia. done.
Qed.
End exponential_two.

(** [2^64] is no [uint64_t]. *)
Lemma double2T_two64 :
  double2T (H := uint64_t) (Z2double (2 ^ 64)) = Undefined.
Proof. vm_compute. reflexivity. Qed.

(** C9, as the code has it.  The generator made with the exponent [start],
    a [uint64_t], and the base [power] yields on its [k]-th call the
    bucket from [pow(power, start + k)] to [pow(power, start + k + 1)],
    each cut down to a [T], and leaves the exponent at [start + k + 1]
    (modulo [2^64]), provided every power up to there is a value of [T];
    where one of them is not, the call has no defined result.  With base 2
    over [uint64_t], where [std::pow] is exact, the [k]-th call from the
    exponent [start] yields [2^(start+k), 2^(start+k+1)) as long as
    [start + k + 1 <= 63], and the call that would end at [2^64] is
    undefined; from exponent 0 the first calls yield [1,2), [2,4),
    [4,8). *)
Theorem ExponentialGenerator_sequence (pow : float -> float -> float)
    (L : NumericLimits) (start : Z) (power : float) (k : nat) :
  0 <= start < 2 ^ 64 →
  (∀ bnd : nat → Z,
     (∀ j, (j <= S k)%nat →
           double2T (pow power (Z2double (to_size_t (start + Z.of_nat j))))
           = Ret (bnd j)) →
     nth_call (ExponentialGenerator pow) k
       (ExponentialGenerator_new start power)
     = Ret (new_HistogramBin (bnd k) (bnd (S k)),
            {| eg_start := to_size_t (start + Z.of_nat (S k));
               eg_power := power |})) ∧
  (∀ j, (j <= S k)%nat →
        double2T (pow power (Z2double (to_size_t (start + Z.of_nat j))))
        = Undefined →
        nth_call (ExponentialGenerator pow) k
          (ExponentialGenerator_new start power) = Undefined) ∧
  ((∀ n, 0 <= n <= 64 → pow 2%float (Z2double n) = Z2double (2 ^ n)) →
   (start + Z.of_nat k + 1 <= 63 →
    nth_call (ExponentialGenerator (H := uint64_t) pow) k
      (ExponentialGenerator_new start 2%float)
    = Ret (new_HistogramBin (2 ^ (start + Z.of_nat k))
             (2 ^ (start + Z.of_nat k + 1)),
           {| eg_start := start + Z.of_nat k + 1; eg_power := 2%float |})) ∧
   (start + Z.of_nat k + 1 = 64 →
    nth_call (ExponentialGenerator (H := uint64_t) pow) k
      (ExponentialGenerator_new start 2%float) = Undefined) ∧
   generate (ExponentialGenerator (H := uint64_t) pow) 3
     (ExponentialGenerator_new 0 2%float)
   = Ret [new_HistogramBin 1 2; new_HistogramBin 2 4; new_HistogramBin 4 8]).
Proof.
  intros Hs. split; [|split].
  - intros bnd Hb.
    rewrite (ExponentialGenerator_nth_call pow _ k bnd).
    + by rewrite eg_exponent_new.
    + intros j Hj. unfold eg_boundary. rewrite eg_exponent_new by done.
      by apply Hb.
  - intros j Hj Hb.
    apply (ExponentialGenerator_nth_call_undefined pow _ k j Hj).
    unfold eg_boundary. by rewrite eg_exponent_new.
  - intros Hpow. split; [|split].
    + intros Hk.
      rewrite (ExponentialGenerator_nth_call (H := uint64_t) pow _ k
                 (fun j => 2 ^ (start + Z.of_nat j))).
      * rewrite eg_exponent_new by done. unfold to_size_t.
        rewrite Z.mod_small by lia.
        replace (start + Z.of_nat (S k)) with (start + Z.of_nat k + 1)
          by lia.
        reflexivity.
      * intros j Hj. unfold eg_boundary. rewrite eg_exponent_new by done.
        cbn [eg_power ExponentialGenerator_new]. unfold to_size_t.
        rewrite Z.mod_small by lia.
        rewrite Hpow, double2T_power_of_two by lia. done.
    + intros Hk.
      apply (ExponentialGenerator_nth_call_undefined (H := uint64_t) pow _ k
               (S k)); [lia|].
      unfold eg_boundary. rewrite eg_exponent_new by done.
      cbn [eg_power ExponentialGenerator_new]. unfold to_size_t.
      rewrite Z.mod_small by lia.
      replace (start + Z.of_nat (S k)) with 64 by lia.
      rewrite Hpow by lia. exact double2T_two64.
    + assert (∀ n, 0 <= n <= 63 → pow 2%float (Z2double n) = Z2double (2 ^ n))
        as Hpow' by (intros n Hn; apply Hpow; lia).
      unfold ExponentialGenerator_new.
      cbn [generate G_call ExponentialGenerator].
      rewrite (ExponentialGenerator_call_two pow Hpow' 0) by lia.
      cbn [mbind outcome_bind fst snd].
      rewrite (ExponentialGenerator_call_two pow Hpow' (0 + 1)) by lia.
      cbn [mbind outcome_bind fst snd].
      rewrite (ExponentialGenerator_call_two pow Hpow' (0 + 1 + 1)) by lia.
      reflexivity.
Qed.

Lemma pow_integral_two (n : Z) :
  0 <= n <= 63 → pow_integral 2%float (Z2double n) = Z2double (2 ^ n).
Proof.
  intros Hn. replace n with (Z.of_nat (Z.to_nat n)) by lia.
  assert (Z.to_nat n < 64)%nat as Hm by lia.
  revert Hm. generalize (Z.to_nat n). intros m Hm.
  do 64 (destruct m as [|m]; [vm_compute; reflexivity|]). lia.
Qed.

Lemma pow_integral_two64 (n : Z) :
  0 <= n <= 64 → pow_integral 2%float (Z2double n) = Z2double (2 ^ n).
Proof.
  intros Hn. replace n with (Z.of_nat (Z.to_nat n)) by lia.
  assert (Z.to_nat n < 65)%nat as Hm by lia.
  revert Hm. generalize (Z.to_nat n). intros m Hm.
  do 65 (destruct m as [|m]; [vm_compute; reflexivity|]). lia.
Qed.

Lemma ExponentialGenerator_sequence_witness :
  nth_call (ExponentialGenerator (H := uint64_t) pow_integral) 4
    (ExponentialGenerator_new 3 2%float)
  = Ret (new_HistogramBin (2 ^ (3 + Z.of_nat 4)) (2 ^ (3 + Z.of_nat 4 + 1)),
         {| eg_start := 3 + Z.of_nat 4 + 1; eg_power := 2%float |}) ∧
  generate (ExponentialGenerator (H := uint64_t) pow_integral) 3
    (ExponentialGenerator_new 0 2%float)
  = Ret [new_HistogramBin 1 2; new_HistogramBin 2 4; new_HistogramBin 4 8].
Proof.
  split.
  - destruct (ExponentialGenerator_sequence pow_integral uint64_t 3 2%float 4)
      as (_ & _ & Htwo); [lia|].
    destruct (Htwo pow_integral_two64) as (Hcall & _ & _).
    apply Hcall. simpl. lia.
  - destruct (ExponentialGenerator_sequence pow_integral uint64_t 0 2%float 2)
      as (_ & _ & Htwo); [lia|].
    destruct (Htwo pow_integral_two64) as (_ & _ & Hgen).
    exact Hgen.
Defined.

(** C9 as it was stated fails where the power is no value of [T]: over
    [uint64_t], with start 0 and base 2, the 63rd call yields
    [[2^62, 2^63)] and the 64th, the bucket of which would end at [2^64],
    has no defined result; the sequence [1,2), [2,4), [4,8), ... ends
    there. *)
Lemma ExponentialGenerator_ends_at_two64 :
  nth_call (ExponentialGenerator (H := uint64_t) pow_integral) 62
    (ExponentialGenerator_new 0 2%float)
  = Ret (new_HistogramBin (2 ^ 62) (2 ^ 63),
         {| eg_start := 63; eg_power := 2%float |}) ∧
  pow_integral 2%float (Z2double 64) = Z2double (2 ^ 64) ∧
  Tmax (NumericLimits := uint64_t) < 2 ^ 64 ∧
  nth_call (ExponentialGenerator (H := uint64_t) pow_integral) 63
    (ExponentialGenerator_new 0 2%float)
  = Undefined.
Proof.
  split; [vm_compute; reflexivity|]. split; [vm_compute; reflexivity|].
  split; [vm_compute; reflexivity|]. vm_compute; reflexivity.
Qed.

(** ** GenericBlockTimer *)

Lemma string_app_nil_r (s : string) : s +:+ EmptyString = s.
Proof.
  induction s as [|a s IH]; [done|].
  change (String a (s +:+ EmptyString) = String a s). by f_equal.
Qed.

Section timer_spec.
Context `{NumericLimits}.
Variable THRESHOLD_MS : Z.

Lemma log_histogram spent nm o w :
  w_histogram (log THRESHOLD_MS spent nm o w) = w_histogram w.
Proof.
  unfold log. destruct o, nm; simpl;
    repeat (destruct (decide _); simpl); done.
Qed.

Lemma log_out spent nm o w :
  w_out (log THRESHOLD_MS spent nm o w) =
  w_out w +:+ match o, nm with
              | true, Some n => timing_line n spent
              | _, _ => EmptyString
              end.
Proof.
  unfold log. destruct o, nm; simpl;
    repeat (destruct (decide _); simpl);
    by rewrite ?string_app_nil_r.
Qed.

Lemma log_cerr spent nm o w :
  w_cerr (log THRESHOLD_MS spent nm o w) =
  w_cerr w +:+ match nm with
               | Some n =>
                   if decide (THRESHOLD_MS > 0 ∧ spent / 1000000 > THRESHOLD_MS)
                   then slow_warning n (spent / 1000000) else EmptyString
               | None => EmptyString
               end.
Proof.
  unfold log. destruct o, nm; simpl;
    repeat (destruct (decide _); simpl);
    rewrite ?string_app_nil_r; done || lia.
Qed.
End timer_spec.

(** C10.  When a timer is destroyed, with [e] the nanoseconds from its
    start to now on the monotonic clock: a timer with a destination
    histogram calls [add(e / 1000)] on it; one with both a name and an
    output stream writes the line made of the name and [e] to that stream;
    and the slow-block warning, made of the name and [e / 1000000], goes
    to [std::cerr] exactly when [THRESHOLD_MS > 0], a name was given and
    [e / 1000000 > THRESHOLD_MS].  Nothing else changes, and the
    destructor returns whenever that [add] does. *)
Theorem GenericBlockTimer_delete_spec (L : NumericLimits) (THRESHOLD_MS : Z)
    (t : GenericBlockTimer) (now : Z) (w w' : World) :
  let e := hrtime_sub now (start t) in
  let msec := e / 1000000 in
  GenericBlockTimer_delete THRESHOLD_MS t now w = Ret w' ↔
    (if dest t
     then add (w_histogram w) (e / 1000) 1 = Ret (w_histogram w')
     else w_histogram w' = w_histogram w) ∧
    w_out w' = w_out w +:+ match out t, name t with
                           | true, Some n => timing_line n e
                           | _, _ => EmptyString
                           end ∧
    ∃ warning,
      w_cerr w' = w_cerr w +:+ warning ∧
      ((THRESHOLD_MS > 0 ∧ msec > THRESHOLD_MS ∧
        ∃ n, name t = Some n ∧ warning = slow_warning n msec) ∨
       (¬ (THRESHOLD_MS > 0 ∧ msec > THRESHOLD_MS ∧ is_Some (name t)) ∧
        warning = EmptyString)).
Proof.
  intros e msec.
  assert (∀ nm,
    let warning :=
      match nm with
      | Some n =>
          if decide (THRESHOLD_MS > 0 ∧ msec > THRESHOLD_MS)
          then slow_warning n msec else EmptyString
      | None => EmptyString
      end in
    (THRESHOLD_MS > 0 ∧ msec > THRESHOLD_MS ∧
     ∃ n, nm = Some n ∧ warning = slow_warning n msec) ∨
    (¬ (THRESHOLD_MS > 0 ∧ msec > THRESHOLD_MS ∧ is_Some nm) ∧
     warning = EmptyString)) as Hwarn.
  { intros [n|]; simpl.
    - destruct (decide (THRESHOLD_MS > 0 ∧ msec > THRESHOLD_MS)) as [[? ?]|Hn].
      + left. eauto.
      + right. split; [|done]. intros (? & ? & _). by apply Hn.
    - right. split; [|done]. intros (_ & _ & [? ?]). done. }
  unfold GenericBlockTimer_delete. fold e. split.
  - intros Hd.
    assert (∃ h, (if dest t then add (w_histogram w) (e / 1000) 1
                  else Ret (w_histogram w)) = Ret h ∧
                 w' = log THRESHOLD_MS e (name t) (out t)
                        {| w_histogram := h; w_out := w_out w;
                           w_cerr := w_cerr w |}) as (h & Hh & ->).
    { destruct (if dest t then _ else _) as [h| |]; simpl in Hd; try done.
      exists h. split; [done|]. by simplify_eq. }
    rewrite log_histogram, log_out, log_cerr. cbn [w_histogram w_out w_cerr].
    split; [|split; [done|]].
    + destruct (dest t); [done|]. by simplify_eq.
    + eexists. split; [done|]. apply Hwarn.
  - intros (Hh & Ho & warning & Hc & Hcase).
    assert ((if dest t then add (w_histogram w) (e / 1000) 1
             else Ret (w_histogram w)) = Ret (w_histogram w')) as ->.
    { destruct (dest t); [done|]. by rewrite Hh. }
    cbn [mbind outcome_bind]. f_equal.
    set (r := log _ _ _ _ _).
    assert (w_histogram r = w_histogram w') as H1
        by (unfold r; by rewrite log_histogram).
    assert (w_out r = w_out w') as H2
        by (unfold r; by rewrite log_out, Ho).
    assert (w_cerr r = w_cerr w') as H3.
    { unfold r. rewrite log_cerr, Hc. cbn [w_cerr]. f_equal.
      destruct (Hwarn (name t)) as [(? & ? & n & Hn & Hw)|[Hnot Hw]];
        destruct Hcase as [(? & ? & n' & Hn' & ->)|[Hnot' ->]].
      - rewrite Hn in *. simplify_eq. fold msec in Hw. exact Hw.
      - exfalso. apply Hnot'. rewrite Hn. eauto.
      - exfalso. apply Hnot. rewrite Hn'. eauto.
      - exact Hw. }
    destruct r, w'. simpl in *. by subst.
Qed.

(** ** Worked examples *)

(** The default histogram of 30 buckets over [uint64_t]: the buckets
    [2^i, 2^(i+1)) for [i < 30], one bucket in front for 0 and one at the
    back up to the maximum; [verify] passes on it. *)
Example Histogram_default_30 :
  ∃ h,
    Histogram_default pow_integral 30 = Ret (h, EmptyString) ∧
    length (bins h) = 32%nat ∧
    bins h !! 0%nat = Some (new_HistogramBin 0 1) ∧
    bins h !! 1%nat = Some (new_HistogramBin 1 2) ∧
    bins h !! 30%nat = Some (new_HistogramBin (2 ^ 29) (2 ^ 30)) ∧
    bins h !! 31%nat = Some (new_HistogramBin (2 ^ 30) uint64_max) ∧
    fst (verify (bins h)) = true ∧
    findBin h 0 = Ret (Some 0%nat) ∧
    findBin h 5 = Ret (Some 3%nat) ∧
    findBin h uint64_max = Ret (Some 31%nat).
Proof.
  eexists. split; [vm_compute; reflexivity|].
  repeat (split; [vm_compute; reflexivity|]).
  vm_compute; reflexivity.
Qed.

(** A [BlockTimer] (threshold 10 ms) named "op" with an output stream,
    destroyed 25 ms after its start: 25000 microseconds are added to the
    histogram, the line goes to the stream and the warning to
    [std::cerr]. *)
Example BlockTimer_slow_block :
  GenericBlockTimer_delete 10
    (GenericBlockTimer_new true (Some "op") true 100) 25000100
    {| w_histogram := sample_histogram;
       w_out := EmptyString; w_cerr := EmptyString |}
  = Ret {| w_histogram :=
             {| bins := [new_HistogramBin 0 5; new_HistogramBin 5 15;
                         incr 1 (new_HistogramBin 15 uint64_max)] |};
           w_out := "op" +:+ tab +:+ "25000000" +:+ endl;
           w_cerr := "BlockTimer<op> Took too long: 25ms" +:+ endl |}.
Proof. vm_compute. reflexivity. Qed.

(** * Further properties *)

(** ** Validation and construction *)

Section validation.
Context `{NumericLimits}.

Lemma verify_loop_pass_silent prev pos bs :
  fst (verify_loop prev pos bs) = true →
  snd (verify_loop prev pos bs) = EmptyString.
Proof.
  revert prev pos. induction bs as [|b rest IH]; intros prev pos; simpl.
  - by destruct (decide (prev ≠ Tmax)).
  - destruct (decide (_start b ≠ prev)); [done|]. apply IH.
Qed.

Lemma verify_loop_silent prev pos bs :
  snd (verify_loop prev pos bs) = EmptyString ↔ joined prev bs.
Proof.
  revert prev pos. induction bs as [|b rest IH]; intros prev pos; simpl.
  - by destruct (decide (prev ≠ Tmax)).
  - destruct (decide (_start b ≠ prev)) as [Hne|He]; simpl.
    + split; [done|]. by intros [? _].
    + rewrite IH. split; [|by intros [_ ?]].
      intros ?. split; [|done]. by destruct (decide (_start b = prev)).
Qed.

Lemma joined_contiguous prev b bs :
  joined prev (b :: bs) ↔ _start b = prev ∧ contiguous (b :: bs).
Proof.
  revert prev b. induction bs as [|b' rest IH]; intros prev b.
  - simpl. split; [|tauto]. intros [? _]. split; [done|].
    apply contiguous_singleton.
  - change (joined prev (b :: b' :: rest))
      with (_start b = prev ∧ joined (_end b) (b' :: rest)).
    rewrite IH, contiguous_cons. split; intros (? & ? & ?); done.
Qed.

Lemma verify_passes_iff_aux bs :
  contiguous bs → covers bs → verify bs = (true, EmptyString).
Proof.
  intros Hc Hcov.
  assert (fst (verify bs) = true) as Hp by (by apply verify_iff).
  pose proof (verify_loop_pass_silent Tmin 0 bs Hp) as Hs.
  unfold verify in *. destruct (verify_loop Tmin 0 bs); simpl in *.
  by subst.
Qed.

(** X1.  [verify] returns true, and then prints nothing, exactly when
    adjacent buckets meet, the first bucket starts at the minimum of [T]
    and the last one ends at its maximum; it prints its diagnostic exactly
    when some bucket does not start where the bucket before it ended (the
    first one at the minimum). *)
Theorem verify_passes_iff (bs : list HistogramBin) :
  (verify bs = (true, EmptyString) ↔ contiguous bs ∧ covers bs) ∧
  (fst (verify bs) = true → snd (verify bs) = EmptyString) ∧
  (snd (verify bs) = EmptyString ↔ joined Tmin bs).
Proof.
  split; [|split].
  - rewrite <- verify_iff. split; [by intros ->|].
    intros Hp. pose proof (verify_loop_pass_silent Tmin 0 bs Hp) as Hs.
    unfold verify in *. destruct (verify_loop Tmin 0 bs); simpl in *.
    by subst.
  - apply verify_loop_pass_silent.
  - apply verify_loop_silent.
Qed.

(** After the padding of [fill] the last check of [verify] cannot fail:
    the diagnostic is the only way [verify] fails. *)
Lemma verify_padded bs front back :
  head bs = Some front → last bs = Some back → typed bs →
  (snd (verify (padded bs front back)) = EmptyString ↔
   contiguous (padded bs front back)) ∧
  (fst (verify (padded bs front back)) = true ↔
   contiguous (padded bs front back)).
Proof.
  intros Hf Hl Ht.
  pose proof (padded_covers bs front back Hf Hl Ht) as Hcov.
  split.
  - unfold verify. rewrite verify_loop_silent.
    destruct Hcov as [(b0 & Hb0 & Hmin) _].
    destruct (padded bs front back) as [|p rest]; [done|].
    simpl in Hb0. simplify_eq. rewrite joined_contiguous. tauto.
  - rewrite verify_iff. tauto.
Qed.

(** X2.  What the constructor does with the outcome of the generator: an
    exception of the generator leaves the constructor as it is, a request
    for zero buckets is undefined, and otherwise the constructor returns,
    whatever [verify] finds, a histogram that holds the generated buckets
    in their order with at most one more bucket on either side. *)
Theorem Histogram_new_outcome (G : Generator) (g : G_state G) (n : nat) :
  (∀ e, generate G n g = Throw e → Histogram_new G g n = Throw e) ∧
  (generate G n g = Undefined → Histogram_new G g n = Undefined) ∧
  (n = 0%nat → Histogram_new G g n = Undefined) ∧
  (∀ bs, (0 < n)%nat → generate G n g = Ret bs →
     ∃ pre post d,
       Histogram_new G g n = Ret ({| bins := pre ++ bs ++ post |}, d) ∧
       (length pre <= 1)%nat ∧ (length post <= 1)%nat ∧
       (n <= length (pre ++ bs ++ post) <= n + 2)%nat).
Proof.
  unfold Histogram_new. split; [|split; [|split]].
  - intros e He. unfold fill. by rewrite He.
  - intros He. unfold fill. by rewrite He.
  - intros ->. reflexivity.
  - intros bs Hn Hg.
    destruct (fill_returns G g n bs Hg Hn) as (front & back & _ & _ & Hfill).
    rewrite Hfill. unfold padded.
    pose proof (generate_length _ _ _ _ Hg) as Hlen.
    eexists _, _, _. split; [reflexivity|].
    rewrite !length_app, Hlen.
    destruct (decide (_start front > Tmin));
      destruct (decide (_end back < Tmax)); simpl; lia.
Qed.

(** X3.  When the generated boundaries are values of [T], the constructor
    writes the diagnostic of [verify] to [std::cerr] exactly when adjacent
    buckets of the histogram it returns do not meet; without the
    diagnostic the histogram passes [verify]. *)
Theorem Histogram_new_diagnostic (G : Generator) (g : G_state G) (n : nat)
    (bs : list HistogramBin) (h : Histogram) (d : string) :
  generate G n g = Ret bs → typed bs →
  Histogram_new G g n = Ret (h, d) →
  covers (bins h) ∧
  (d = EmptyString ↔ contiguous (bins h)) ∧
  (d = EmptyString ↔ fst (verify (bins h)) = true).
Proof.
  intros Hg Ht Hnew.
  assert (0 < n)%nat as Hn.
  { destruct n; [|lia]. exfalso. unfold Histogram_new, fill in Hnew.
    rewrite Hg in Hnew. simpl in Hg. by simplify_eq. }
  destruct (fill_returns G g n bs Hg Hn) as (front & back & Hf & Hl & Hfill).
  unfold Histogram_new in Hnew. rewrite Hfill in Hnew. simplify_eq.
  cbn [bins].
  destruct (verify_padded bs front back Hf Hl Ht) as [Hs Hp].
  split; [by apply padded_covers|]. split; [done|].
  by rewrite Hp.
Qed.
End validation.

Lemma Histogram_new_diagnostic_witness :
  covers (bins sample_histogram) ∧
  (EmptyString = EmptyString ↔ contiguous (bins sample_histogram)) ∧
  (EmptyString = EmptyString ↔ fst (verify (bins sample_histogram)) = true).
Proof.
  apply (Histogram_new_diagnostic FixedInputGenerator
           (FixedInputGenerator_new [0; 5; 15]) 2
           [new_HistogramBin 0 5; new_HistogramBin 5 15]
           sample_histogram EmptyString).
  - reflexivity.
  - repeat constructor; simpl; unfold uint64_max; lia.
  - reflexivity.
Defined.

(** ** Lookup and counters *)

Section lookup_counters.
Context `{NumericLimits}.

Lemma containing_unique bs v i j bi bj :
  sorted_by_start bs → contiguous bs →
  bs !! i = Some bi → bs !! j = Some bj →
  _start bi <= v < _end bi → _start bj <= v < _end bj → i = j.
Proof.
  intros Hs Hc Hi Hj Hvi Hvj.
  destruct (lt_eq_lt_dec i j) as [[Hlt|Heq]|Hgt]; [|done|]; exfalso.
  - destruct (lookup_lt_is_Some_2 bs (S i)) as [bi' Hbi'].
    { apply lookup_lt_Some in Hj. lia. }
    pose proof (Hc i bi bi' Hi Hbi').
    pose proof (sorted_by_start_le bs (S i) j bi' bj Hs ltac:(lia) Hbi' Hj).
    lia.
  - destruct (lookup_lt_is_Some_2 bs (S j)) as [bj' Hbj'].
    { apply lookup_lt_Some in Hi. lia. }
    pose proof (Hc j bj bj' Hj Hbj').
    pose proof (sorted_by_start_le bs (S j) i bj' bi Hs ltac:(lia) Hbj' Hi).
    lia.
Qed.

Lemma findBin_contains h v i :
  invariant h → in_range v → v ≠ Tmax →
  findBin h v = Ret (Some i) ↔
  ∃ b, bins h !! i = Some b ∧ _start b <= v < _end b.
Proof.
  intros (Hs & Hc & Hcov) Hv Hne.
  destruct (findBin_covered h v Hc Hcov Hv) as (i0 & b0 & Hf & Hb0 & Hin & _).
  specialize (Hin Hne). rewrite Hf. split.
  - intros [= <-]. eauto.
  - intros (b & Hb & Hvb).
    by rewrite (containing_unique (bins h) v i i0 b b0).
Qed.

(** X4.  In a histogram that meets the invariants, [findBin] and [getBin]
    return for a representable value below the maximum of [T] the bucket
    whose interval holds the value, and no other; for the maximum they
    return the last bucket. *)
Theorem findBin_is_containing_bucket (h : Histogram) (v : Z) (i : nat) :
  invariant h → in_range v →
  (v ≠ Tmax →
     (getBin h v = Ret (Some i) ↔
      ∃ b, bins h !! i = Some b ∧ _start b <= v < _end b)) ∧
  (v = Tmax → (getBin h v = Ret (Some i) ↔ S i = length (bins h))).
Proof.
  intros Hinv Hv. unfold getBin. split.
  - intros Hne. by apply findBin_contains.
  - intros ->. destruct Hinv as (_ & _ & (b0 & Hhead & _) & _).
    unfold findBin. destruct (decide (Tmax = Tmax)); [|done].
    destruct (bins h) as [|b1 rest]; [done|]. simpl.
    split; [intros [= <-]; lia|intros [= ->]; do 2 f_equal; lia].
Qed.

Lemma findBin_not_throw h v e : findBin h v = Throw e → False.
Proof.
  unfold findBin. destruct (decide (v = Tmax)).
  - by destruct (bins h).
  - destruct (bins h !! upper_bound (bins h) v) as [b|]; [|done].
    by destruct (negb (accepts b v)).
Qed.

Lemma incr_incr c1 c2 b : incr c2 (incr c1 b) = incr c1 (incr c2 b).
Proof.
  unfold incr. cbn [_count _start _end]. f_equal.
  rewrite !to_size_t_add_l. f_equal. lia.
Qed.

(** X5.  A call of [add] that returns has raised the counter of the bucket
    [findBin] names by the count, modulo [2^64], and has left every other
    counter and every boundary as it was; so the sum of the counters grows
    by exactly the count as long as that counter does not wrap. *)
Theorem add_effect (h h' : Histogram) (v count : Z) :
  add h v count = Ret h' →
  ∃ i b,
    findBin h v = Ret (Some i) ∧ bins h !! i = Some b ∧
    bins h' !! i = Some (incr count b) ∧
    _count (incr count b) = (_count b + count) mod 2 ^ 64 ∧
    (∀ j, j ≠ i → bins h' !! j = bins h !! j) ∧
    same_bounds (bins h) (bins h') ∧
    (0 <= _count b + count < 2 ^ 64 →
     sum_counts (bins h') = sum_counts (bins h) + count).
Proof.
  unfold add. intros Ha.
  destruct (findBin h v) as [[i|]| |] eqn:Hf; simpl in Ha; try done.
  simplify_eq. cbn [bins].
  assert (is_Some (bins h !! i)) as [b Hb].
  { revert Hf. unfold findBin. destruct (decide (v = Tmax)).
    - destruct (bins h) as [|b0 rest] eqn:Eb; [done|]. intros [= <-].
      apply lookup_lt_is_Some. simpl. lia.
    - destruct (bins h !! upper_bound (bins h) v) as [b|] eqn:Eu; [|done].
      destruct (negb (accepts b v)); [done|]. intros [= <-]. eauto. }
  exists i, b. split; [done|]. split; [done|].
  split; [by rewrite list_lookup_alter_eq, Hb|]. split; [done|].
  split; [intros j Hj; by apply list_lookup_alter_ne|].
  split; [apply same_bounds_incr|].
  intros Hr. rewrite (sum_counts_alter _ _ _ _ Hb). simpl.
  unfold to_size_t. rewrite Z.mod_small; lia.
Qed.

(** X6.  Two calls of [add] give the same histogram in either order, also
    when they fall into the same bucket, and go wrong in either order if
    they do in one. *)
Theorem add_commute (h : Histogram) (v1 c1 v2 c2 : Z) :
  (h1 ← add h v1 c1; add h1 v2 c2) = (h2 ← add h v2 c2; add h2 v1 c1).
Proof.
  assert (∀ v c i w,
    findBin h v = Ret (Some i) →
    findBin {| bins := alter (incr c) i (bins h) |} w = findBin h w) as Hsame.
  { intros v c i w _. symmetry. apply findBin_bounds. simpl.
    apply same_bounds_incr. }
  unfold add.
  destruct (findBin h v1) as [[i1|]|e1|] eqn:H1;
    destruct (findBin h v2) as [[i2|]|e2|] eqn:H2;
    cbn [mbind outcome_bind];
    try (exfalso; by eapply findBin_not_throw);
    rewrite ?(Hsame v1 c1 i1 v2 H1), ?(Hsame v2 c2 i2 v1 H2), ?H1, ?H2;
    cbn [mbind outcome_bind bins]; try done.
  do 2 f_equal. destruct (decide (i1 = i2)) as [->|Hne].
  - rewrite !list_alter_alter_eq. apply list_alter_ext; [|done].
    intros b _. unfold compose. apply incr_incr.
  - by rewrite list_alter_alter_ne.
Qed.

Lemma sum_counts_set0 bs : sum_counts (set 0 <$> bs) = 0.
Proof.
  unfold sum_counts. induction bs as [|b rest IH]; [done|].
  rewrite fmap_cons. cbn [foldr]. rewrite IH. simpl. lia.
Qed.

(** X7.  [reset] sets every counter to zero and changes nothing else: the
    boundaries stay, lookups answer as before, [total()] right after it is
    zero, and a second [reset] changes nothing. *)
Theorem reset_spec (h : Histogram) :
  (∀ b, b ∈ bins (reset h) → _count b = 0) ∧
  same_bounds (bins h) (bins (reset h)) ∧
  length (bins (reset h)) = length (bins h) ∧
  (∀ v, findBin (reset h) v = findBin h v) ∧
  total (reset h) = 0 ∧
  reset (reset h) = reset h.
Proof.
  unfold reset. cbn [bins]. split; [|split; [|split; [|split; [|split]]]].
  - intros b Hb. apply list_elem_of_fmap in Hb as (b0 & -> & _). done.
  - apply same_bounds_set.
  - apply length_fmap.
  - intros v. symmetry. apply findBin_bounds. apply same_bounds_set.
  - rewrite total_sum. cbn [bins]. by rewrite sum_counts_set0.
  - f_equal. rewrite <- list_fmap_compose. by apply list_fmap_ext.
Qed.

(** X8.  [total()] is the sum of the counters reduced to a 32-bit [int]
    and widened to [size_t]; it is the sum itself whenever the histogram
    holds fewer than [2^31] samples. *)
Theorem total_spec (h : Histogram) :
  total h = to_size_t (to_int (sum_counts (bins h))) ∧
  (0 <= sum_counts (bins h) < 2 ^ 31 → total h = sum_counts (bins h)) ∧
  (2 ^ 31 <= sum_counts (bins h) < 2 ^ 32 →
   total h = sum_counts (bins h) + (2 ^ 64 - 2 ^ 32)).
Proof.
  split; [apply total_sum|]. split; [apply total_small|].
  intros Hs. rewrite total_sum. unfold to_int, to_size_t.
  Z.div_mod_to_equations. lia.
Qed.

(** X9.  On a histogram that is contiguous and spans the domain, with
    fewer than [2^31] samples after them, [N] calls of [add(v, 1)] in a
    row raise the counter of the bucket of [v] and [total()] by exactly
    [N] and leave the other counters alone. *)
Theorem sequential_adds (N : nat) (h : Histogram) (v : Z) :
  contiguous (bins h) → covers (bins h) → in_range v →
  Forall (fun b => 0 <= _count b) (bins h) →
  sum_counts (bins h) + Z.of_nat N < 2 ^ 31 →
  ∃ i b h' b',
    getBin h v = Ret (Some i) ∧ bins h !! i = Some b ∧
    add_times N h v = Ret h' ∧ bins h' !! i = Some b' ∧
    _count b' = _count b + Z.of_nat N ∧
    (∀ j, j ≠ i → bins h' !! j = bins h !! j) ∧
    total h' = total h + Z.of_nat N.
Proof.
  intros Hc Hcov Hv Hpos Hsum.
  destruct (add_times_small N h v Hc Hcov Hv Hpos Hsum)
    as (i & b & h' & b' & Hf & Hb & Ha & Hb' & Hcnt & Htot).
  exists i, b, h', b'. repeat (split; [done|]). split; [|done].
  intros j Hj. rewrite (add_times_found N h v i Hf) in Ha. simplify_eq.
  by apply list_lookup_alter_ne.
Qed.

(** X10.  No sequence of [add] and [reset] calls changes the number of
    buckets, a boundary, or the bucket a lookup returns. *)
Theorem ops_keep_buckets (ops : list op) (h h' : Histogram) :
  run_ops ops h = Ret h' →
  length (bins h') = length (bins h) ∧
  same_bounds (bins h) (bins h') ∧
  (∀ v, getBin h' v = getBin h v) ∧
  (fst (verify (bins h')) = fst (verify (bins h))).
Proof.
  intros Hr. apply run_ops_bounds in Hr.
  split; [symmetry; by apply same_bounds_length|]. split; [done|].
  split; [intros v; symmetry; by apply findBin_bounds|].
  destruct (fst (verify (bins h))) eqn:Ev.
  - apply verify_iff in Ev as [Hc Hcov]. apply verify_iff.
    split; [by eapply contiguous_bounds|by eapply covers_bounds].
  - destruct (fst (verify (bins h'))) eqn:Ev'; [|done].
    apply verify_iff in Ev' as [Hc Hcov].
    assert (fst (verify (bins h)) = true); [|congruence].
    apply verify_iff.
    split; [by eapply contiguous_bounds|by eapply covers_bounds].
Qed.
End lookup_counters.

Lemma findBin_is_containing_bucket_witness :
  (7 ≠ Tmax →
     (getBin sample_histogram 7 = Ret (Some 1%nat) ↔
      ∃ b, bins sample_histogram !! 1%nat = Some b ∧ _start b <= 7 < _end b)) ∧
  (7 = Tmax →
     (getBin sample_histogram 7 = Ret (Some 1%nat) ↔
      2%nat = length (bins sample_histogram))).
Proof.
  apply (findBin_is_containing_bucket sample_histogram 7 1).
  - exact sample_invariant.
  - unfold in_range; simpl; unfold uint64_max; lia.
Defined.

Lemma add_effect_witness :
  ∃ i b,
    findBin sample_histogram 7 = Ret (Some i) ∧
    bins sample_histogram !! i = Some b ∧
    bins {| bins := [new_HistogramBin 0 5; incr 3 (new_HistogramBin 5 15);
                     new_HistogramBin 15 uint64_max] |} !! i
      = Some (incr 3 b) ∧
    _count (incr 3 b) = (_count b + 3) mod 2 ^ 64 ∧
    (∀ j, j ≠ i →
       bins {| bins := [new_HistogramBin 0 5; incr 3 (new_HistogramBin 5 15);
                        new_HistogramBin 15 uint64_max] |} !! j
       = bins sample_histogram !! j) ∧
    same_bounds (bins sample_histogram)
      (bins {| bins := [new_HistogramBin 0 5; incr 3 (new_HistogramBin 5 15);
                        new_HistogramBin 15 uint64_max] |}) ∧
    (0 <= _count b + 3 < 2 ^ 64 →
     sum_counts
       (bins {| bins := [new_HistogramBin 0 5; incr 3 (new_HistogramBin 5 15);
                         new_HistogramBin 15 uint64_max] |})
     = sum_counts (bins sample_histogram) + 3).
Proof.
  apply (add_effect sample_histogram _ 7 3). reflexivity.
Defined.

Lemma sequential_adds_witness :
  ∃ i b h' b',
    getBin sample_histogram 7 = Ret (Some i) ∧
    bins sample_histogram !! i = Some b ∧
    add_times 4 sample_histogram 7 = Ret h' ∧ bins h' !! i = Some b' ∧
    _count b' = _count b + Z.of_nat 4 ∧
    (∀ j, j ≠ i → bins h' !! j = bins sample_histogram !! j) ∧
    total h' = total sample_histogram + Z.of_nat 4.
Proof.
  apply (sequential_adds 4 sample_histogram 7).
  - exact sample_contiguous.
  - exact sample_covers.
  - unfold in_range; simpl; unfold uint64_max; lia.
  - repeat constructor; simpl; lia.
  - vm_compute. reflexivity.
Defined.

Lemma ops_keep_buckets_witness :
  length (bins (reset sample_histogram)) = length (bins sample_histogram) ∧
  same_bounds (bins sample_histogram) (bins (reset sample_histogram)) ∧
  (∀ v, getBin (reset sample_histogram) v = getBin sample_histogram v) ∧
  (fst (verify (bins (reset sample_histogram)))
   = fst (verify (bins sample_histogram))).
Proof.
  apply (ops_keep_buckets [op_add 7 2; op_reset] sample_histogram).
  reflexivity.
Defined.

(** ** Histograms built from the generators of the header *)

Section fixed_input_histogram.
Context `{NumericLimits}.

Lemma generate_FixedInput (s : list Z) (n it : nat) :
  ((it + n < length s)%nat ∨ n = 0%nat →
   generate FixedInputGenerator n {| fi_input := s; fi_it := it |}
   = Ret (fixed_buckets s it n)) ∧
  ((0 < n)%nat → (length s <= it + n)%nat →
   ∃ what,
     generate FixedInputGenerator n {| fi_input := s; fi_it := it |}
     = Throw (overflow_error what)).
Proof.
  revert it. induction n as [|n IH]; intros it.
  - split; [done|lia].
  - cbn [generate fixed_buckets]. simpl G_call.
    unfold FixedInputGenerator_call. simpl fi_input. simpl fi_it.
    destruct (decide (length s <= it + 1)%nat) as [Hend|Hmore].
    + split; [lia|]. intros _ _. cbn [mbind outcome_bind]. eauto.
    + destruct (lookup_lt_is_Some_2 s it ltac:(lia)) as [a Ha].
      destruct (lookup_lt_is_Some_2 s (S it) ltac:(lia)) as [b Hb].
      rewrite Ha, Hb. cbn [mbind outcome_bind snd fst].
      destruct (IH (S it)) as [IHr IHt]. split.
      * intros Hn. rewrite IHr by lia. done.
      * intros _ Hn. destruct IHt as [what ->]; [lia|lia|].
        cbn [mbind outcome_bind]. eauto.
Qed.

Lemma fixed_buckets_lookup (s : list Z) (n it j : nat) :
  (it + n < length s)%nat → (j < n)%nat →
  ∃ a b, s !! (it + j)%nat = Some a ∧ s !! S (it + j) = Some b ∧
         fixed_buckets s it n !! j = Some (new_HistogramBin a b).
Proof.
  revert it j. induction n as [|n IH]; intros it j Hn Hj; [lia|].
  cbn [fixed_buckets].
  destruct (lookup_lt_is_Some_2 s it ltac:(lia)) as [a Ha].
  destruct (lookup_lt_is_Some_2 s (S it) ltac:(lia)) as [b Hb].
  rewrite Ha, Hb. destruct j as [|j].
  - rewrite Nat.add_0_r. eauto.
  - destruct (IH (S it) j ltac:(lia) ltac:(lia)) as (a' & b' & Ha' & Hb' & Hl).
    replace (it + S j)%nat with (S it + j)%nat by lia. eauto.
Qed.

Lemma fixed_buckets_length (s : list Z) (n it : nat) :
  (it + n < length s)%nat → length (fixed_buckets s it n) = n.
Proof.
  revert it. induction n as [|n IH]; intros it Hn; [done|].
  cbn [fixed_buckets].
  destruct (lookup_lt_is_Some_2 s it ltac:(lia)) as [a ->].
  destruct (lookup_lt_is_Some_2 s (S it) ltac:(lia)) as [b ->].
  simpl. f_equal. apply IH. lia.
Qed.

Lemma fixed_buckets_wellformed (s : list Z) (n : nat) :
  (n < length s)%nat → Forall in_range s → ascending s →
  typed (fixed_buckets s 0 n) ∧ chain (fixed_buckets s 0 n).
Proof.
  intros Hn Hr Hasc.
  pose proof (fixed_buckets_length s n 0 ltac:(lia)) as Hlen.
  split; [|split].
  - apply Forall_lookup_2. intros j x Hx.
    pose proof (lookup_lt_Some _ _ _ Hx) as Hj. rewrite Hlen in Hj.
    destruct (fixed_buckets_lookup s n 0 j ltac:(lia) Hj)
      as (a & b & Ha & Hb & Hl).
    simplify_eq. simpl.
    split; [by eapply Forall_lookup_1 in Ha|by eapply Forall_lookup_1 in Hb].
  - apply Forall_lookup_2. intros j x Hx.
    pose proof (lookup_lt_Some _ _ _ Hx) as Hj. rewrite Hlen in Hj.
    destruct (fixed_buckets_lookup s n 0 j ltac:(lia) Hj)
      as (a & b & Ha & Hb & Hl).
    simplify_eq. simpl. by apply (Hasc j).
  - intros j x x' Hx Hx'.
    pose proof (lookup_lt_Some _ _ _ Hx') as Hj. rewrite Hlen in Hj.
    destruct (fixed_buckets_lookup s n 0 j ltac:(lia) ltac:(lia))
      as (a & b & Ha & Hb & Hl).
    destruct (fixed_buckets_lookup s n 0 (S j) ltac:(lia) Hj)
      as (a' & b' & Ha' & Hb' & Hl').
    simpl in Ha, Hb, Ha', Hb'. simplify_eq. simpl. congruence.
Qed.

(** X11.  A histogram built from a fixed-input generator over boundary
    values of [T] that never decrease, with fewer buckets requested than
    there are boundary values, meets all the invariants: [verify] passes
    and prints nothing, the buckets are sorted and contiguous and span the
    domain, and the [k]-th generated bucket is [s[k], s[k+1]). *)
Theorem FixedInput_histogram (s : list Z) (n : nat) :
  (0 < n < length s)%nat → Forall in_range s → ascending s →
  ∃ h,
    Histogram_new FixedInputGenerator (FixedInputGenerator_new s) n
      = Ret (h, EmptyString) ∧
    invariant h ∧ fst (verify (bins h)) = true ∧
    (∃ pre post, bins h = pre ++ fixed_buckets s 0 n ++ post ∧
                 (length pre <= 1)%nat ∧ (length post <= 1)%nat) ∧
    (∀ k, (k < n)%nat →
          ∃ a b, s !! k = Some a ∧ s !! S k = Some b ∧
                 fixed_buckets s 0 n !! k = Some (new_HistogramBin a b)).
Proof.
  intros [Hn0 Hn] Hr Hasc.
  destruct (generate_FixedInput s n 0) as [Hg _].
  specialize (Hg ltac:(lia)).
  destruct (fixed_buckets_wellformed s n Hn Hr Hasc) as [Ht Hch].
  destruct (fill_returns FixedInputGenerator (FixedInputGenerator_new s) n
              _ Hg Hn0) as (front & back & Hf & Hl & Hfill).
  pose proof (padded_chain _ front back Hf Hl Ht Hch) as Hch'.
  pose proof (padded_covers _ front back Hf Hl Ht) as Hcov.
  destruct (verify_padded _ front back Hf Hl Ht) as [Hs Hp].
  exists {| bins := padded (fixed_buckets s 0 n) front back |}.
  unfold Histogram_new. rewrite Hfill. cbn [bins].
  split; [|split; [|split; [|split]]].
  - do 2 f_equal. apply Hs. by destruct Hch'.
  - split; [by apply chain_sorted|]. split; [by destruct Hch'|done].
  - apply Hp. by destruct Hch'.
  - unfold padded. eexists _, _. split; [reflexivity|].
    destruct (decide (_start front > Tmin));
      destruct (decide (_end back < Tmax)); simpl; lia.
  - intros k Hk.
    destruct (fixed_buckets_lookup s n 0 k ltac:(lia) Hk)
      as (a & b & Ha & Hb & Hlk). eauto.
Qed.

(** X12.  A fixed-input generator over [m] boundary values cannot supply
    [m] or more buckets: the constructor of a histogram that requests them
    ends with the [std::overflow_error] of the generator, it does not
    return a histogram with fewer buckets. *)
Theorem FixedInput_exhausted (s : list Z) (n : nat) :
  (0 < n)%nat → (length s <= n)%nat →
  ∃ what,
    Histogram_new FixedInputGenerator (FixedInputGenerator_new s) n
    = Throw (overflow_error what).
Proof.
  intros Hn Hlen.
  destruct (generate_FixedInput s n 0) as [_ Ht].
  destruct Ht as [what Hw]; [done|lia|].
  exists what. unfold Histogram_new, fill, FixedInputGenerator_new.
  by rewrite Hw.
Qed.
End fixed_input_histogram.

Lemma FixedInput_histogram_witness :
  ∃ h,
    Histogram_new FixedInputGenerator (FixedInputGenerator_new [0; 5; 15]) 2
      = Ret (h, EmptyString) ∧
    invariant h ∧ fst (verify (bins h)) = true ∧
    (∃ pre post, bins h = pre ++ fixed_buckets [0; 5; 15] 0 2 ++ post ∧
                 (length pre <= 1)%nat ∧ (length post <= 1)%nat) ∧
    (∀ k, (k < 2)%nat →
          ∃ a b, [0; 5; 15] !! k = Some a ∧ [0; 5; 15] !! S k = Some b ∧
                 fixed_buckets [0; 5; 15] 0 2 !! k
                 = Some (new_HistogramBin a b)).
Proof.
  apply (FixedInput_histogram [0; 5; 15] 2).
  - simpl; lia.
  - repeat constructor; simpl; unfold uint64_max; lia.
  - intros i a b Ha Hb.
    destruct i as [|[|[|i]]]; simpl in *; simplify_eq; lia.
Defined.

Lemma FixedInput_exhausted_witness :
  ∃ what,
    Histogram_new FixedInputGenerator (FixedInputGenerator_new [0; 5; 15]) 3
    = Throw (overflow_error what).
Proof.
  apply (FixedInput_exhausted [0; 5; 15] 3); simpl; lia.
Defined.

Section generated_buckets.
Context `{NumericLimits}.

Lemma Tadd_in_range a b e : Tadd a b = Ret e → in_range e.
Proof.
  unfold Tadd, in_range. pose proof Tmin_lt_Tmax as Hlt.
  destruct (decide (Tmin = 0)) as [Hz|_].
  - intros [= <-]. rewrite Hz.
    assert (0 < Tmax + 1) as Hp by lia.
    pose proof (Z.mod_pos_bound (a + b) (Tmax + 1) Hp). lia.
  - destruct (decide (Tmin <= a + b <= Tmax)); [|done]. by intros [= <-].
Qed.

Lemma double2T_in_range f z : double2T f = Ret z → in_range z.
Proof.
  unfold double2T, in_range. destruct (trunc_double f) as [z'|]; [|done].
  destruct (decide (Tmin <= z' <= Tmax)); [|done]. by intros [= <-].
Qed.

Lemma padded_contiguous bs front back :
  head bs = Some front → last bs = Some back → contiguous bs →
  contiguous (padded bs front back).
Proof.
  intros Hf Hl Hc. unfold padded.
  apply contiguous_app; [|apply contiguous_app; [done| |]|].
  - destruct (decide (_start front > Tmin));
      [apply contiguous_singleton|apply contiguous_nil].
  - destruct (decide (_end back < Tmax));
      [apply contiguous_singleton|apply contiguous_nil].
  - intros l f Hl' Hf'. destruct (decide (_end back < Tmax)); [|done].
    simpl in Hf'. by simplify_eq.
  - intros l f Hl' Hf'. destruct (decide (_start front > Tmin)); [|done].
    simpl in Hl'. simplify_eq.
    destruct bs as [|b0 rest]; [done|]. simpl in *. by simplify_eq.
Qed.

Lemma joined_is_contiguous prev bs : joined prev bs → contiguous bs.
Proof.
  destruct bs as [|b rest]; [intros _; apply contiguous_nil|].
  intros Hj. by apply joined_contiguous in Hj as [_ ?].
Qed.

(** A histogram built from buckets that meet and whose boundaries are
    values of [T] passes [verify] without a diagnostic. *)
Lemma Histogram_new_contiguous G g n bs h d :
  generate G n g = Ret bs → typed bs → contiguous bs →
  Histogram_new G g n = Ret (h, d) →
  d = EmptyString ∧ fst (verify (bins h)) = true ∧
  contiguous (bins h) ∧ covers (bins h).
Proof.
  intros Hg Ht Hc Hnew.
  assert (0 < n)%nat as Hn.
  { destruct n; [|lia]. exfalso. unfold Histogram_new, fill in Hnew.
    rewrite Hg in Hnew. simpl in Hg. by simplify_eq. }
  destruct (fill_returns G g n bs Hg Hn) as (front & back & Hf & Hl & Hfill).
  unfold Histogram_new in Hnew. rewrite Hfill in Hnew. simplify_eq.
  cbn [bins].
  pose proof (padded_contiguous bs front back Hf Hl Hc) as Hpc.
  destruct (verify_padded bs front back Hf Hl Ht) as [Hs Hp].
  split; [by apply Hs|]. split; [by apply Hp|].
  split; [done|by apply padded_covers].
Qed.

Lemma generate_GrowingWidth n g bs :
  generate GrowingWidthGenerator n g = Ret bs →
  joined (gw_start g) bs ∧ (in_range (gw_start g) → typed bs).
Proof.
  revert g bs. induction n as [|n IH]; intros g bs.
  - simpl. intros [= <-]. split; [done|]. intros _. by apply Forall_nil.
  - cbn [generate]. simpl G_call. unfold GrowingWidthGenerator_call.
    destruct (double2T (gw_width g)) as [w| |]; cbn [mbind outcome_bind];
      try done.
    destruct (Tadd (gw_start g) w) as [e| |] eqn:Ea;
      cbn [mbind outcome_bind snd fst]; try done.
    destruct (generate GrowingWidthGenerator n _) as [rest| |] eqn:Er;
      cbn [mbind outcome_bind]; try done.
    intros [= <-]. destruct (IH _ _ Er) as [Hj Ht]. simpl in Hj, Ht.
    pose proof (Tadd_in_range _ _ _ Ea) as He.
    split; [done|]. intros Hs. apply Forall_cons. split; [done|]. by apply Ht.
Qed.

Lemma generate_GrowingWidth_not_throw n g e :
  generate GrowingWidthGenerator n g = Throw e → False.
Proof.
  revert g. induction n as [|n IH]; intros g; [done|].
  cbn [generate]. simpl G_call. unfold GrowingWidthGenerator_call.
  destruct (double2T (gw_width g)) as [w|?|] eqn:Ew;
    cbn [mbind outcome_bind]; try done;
    [|intros _; by eapply double2T_not_throw].
  destruct (Tadd (gw_start g) w) as [x|?|] eqn:Ea;
    cbn [mbind outcome_bind snd fst]; try done;
    [|intros _; by eapply Tadd_not_throw].
  destruct (generate GrowingWidthGenerator n _) as [rest|?|] eqn:Er;
    cbn [mbind outcome_bind]; try done.
  intros Heq. simplify_eq. by eapply IH.
Qed.

(** X13.  The buckets of a growing-width generator always meet, whatever
    the growth factor, and their boundaries are values of [T] when the
    start is; so a histogram built from one never throws, and when the
    constructor returns, [verify] has passed without a diagnostic and the
    histogram is contiguous and spans the domain. *)
Theorem GrowingWidth_histogram (g : GrowingWidthState) (n : nat) :
  in_range (gw_start g) →
  (∀ bs, generate GrowingWidthGenerator n g = Ret bs →
         contiguous bs ∧ typed bs ∧ joined (gw_start g) bs) ∧
  (∀ e, Histogram_new GrowingWidthGenerator g n ≠ Throw e) ∧
  (∀ h d, Histogram_new GrowingWidthGenerator g n = Ret (h, d) →
          d = EmptyString ∧ fst (verify (bins h)) = true ∧
          contiguous (bins h) ∧ covers (bins h)).
Proof.
  intros Hs. split; [|split].
  - intros bs Hg. destruct (generate_GrowingWidth n g bs Hg) as [Hj Ht].
    split; [by eapply joined_is_contiguous|]. split; [by apply Ht|done].
  - intros e He. unfold Histogram_new, fill in He.
    destruct (generate GrowingWidthGenerator n g) as [bs|e'|] eqn:Hg;
      cbn [mbind outcome_bind] in He; try done.
    + destruct (head bs); [|done].
      destruct (last _); [|done]. done.
    + by eapply generate_GrowingWidth_not_throw.
  - intros h d Hnew.
    destruct (generate GrowingWidthGenerator n g) as [bs|e'|] eqn:Hg.
    + destruct (generate_GrowingWidth n g bs Hg) as [Hj Ht].
      eapply Histogram_new_contiguous; [exact Hg|by apply Ht| |exact Hnew].
      by eapply joined_is_contiguous.
    + unfold Histogram_new, fill in Hnew. by rewrite Hg in Hnew.
    + unfold Histogram_new, fill in Hnew. by rewrite Hg in Hnew.
Qed.

Section exponential_buckets.
Variable pow : float -> float -> float.

Lemma generate_Exponential n g bs :
  generate (ExponentialGenerator pow) n g = Ret bs →
  typed bs ∧
  ∀ s0, double2T (pow (eg_power g) (Z2double (eg_start g))) = Ret s0 →
        joined s0 bs.
Proof.
  revert g bs. induction n as [|n IH]; intros g bs.
  - simpl. intros [= <-]. split; [by apply Forall_nil|done].
  - cbn [generate]. simpl G_call. unfold ExponentialGenerator_call.
    destruct (double2T (pow (eg_power g) (Z2double (eg_start g))))
      as [s| |] eqn:Es; cbn [mbind outcome_bind]; try done.
    destruct (double2T (pow (eg_power g)
                (Z2double (to_size_t (eg_start g + 1)))))
      as [e| |] eqn:Ee; cbn [mbind outcome_bind snd fst]; try done.
    destruct (generate (ExponentialGenerator pow) n _) as [rest| |] eqn:Er;
      cbn [mbind outcome_bind]; try done.
    intros [= <-]. destruct (IH _ _ Er) as [Ht Hj]. simpl in Hj.
    split.
    + apply Forall_cons. split; [|done]. simpl.
      split; by eapply double2T_in_range.
    + intros s0 [= <-]. split; [done|]. by apply Hj.
Qed.

Lemma generate_Exponential_not_throw n g e :
  generate (ExponentialGenerator pow) n g = Throw e → False.
Proof.
  revert g. induction n as [|n IH]; intros g; [done|].
  cbn [generate]. simpl G_call. unfold ExponentialGenerator_call.
  destruct (double2T (pow (eg_power g) (Z2double (eg_start g))))
    as [s|?|] eqn:Es; cbn [mbind outcome_bind]; try done;
    [|intros _; by eapply double2T_not_throw].
  destruct (double2T (pow (eg_power g)
              (Z2double (to_size_t (eg_start g + 1)))))
    as [x|?|] eqn:Ee; cbn [mbind outcome_bind snd fst]; try done;
    [|intros _; by eapply double2T_not_throw].
  destruct (generate (ExponentialGenerator pow) n _) as [rest|?|] eqn:Er;
    cbn [mbind outcome_bind]; try done.
  intros Heq. simplify_eq. by eapply IH.
Qed.

(** X14.  The buckets of an exponential generator always meet and have
    boundaries that are values of [T], whatever the base and whatever
    [std::pow] returns; so a histogram built from one never throws, and
    when the constructor returns, [verify] has passed without a diagnostic
    and the histogram is contiguous and spans the domain. *)
Theorem Exponential_histogram (g : ExponentialState) (n : nat) :
  (∀ bs, generate (ExponentialGenerator pow) n g = Ret bs →
         contiguous bs ∧ typed bs) ∧
  (∀ e, Histogram_new (ExponentialGenerator pow) g n ≠ Throw e) ∧
  (∀ h d, Histogram_new (ExponentialGenerator pow) g n = Ret (h, d) →
          d = EmptyString ∧ fst (verify (bins h)) = true ∧
          contiguous (bins h) ∧ covers (bins h)).
Proof.
  assert (∀ bs, generate (ExponentialGenerator pow) n g = Ret bs →
                contiguous bs ∧ typed bs) as Hgen.
  { intros bs Hg. destruct (generate_Exponential n g bs Hg) as [Ht Hj].
    split; [|done]. destruct n as [|n].
    - simpl in Hg. simplify_eq. apply contiguous_nil.
    - cbn [generate] in Hg. simpl G_call in Hg.
      unfold ExponentialGenerator_call in Hg.
      destruct (double2T (pow (eg_power g) (Z2double (eg_start g))))
        as [s| |] eqn:Es; cbn [mbind outcome_bind] in Hg; try done.
      eapply joined_is_contiguous. by apply Hj. }
  split; [done|]. split.
  - intros e He. unfold Histogram_new, fill in He.
    destruct (generate (ExponentialGenerator pow) n g) as [bs|e'|] eqn:Hg;
      cbn [mbind outcome_bind] in He; try done.
    + destruct (head bs); [|done].
      destruct (last _); [|done]. done.
    + by eapply generate_Exponential_not_throw.
  - intros h d Hnew.
    destruct (generate (ExponentialGenerator pow) n g) as [bs|e'|] eqn:Hg.
    + destruct (Hgen bs eq_refl) as [Hc Ht].
      by eapply Histogram_new_contiguous.
    + unfold Histogram_new, fill in Hnew. by rewrite Hg in Hnew.
    + unfold Histogram_new, fill in Hnew. by rewrite Hg in Hnew.
Qed.
End exponential_buckets.
End generated_buckets.

Lemma GrowingWidth_histogram_witness :
  ∃ h,
    Histogram_new (GrowingWidthGenerator (H := uint64_t))
      (GrowingWidthGenerator_new 0 10 2%float) 3 = Ret (h, EmptyString) ∧
    fst (verify (bins h)) = true ∧ contiguous (bins h) ∧ covers (bins h).
Proof.
  assert (in_range (H := uint64_t)
            (gw_start (GrowingWidthGenerator_new 0 10 2%float))) as Hr.
  { unfold in_range; simpl; unfold uint64_max; lia. }
  destruct (GrowingWidth_histogram (H := uint64_t)
              (GrowingWidthGenerator_new 0 10 2%float) 3 Hr)
    as (_ & _ & Hret).
  eexists. split; [reflexivity|].
  eapply (proj2 (Hret _ EmptyString _)).
  Unshelve. reflexivity.
Defined.

(** ** The default histogram *)

(** The bucket [2^i, 2^(i+1)). *)
Lemma default_bins_lookup (n k : nat) :
  default_bins n !! 0%nat = Some (new_HistogramBin 0 1) ∧
  ((k < n)%nat →
   default_bins n !! S k
   = Some (new_HistogramBin (2 ^ Z.of_nat k) (2 ^ (Z.of_nat k + 1)))) ∧
  default_bins n !! S n = Some (new_HistogramBin (2 ^ Z.of_nat n) uint64_max) ∧
  length (default_bins n) = S (S n).
Proof.
  unfold default_bins. split; [done|]. split; [|split].
  - intros Hk. rewrite lookup_cons.
    rewrite lookup_app_l by (rewrite length_fmap, length_seq; lia).
    rewrite list_lookup_fmap, lookup_seq_lt by lia. done.
  - rewrite lookup_cons.
    rewrite lookup_app_r by (rewrite length_fmap, length_seq; lia).
    rewrite length_fmap, length_seq, Nat.sub_diag. done.
  - simpl. rewrite length_app, length_fmap, length_seq. simpl. lia.
Qed.

Lemma default_bins_padded (n : nat) :
  (1 <= n <= 63)%nat →
  let f := fun i => new_HistogramBin (2 ^ Z.of_nat i) (2 ^ (Z.of_nat i + 1)) in
  head (f <$> seq 0 n) = Some (f 0%nat) ∧
  last (f <$> seq 0 n) = Some (f (pred n)) ∧
  typed (H := uint64_t) (f <$> seq 0 n) ∧
  Forall (fun b => _start b <= _end b) (f <$> seq 0 n) ∧
  default_bins n = padded (H := uint64_t) (f <$> seq 0 n) (f 0%nat) (f (pred n)).
Proof.
  intros Hn f. destruct n as [|m]; [lia|].
  assert (∀ i, (i <= 63)%nat → 0 < 2 ^ Z.of_nat i <= 2 ^ 63) as Hpow.
  { intros i Hi. split; [apply Z.pow_pos_nonneg; lia|].
    apply Z.pow_le_mono_r; lia. }
  split; [done|]. split; [|split; [|split]].
  - rewrite seq_S, fmap_app. simpl. by rewrite last_snoc.
  - apply Forall_fmap, Forall_forall. intros i Hi.
    apply elem_of_seq in Hi. unfold in_range. simpl. unfold uint64_max.
    pose proof (Hpow i ltac:(lia)).
    replace (Z.of_nat i + 1) with (Z.of_nat (S i)) by lia.
    pose proof (Hpow (S i) ltac:(lia)). lia.
  - apply Forall_fmap, Forall_forall. intros i Hi. simpl.
    apply Z.pow_le_mono_r; lia.
  - unfold default_bins, padded. cbn [pred _start _end f new_HistogramBin].
    pose proof (Hpow 0%nat ltac:(lia)) as H0.
    destruct (decide (2 ^ Z.of_nat 0 > Tmin)) as [_|Hn0];
      [|simpl in Hn0; lia].
    replace (Z.of_nat m + 1) with (Z.of_nat (S m)) by lia.
    pose proof (Hpow (S m) ltac:(lia)) as Hm.
    destruct (decide (2 ^ Z.of_nat (S m) < Tmax)) as [_|Hnm].
    + reflexivity.
    + exfalso. apply Hnm. simpl. unfold uint64_max. lia.
Qed.

Lemma default_bins_invariant (n : nat) :
  (1 <= n <= 63)%nat →
  invariant (H := uint64_t) {| bins := default_bins n |} ∧
  verify (H := uint64_t) (default_bins n) = (true, EmptyString).
Proof.
  intros Hn.
  destruct (default_bins_padded n Hn) as (Hf & Hl & Ht & Hle & ->).
  assert (contiguous
            ((fun i => new_HistogramBin (2 ^ Z.of_nat i)
                         (2 ^ (Z.of_nat i + 1))) <$> seq 0 n)) as Hc.
  { intros i b b' Hb Hb'.
    rewrite list_lookup_fmap in Hb, Hb'.
    destruct (seq 0 n !! i) as [x|] eqn:Ex; [|done].
    destruct (seq 0 n !! S i) as [x'|] eqn:Ex'; [|done].
    apply lookup_seq in Ex as [-> _]. apply lookup_seq in Ex' as [-> _].
    simpl in *. simplify_eq. simpl. f_equal. lia. }
  pose proof (padded_chain (H := uint64_t) _ _ _ Hf Hl Ht (conj Hle Hc))
    as Hch.
  pose proof (padded_covers (H := uint64_t) _ _ _ Hf Hl Ht) as Hcov.
  split.
  - split; [by apply chain_sorted|]. split; [by destruct Hch|done].
  - apply verify_passes_iff_aux; [by destruct Hch|done].
Qed.

Section default_histogram.
Variable pow : float -> float -> float.

(** [std::pow] is exact on the powers of two up to [2^64]. *)
Hypothesis pow_two64 :
  ∀ n, 0 <= n <= 64 → pow 2%float (Z2double n) = Z2double (2 ^ n).

Lemma pow_two63 n :
  0 <= n <= 63 → pow 2%float (Z2double n) = Z2double (2 ^ n).
Proof. intros Hn. apply pow_two64. lia. Qed.

Lemma generate_default (n i : nat) :
  (i + n <= 63)%nat →
  generate (ExponentialGenerator (H := uint64_t) pow) n
    {| eg_start := Z.of_nat i; eg_power := 2%float |}
  = Ret ((fun j => new_HistogramBin (2 ^ Z.of_nat j) (2 ^ (Z.of_nat j + 1)))
           <$> seq i n).
Proof.
  revert i. induction n as [|n IH]; intros i Hi; [done|].
  cbn [generate]. simpl G_call.
  rewrite (ExponentialGenerator_call_two pow pow_two63) by lia.
  cbn [mbind outcome_bind fst snd].
  replace (Z.of_nat i + 1) with (Z.of_nat (S i)) by lia.
  rewrite IH by lia. cbn [mbind outcome_bind]. simpl seq.
  rewrite fmap_cons. do 3 f_equal. lia.
Qed.

Lemma generate_default_undefined (n i : nat) :
  (i <= 63)%nat → (64 <= i + n)%nat →
  generate (ExponentialGenerator (H := uint64_t) pow) n
    {| eg_start := Z.of_nat i; eg_power := 2%float |}
  = Undefined.
Proof.
  revert i. induction n as [|n IH]; intros i Hi Hn; [lia|].
  cbn [generate]. simpl G_call.
  destruct (decide (i = 63)%nat) as [->|Hne].
  - unfold ExponentialGenerator_call. cbn [eg_start eg_power].
    change (to_size_t (Z.of_nat 63 + 1)) with 64.
    change (Z.of_nat 63) with 63.
    rewrite !pow_two64 by lia.
    rewrite (double2T_power_of_two 63) by lia.
    cbn [mbind outcome_bind]. reflexivity.
  - rewrite (ExponentialGenerator_call_two pow pow_two63) by lia.
    cbn [mbind outcome_bind fst snd].
    replace (Z.of_nat i + 1) with (Z.of_nat (S i)) by lia.
    rewrite IH by lia. done.
Qed.

(** X15.  Where [std::pow] is exact on powers of two, the default
    histogram of [n] buckets exists for [1 <= n <= 63]: it holds [0,1),
    then [2^i, 2^(i+1)) for [i < n], then [2^n, max), passes [verify]
    without a diagnostic and meets the invariants.  For [n = 0] and for
    [n >= 64] its construction is undefined: with 64 buckets the end
    [2^64] of the last one is no [uint64_t]. *)
Theorem Histogram_default_spec (n : nat) :
  ((1 <= n <= 63)%nat →
   Histogram_default (H := uint64_t) pow n
     = Ret ({| bins := default_bins n |}, EmptyString) ∧
   invariant (H := uint64_t) {| bins := default_bins n |} ∧
   length (default_bins n) = (n + 2)%nat) ∧
  (n = 0%nat ∨ (64 <= n)%nat →
   Histogram_default (H := uint64_t) pow n = Undefined).
Proof.
  unfold Histogram_default.
  change (ExponentialGenerator_new 0 2%float)
    with {| eg_start := Z.of_nat 0; eg_power := 2%float |}.
  split.
  - intros Hn.
    destruct (default_bins_padded n Hn) as (Hf & Hl & _ & _ & Heq).
    destruct (default_bins_invariant n Hn) as [Hinv Hv].
    rewrite (fill_padded (H := uint64_t) _ _ _ _ _ _
               (generate_default n 0 ltac:(lia)) Hf Hl).
    rewrite <- Heq, Hv. split; [done|]. split; [done|].
    destruct (default_bins_lookup n 0) as (_ & _ & _ & ->). lia.
  - intros [->|Hn]; [reflexivity|].
    unfold fill. by rewrite generate_default_undefined by lia.
Qed.
End default_histogram.

Lemma Histogram_default_spec_witness :
  ((1 <= 30 <= 63)%nat →
   Histogram_default (H := uint64_t) pow_integral 30
     = Ret ({| bins := default_bins 30 |}, EmptyString) ∧
   invariant (H := uint64_t) {| bins := default_bins 30 |} ∧
   length (default_bins 30) = (30 + 2)%nat) ∧
  (30%nat = 0%nat ∨ (64 <= 30)%nat →
   Histogram_default (H := uint64_t) pow_integral 30 = Undefined).
Proof.
  apply (Histogram_default_spec pow_integral pow_integral_two64 30).
Defined.

(** X16.  In the default histogram of [n] buckets a value goes by its
    binary logarithm: 0 is served by the first bucket, a value [v] with
    [1 <= v < 2^n] by bucket [1 + log2 v], and every value from [2^n] up to
    the maximum by the last bucket. *)
Theorem default_histogram_lookup (n : nat) :
  (1 <= n <= 63)%nat →
  getBin (H := uint64_t) {| bins := default_bins n |} 0 = Ret (Some 0%nat) ∧
  (∀ v, 1 <= v < 2 ^ Z.of_nat n →
        getBin (H := uint64_t) {| bins := default_bins n |} v
        = Ret (Some (S (Z.to_nat (Z.log2 v))))) ∧
  (∀ v, 2 ^ Z.of_nat n <= v <= uint64_max →
        getBin (H := uint64_t) {| bins := default_bins n |} v
        = Ret (Some (S n))).
Proof.
  intros Hn. destruct (default_bins_invariant n Hn) as [Hinv _].
  assert (2 ^ Z.of_nat n <= 2 ^ 63) as Hpn by (apply Z.pow_le_mono_r; lia).
  assert (0 < 2 ^ Z.of_nat n) as Hpos by (apply Z.pow_pos_nonneg; lia).
  unfold getBin. split; [|split].
  - apply (findBin_contains (H := uint64_t)); [done| | |].
    + unfold in_range. simpl. unfold uint64_max. lia.
    + simpl. unfold uint64_max. lia.
    + eexists. split; [apply (default_bins_lookup n 0)|]. simpl. lia.
  - intros v Hv.
    pose proof (Z.log2_spec v ltac:(lia)) as Hlog.
    pose proof (Z.log2_nonneg v) as Hl0.
    assert (Z.log2 v < Z.of_nat n) as Hln by (apply Z.log2_lt_pow2; lia).
    apply (findBin_contains (H := uint64_t)); [done| | |].
    + unfold in_range. simpl. unfold uint64_max. lia.
    + simpl. unfold uint64_max. lia.
    + eexists. split.
      * apply (default_bins_lookup n (Z.to_nat (Z.log2 v))). lia.
      * simpl. rewrite Z2Nat.id by lia.
        replace (Z.log2 v + 1) with (Z.succ (Z.log2 v)) by lia. lia.
  - intros v Hv. destruct (decide (v = uint64_max)) as [->|Hne].
    + unfold findBin. simpl decide.
      destruct (decide (uint64_max = Tmax)) as [_|Hx]; [|done].
      destruct (default_bins_lookup n 0) as (_ & _ & _ & Hlen).
      destruct (default_bins n) as [|b0 rest]; [done|].
      do 2 f_equal. simpl in *. lia.
    + apply (findBin_contains (H := uint64_t)); [done| | |].
      * unfold in_range. simpl. unfold uint64_max in *. lia.
      * simpl. done.
      * eexists. split; [apply (default_bins_lookup n 0)|]. simpl. lia.
Qed.

Lemma default_histogram_lookup_witness :
  getBin (H := uint64_t) {| bins := default_bins 30 |} 0 = Ret (Some 0%nat) ∧
  (∀ v, 1 <= v < 2 ^ Z.of_nat 30 →
        getBin (H := uint64_t) {| bins := default_bins 30 |} v
        = Ret (Some (S (Z.to_nat (Z.log2 v))))) ∧
  (∀ v, 2 ^ Z.of_nat 30 <= v <= uint64_max →
        getBin (H := uint64_t) {| bins := default_bins 30 |} v
        = Ret (Some (S 30))).
Proof. apply (default_histogram_lookup 30). lia. Defined.

(** ** Printing *)

Lemma string_app_assoc (a b c : string) : (a +:+ b) +:+ c = a +:+ (b +:+ c).
Proof.
  induction a as [|x a IH]; [done|].
  change (String x ((a +:+ b) +:+ c) = String x (a +:+ (b +:+ c))).
  by f_equal.
Qed.

Section printing_spec.
Variable put_T : Z -> string.

Lemma print_HistogramBin_app (out : string) (b : HistogramBin) :
  print_HistogramBin put_T out b
  = out +:+ print_HistogramBin put_T EmptyString b.
Proof. reflexivity. Qed.

Lemma print_bins_loop_true (out : string) (bs : list HistogramBin) :
  print_bins_loop put_T true out bs =
  out +:+ match bs with
          | [] => EmptyString
          | _ => ", " +:+ join ", "
                            (print_HistogramBin put_T EmptyString <$> bs)
          end.
Proof.
  revert out. induction bs as [|x rest IH]; intros out.
  - simpl. by rewrite string_app_nil_r.
  - cbn [print_bins_loop]. rewrite IH, print_HistogramBin_app.
    rewrite fmap_cons. cbn [join]. destruct rest as [|y rest].
    + simpl. by rewrite string_app_nil_r, !string_app_assoc.
    + rewrite fmap_cons. by rewrite !string_app_assoc.
Qed.

(** X17.  Printing a vector of buckets writes each bucket once, in the
    order of the vector, with [", "] between two buckets and none in front
    or at the end; printing a histogram puts that between
    ["{Histogram: "] and ["}"].  A bucket is written as
    [[start, end) = count] with the boundaries as the stream writes a [T]
    and the counter in decimal: the bucket from 65 to 66 with no sample
    reads [[65, 66) = 0] for a type the stream writes as a number and
    [[A, B) = 0] for a type of eight bits, which it writes as a
    character. *)
Theorem print_bins_join (out : string) (h : Histogram) :
  print_bins put_T out (bins h)
    = out +:+ join ", " (print_HistogramBin put_T EmptyString <$> bins h) ∧
  print_Histogram put_T out h
    = out +:+ "{Histogram: "
          +:+ join ", " (print_HistogramBin put_T EmptyString <$> bins h)
          +:+ "}" ∧
  (∀ b, print_HistogramBin put_T EmptyString b
        = "[" +:+ put_T (_start b) +:+ ", " +:+ put_T (_end b) +:+ ") = "
              +:+ pretty (_count b)) ∧
  print_HistogramBin put_integer EmptyString (new_HistogramBin 65 66)
    = "[65, 66) = 0" ∧
  print_HistogramBin put_character EmptyString (new_HistogramBin 65 66)
    = "[A, B) = 0" ∧
  print_Histogram put_integer EmptyString
    {| bins := [new_HistogramBin 0 5; new_HistogramBin 5 15] |}
    = "{Histogram: [0, 5) = 0, [5, 15) = 0}".
Proof.
  assert (∀ o bs,
            print_bins put_T o bs
            = o +:+ join ", " (print_HistogramBin put_T EmptyString <$> bs))
    as Hjoin.
  { intros o bs. unfold print_bins. destruct bs as [|x rest].
    - simpl. by rewrite string_app_nil_r.
    - cbn [print_bins_loop]. rewrite print_bins_loop_true.
      rewrite print_HistogramBin_app, fmap_cons. cbn [join].
      destruct rest as [|y rest].
      + simpl. by rewrite string_app_nil_r.
      + rewrite fmap_cons. by rewrite !string_app_assoc. }
  split; [apply Hjoin|]. split.
  { unfold print_Histogram. by rewrite Hjoin, !string_app_assoc. }
  split; [done|]. repeat split; vm_compute; reflexivity.
Qed.
End printing_spec.

(** ** Block timers on a shared histogram *)

Section timer_total.
Variable THRESHOLD_MS : Z.

(** X18.  Destroying a timer never goes wrong on a histogram of
    [hrtime_t] that is contiguous and spans the domain, whatever the two
    clock readings: a timer with a destination adds one to the counter of
    the bucket that serves the elapsed microseconds and changes no
    boundary, a timer without one leaves the histogram alone; and for
    clock readings in order the elapsed time is their plain difference. *)
Theorem GenericBlockTimer_delete_returns (t : GenericBlockTimer) (now : Z)
    (w : World) :
  contiguous (bins (w_histogram w)) →
  covers (H := uint64_t) (bins (w_histogram w)) →
  let e := hrtime_sub now (start t) in
  ∃ w',
    GenericBlockTimer_delete (H := uint64_t) THRESHOLD_MS t now w = Ret w' ∧
    same_bounds (bins (w_histogram w)) (bins (w_histogram w')) ∧
    (dest t = true →
     ∃ i, getBin (H := uint64_t) (w_histogram w) (e / 1000) = Ret (Some i) ∧
          bins (w_histogram w')
          = alter (incr 1) i (bins (w_histogram w))) ∧
    (dest t = false → w_histogram w' = w_histogram w) ∧
    (0 <= start t <= now → now < 2 ^ 64 → e = now - start t).
Proof.
  intros Hc Hcov e.
  assert (in_range (H := uint64_t) (e / 1000)) as Hr.
  { unfold in_range, e, hrtime_sub, to_size_t. simpl. unfold uint64_max.
    pose proof (Z.mod_pos_bound (now - start t) (2 ^ 64) ltac:(lia)).
    split; [apply Z.div_pos; lia|].
    assert ((now - start t) mod 2 ^ 64 / 1000
            <= (now - start t) mod 2 ^ 64); [|lia].
    apply Z.div_le_upper_bound; lia. }
  assert (e = now - start t ∨ True) as _ by (by right).
  unfold GenericBlockTimer_delete. fold e.
  destruct (dest t) eqn:Hd.
  - destruct (findBin_covered (H := uint64_t) (w_histogram w) (e / 1000)
                Hc Hcov Hr) as (i & b & Hf & Hb & _).
    unfold add. rewrite Hf. cbn [mbind outcome_bind].
    eexists. split; [reflexivity|].
    rewrite log_histogram. cbn [w_histogram bins].
    split; [apply same_bounds_incr|]. split; [eauto|]. split; [done|].
    intros Hs Hn. unfold e, hrtime_sub, to_size_t.
    rewrite Z.mod_small; lia.
  - cbn [mbind outcome_bind]. eexists. split; [reflexivity|].
    rewrite log_histogram. cbn [w_histogram].
    split; [done|]. split; [done|]. split; [done|].
    intros Hs Hn. unfold e, hrtime_sub, to_size_t.
    rewrite Z.mod_small; lia.
Qed.
End timer_total.

Lemma GenericBlockTimer_delete_returns_witness :
  let w := {| w_histogram := sample_histogram; w_out := EmptyString;
              w_cerr := EmptyString |} in
  let t := GenericBlockTimer_new true None false 100 in
  let e := hrtime_sub 7100 (start t) in
  ∃ w',
    GenericBlockTimer_delete (H := uint64_t) 10 t 7100 w = Ret w' ∧
    same_bounds (bins (w_histogram w)) (bins (w_histogram w')) ∧
    (dest t = true →
     ∃ i, getBin (H := uint64_t) (w_histogram w) (e / 1000) = Ret (Some i) ∧
          bins (w_histogram w')
          = alter (incr 1) i (bins (w_histogram w))) ∧
    (dest t = false → w_histogram w' = w_histogram w) ∧
    (0 <= start t <= 7100 → 7100 < 2 ^ 64 → e = 7100 - start t).
Proof.
  apply (GenericBlockTimer_delete_returns 10
           (GenericBlockTimer_new true None false 100) 7100
           {| w_histogram := sample_histogram; w_out := EmptyString;
              w_cerr := EmptyString |}).
  - exact sample_contiguous.
  - exact sample_covers.
Defined.

(** X19.  A [BlockTimer], whose threshold is 10 ms, that has a name writes
    the slow-block warning to [std::cerr] exactly for blocks of 11 ms and
    more (the milliseconds are cut, not rounded); one without a name
    writes nothing at all, neither to [std::cerr] nor to its output
    stream. *)
Theorem BlockTimer_warns_from_11ms (t : GenericBlockTimer) (now : Z)
    (w w' : World) :
  BlockTimer_delete t now w = Ret w' →
  let e := hrtime_sub now (start t) in
  (∀ n, name t = Some n → 11000000 <= e →
        w_cerr w' = w_cerr w +:+ slow_warning n (e / 1000000)) ∧
  (e < 11000000 → w_cerr w' = w_cerr w) ∧
  (name t = None → w_cerr w' = w_cerr w ∧ w_out w' = w_out w).
Proof.
  intros Hd e. unfold BlockTimer_delete, GenericBlockTimer_delete in Hd.
  fold e in Hd.
  destruct (if dest t then _ else _) as [h| |]; cbn [mbind outcome_bind] in Hd;
    try done.
  simplify_eq.
  rewrite log_cerr, log_out. cbn [w_cerr w_out].
  assert (e / 1000000 > 10 ↔ 11000000 <= e) as Hms.
  { split; intros Hx.
    - apply Z.gt_lt in Hx.
      destruct (Z.le_gt_cases 11000000 e) as [|Hlt]; [done|].
      assert (e / 1000000 <= 10); [|lia].
      apply Z.lt_succ_r. apply Z.div_lt_upper_bound; lia.
    - apply Z.lt_gt. apply Z.lt_le_trans with (11000000 / 1000000);
        [reflexivity|]. apply Z.div_le_mono; lia. }
  split; [|split].
  - intros n Hn He. rewrite Hn.
    destruct (decide (10 > 0 ∧ e / 1000000 > 10)) as [_|Hx]; [done|].
    exfalso. apply Hx. split; [lia|]. by apply Hms.
  - intros He. destruct (name t) as [n|]; [|by rewrite string_app_nil_r].
    destruct (decide (10 > 0 ∧ e / 1000000 > 10)) as [[_ Hx]|_];
      [|by rewrite string_app_nil_r].
    apply Hms in Hx. lia.
  - intros Hn. rewrite Hn. destruct (out t); by rewrite !string_app_nil_r.
Qed.

Lemma BlockTimer_warns_from_11ms_witness :
  let t := GenericBlockTimer_new true (Some "op") true 100 in
  let w := {| w_histogram := sample_histogram; w_out := EmptyString;
              w_cerr := EmptyString |} in
  let w' := {| w_histogram :=
                 {| bins := [new_HistogramBin 0 5; new_HistogramBin 5 15;
                             incr 1 (new_HistogramBin 15 uint64_max)] |};
               w_out := "op" +:+ tab +:+ "25000000" +:+ endl;
               w_cerr := "BlockTimer<op> Took too long: 25ms" +:+ endl |} in
  let e := hrtime_sub 25000100 (start t) in
  (∀ n, name t = Some n → 11000000 <= e →
        w_cerr w' = w_cerr w +:+ slow_warning n (e / 1000000)) ∧
  (e < 11000000 → w_cerr w' = w_cerr w) ∧
  (name t = None → w_cerr w' = w_cerr w ∧ w_out w' = w_out w).
Proof.
  apply (BlockTimer_warns_from_11ms
           (GenericBlockTimer_new true (Some "op") true 100) 25000100
           {| w_histogram := sample_histogram; w_out := EmptyString;
              w_cerr := EmptyString |}).
  vm_compute. reflexivity.
Defined.

(** ** Backtraces *)

Section backtrace_messages.
Context {ctx : Type}.
Variable describe_address : Z -> string.
Variable write_cb : ctx -> string -> outcome ctx.

Lemma emit_app (l1 l2 : list string) (c : ctx) :
  emit write_cb (l1 ++ l2) c = (c' ← emit write_cb l1 c; emit write_cb l2 c').
Proof.
  revert c. induction l1 as [|m l1 IH]; intros c; [done|].
  simpl. destruct (write_cb c m) as [c1| |]; cbn [mbind outcome_bind]; [|done..].
  apply IH.
Qed.

Lemma print_backtrace_loop_emit (frames : list Z) (fuel ii : nat) (c : ctx) :
  (length frames <= fuel + ii)%nat →
  print_backtrace_loop describe_address write_cb frames (length frames)
    fuel ii c
  = emit write_cb (describe_address <$> drop ii frames) c.
Proof.
  revert ii c. induction fuel as [|fuel IH]; intros ii c Hf.
  - rewrite drop_ge by lia. done.
  - cbn [print_backtrace_loop].
    destruct (decide (ii < length frames)%nat) as [Hlt|Hge].
    + destruct (lookup_lt_is_Some_2 frames ii Hlt) as [addr Ha].
      rewrite Ha, (drop_S _ _ _ Ha), fmap_cons. cbn [emit].
      destruct (write_cb c (describe_address addr)) as [c1| |];
        cbn [mbind outcome_bind]; [|done..].
      apply IH. lia.
    + rewrite drop_ge by lia. done.
Qed.

Lemma print_backtrace_is_emit (HAVE_BACKTRACE_SUPPORT : bool)
    (stack : list Z) (c : ctx) :
  print_backtrace HAVE_BACKTRACE_SUPPORT describe_address stack write_cb c
  = emit write_cb
      (backtrace_messages HAVE_BACKTRACE_SUPPORT describe_address stack) c.
Proof.
  unfold print_backtrace, backtrace_messages.
  destruct HAVE_BACKTRACE_SUPPORT; [|simpl].
  - rewrite print_backtrace_loop_emit by lia. rewrite emit_app.
    destruct (emit write_cb _ c) as [c1| |]; cbn [mbind outcome_bind];
      [|done..].
    rewrite length_take.
    destruct (decide (MAX_FRAMES `min` length stack = MAX_FRAMES)%nat);
      destruct (decide (MAX_FRAMES <= length stack)%nat); try lia.
    + simpl. by destruct (write_cb c1 _).
    + done.
  - by destruct (write_cb c _).
Qed.

(** X20.  [print_backtrace] hands to its callback, in order, the
    descriptions of the stored frames except the first (its own), and
    after them the truncation notice exactly when the stack has
    [MAX_FRAMES] frames or more: at most 50 calls in all.  Without
    backtrace support the callback gets one text saying so. *)
Theorem print_backtrace_emits (HAVE_BACKTRACE_SUPPORT : bool)
    (stack : list Z) (c : ctx) :
  print_backtrace HAVE_BACKTRACE_SUPPORT describe_address stack write_cb c
  = emit write_cb
      (backtrace_messages HAVE_BACKTRACE_SUPPORT describe_address stack) c ∧
  ((length stack < MAX_FRAMES)%nat →
   backtrace_messages true describe_address stack
   = describe_address <$> drop 1 stack) ∧
  ((MAX_FRAMES <= length stack)%nat →
   backtrace_messages true describe_address stack
   = (describe_address <$> take 49 (drop 1 stack))
       ++ ["<frame limit reached, possible truncation>"]) ∧
  (length (backtrace_messages true describe_address stack) <= MAX_FRAMES)%nat ∧
  backtrace_messages false describe_address stack
  = ["<backtrace not supported on this platform>"].
Proof.
  split; [|split; [|split; [|split]]].
  - apply print_backtrace_is_emit.
  - intros Hlt. unfold backtrace_messages.
    destruct (decide (MAX_FRAMES <= length stack)%nat); [lia|].
    rewrite app_nil_r, take_ge by lia. done.
  - intros Hge. unfold backtrace_messages.
    destruct (decide (MAX_FRAMES <= length stack)%nat); [|lia].
    do 2 f_equal. unfold MAX_FRAMES. by rewrite skipn_firstn_comm.
  - unfold backtrace_messages.
    rewrite length_app, length_fmap, length_drop, length_take.
    unfold MAX_FRAMES.
    destruct (decide (50 <= length stack)%nat); cbn [length]; lia.
  - done.
Qed.
End backtrace_messages.

Lemma emit_print_to_file_cb (msgs : list string) (stream : string) :
  emit print_to_file_cb msgs stream = Ret (stream +:+ file_text msgs).
Proof.
  revert stream. induction msgs as [|m rest IH]; intros stream.
  - simpl. by rewrite string_app_nil_r.
  - change (emit print_to_file_cb (m :: rest) stream)
      with (emit print_to_file_cb rest (stream +:+ tab +:+ m +:+ endl)).
    rewrite IH. f_equal.
    change (file_text (m :: rest))
      with (tab +:+ m +:+ endl +:+ file_text rest).
    by rewrite !string_app_assoc.
Qed.

(** X21.  [print_backtrace_to_file] appends to the stream one line per
    text that [print_backtrace] emits, each made of a tab, the text and a
    newline, and nothing else; it always returns. *)
Theorem print_backtrace_to_file_text (HAVE_BACKTRACE_SUPPORT : bool)
    (describe_address : Z -> string) (stack : list Z) (stream : string) :
  print_backtrace_to_file HAVE_BACKTRACE_SUPPORT describe_address stack stream
  = Ret (stream +:+
         file_text (backtrace_messages HAVE_BACKTRACE_SUPPORT
                      describe_address stack)) ∧
  (∀ m rest, file_text (m :: rest) = tab +:+ m +:+ endl +:+ file_text rest) ∧
  file_text [] = EmptyString.
Proof.
  split; [|done]. unfold print_backtrace_to_file.
  rewrite print_backtrace_is_emit. apply emit_print_to_file_cb.
Qed.

(** ** Backtraces into a buffer *)

(** A line that leaves two characters of the buffer free is stored whole,
    with its terminating zero, by either [snprintf]. *)
Lemma memory_cb_fits_step (WIN32 : bool) (c : context) (m : string)
    (o sz : nat) :
  let line := buffer_line (c_indent c) m in
  c_error c = false → c_offset c = Z.of_nat o → c_size c = Z.of_nat sz →
  (o + length line + 2 <= sz)%nat → (sz <= length (c_buffer c))%nat →
  Z.of_nat sz < 2 ^ 63 → Z.of_nat (length line) <= INT_MAX →
  memory_cb WIN32 c m
  = Ret {| c_indent := c_indent c;
           c_buffer := take o (c_buffer c) ++ line ++ [Ascii.zero]
                         ++ drop (o + length line + 1) (c_buffer c);
           c_size := c_size c;
           c_offset := Z.of_nat (o + length line);
           c_error := false |}.
Proof.
  intros line He Ho Hs Hfit Hbuf Hsz Hl.
  unfold memory_cb. rewrite He.
  fold (buffer_line (c_indent c) m). fold line.
  rewrite Ho, Hs. unfold INT_MAX in *.
  assert (to_size_t (Z.of_nat sz - Z.of_nat o - 1) = Z.of_nat (sz - o - 1))
    as ->.
  { unfold to_size_t. rewrite Z.mod_small; lia. }
  assert (to_size_t (Z.of_nat o + Z.of_nat (length line))
          = Z.of_nat (o + length line)) as Hoff.
  { unfold to_size_t. rewrite Z.mod_small; lia. }
  destruct WIN32; unfold snprintf, _snprintf, snprintf_c99, INT_MAX.
  - destruct (decide (0 <= Z.of_nat o <= Z.of_nat (length (c_buffer c))))
      as [_|?]; [|lia].
    destruct (decide (Z.of_nat (length line) <= 2 ^ 31 - 1)) as [_|?];
      [|done].
    destruct (decide (Z.of_nat (length line) < Z.of_nat (sz - o - 1)))
      as [_|?]; [|lia].
    destruct (decide (Z.of_nat o + Z.of_nat (length line) + 1
                      <= Z.of_nat (length (c_buffer c)))) as [_|?]; [|lia].
    cbn [mbind outcome_bind fst snd].
    destruct (decide (Z.of_nat (length line) < 0)) as [?|_]; [lia|].
    by rewrite Nat2Z.id, Hoff.
  - destruct (decide (0 <= Z.of_nat o <= Z.of_nat (length (c_buffer c))))
      as [_|?]; [|lia].
    destruct (decide (Z.of_nat (length line) <= 2 ^ 31 - 1)) as [_|?];
      [|done].
    destruct (decide (Z.of_nat (sz - o - 1) = 0)) as [?|_]; [lia|].
    assert (Z.to_nat (Z.min (Z.of_nat (length line))
                        (Z.of_nat (sz - o - 1) - 1)) = length line) as ->
        by lia.
    destruct (decide (Z.of_nat o + Z.of_nat (length line) + 1
                      <= Z.of_nat (length (c_buffer c)))) as [_|?]; [|lia].
    cbn [mbind outcome_bind fst snd].
    destruct (decide (Z.of_nat (length line) < 0)) as [?|_]; [lia|].
    by rewrite Nat2Z.id, Hoff, firstn_all.
Qed.

Lemma splice_again {A : Type} (buf line text : list A) (z : A) (o : nat) :
  (o + length line + 1 <= length buf)%nat →
  let buf1 := take o buf ++ line ++ [z] ++ drop (o + length line + 1) buf in
  length buf1 = length buf ∧
  take (o + length line) buf1 ++ text ++ [z]
    ++ drop (o + length line + length text + 1) buf1
  = take o buf ++ (line ++ text) ++ [z]
      ++ drop (o + length (line ++ text) + 1) buf.
Proof.
  intros Hlen buf1.
  assert (length (take o buf) = o) as Ho by (rewrite length_take; lia).
  split.
  - unfold buf1. rewrite !length_app, Ho, length_drop. simpl. lia.
  - assert (take (o + length line) buf1 = take o buf ++ line) as ->.
    { unfold buf1. rewrite app_assoc.
      rewrite take_app_length'; [done|]. by rewrite length_app, Ho. }
    assert (drop (o + length line + length text + 1) buf1
            = drop (o + length (line ++ text) + 1) buf) as ->.
    { unfold buf1. rewrite !app_assoc.
      rewrite drop_app_ge by (rewrite !length_app, Ho; simpl; lia).
      rewrite !length_app, Ho. simpl. rewrite drop_drop. f_equal. lia. }
    by rewrite <- !app_assoc.
Qed.

Lemma emit_memory_cb_fits (WIN32 : bool) (rest : list string) :
  ∀ (m : string) (c : context) (o sz : nat),
    let text := buffer_text (c_indent c) (m :: rest) in
    c_error c = false → c_offset c = Z.of_nat o → c_size c = Z.of_nat sz →
    (o + length text + 2 <= sz)%nat → (sz <= length (c_buffer c))%nat →
    Z.of_nat sz < 2 ^ 63 → Z.of_nat (length text) <= INT_MAX →
    emit (memory_cb WIN32) (m :: rest) c
    = Ret {| c_indent := c_indent c;
             c_buffer := take o (c_buffer c) ++ text ++ [Ascii.zero]
                           ++ drop (o + length text + 1) (c_buffer c);
             c_size := c_size c;
             c_offset := Z.of_nat (o + length text);
             c_error := false |}.
Proof.
  induction rest as [|m' rest IH]; intros m c o sz text He Ho Hs Hfit Hbuf
    Hsz Hl.
  - unfold text, buffer_text in *. cbn [foldr] in *.
    rewrite app_nil_r in *. cbn [emit].
    rewrite (memory_cb_fits_step WIN32 c m o sz He Ho Hs) by lia.
    reflexivity.
  - change (emit (memory_cb WIN32) (m :: m' :: rest) c)
      with (c1 ← memory_cb WIN32 c m; emit (memory_cb WIN32) (m' :: rest) c1).
    set (line := buffer_line (c_indent c) m).
    set (text' := buffer_text (c_indent c) (m' :: rest)).
    assert (text = line ++ text') as Htext by done.
    rewrite Htext, length_app in Hfit, Hl.
    rewrite (memory_cb_fits_step WIN32 c m o sz He Ho Hs)
      by (fold line; lia).
    fold line. cbn [mbind outcome_bind].
    destruct (splice_again (c_buffer c) line text' Ascii.zero o ltac:(lia))
      as [Hlen Heq].
    rewrite (IH m' _ (o + length line)%nat sz); cbn [c_indent c_error c_offset
      c_size c_buffer]; fold text'; try done; try lia.
    rewrite Htext. do 2 f_equal.
    + exact Heq.
    + rewrite length_app. lia.
Qed.

(** X22.  When the lines made of the emitted texts, each the indent, the
    text and a newline, take at least two characters less than [size], and
    [size] is within the array, [print_backtrace_to_buffer] returns true
    and leaves in the buffer exactly these lines and a terminating zero,
    the rest of the array untouched, with either [snprintf].  When nothing
    is emitted it returns true without writing anything, not even a
    terminating zero. *)
Theorem print_backtrace_to_buffer_fits (WIN32 HAVE_BACKTRACE HAVE_DLADDR : bool)
    (describe_address : Z -> string) (stack : list Z) (indent : string)
    (buffer : list Ascii.ascii) (size : nat) :
  let msgs :=
    backtrace_messages (backtrace_support WIN32 HAVE_BACKTRACE HAVE_DLADDR)
      describe_address stack in
  let text := buffer_text indent msgs in
  (msgs = [] →
   print_backtrace_to_buffer WIN32 HAVE_BACKTRACE HAVE_DLADDR
     describe_address stack indent buffer (Z.of_nat size)
   = Ret (true, buffer)) ∧
  (msgs ≠ [] → (length text + 2 <= size)%nat → (size <= length buffer)%nat →
   Z.of_nat size < 2 ^ 63 → Z.of_nat (length text) <= INT_MAX →
   print_backtrace_to_buffer WIN32 HAVE_BACKTRACE HAVE_DLADDR
     describe_address stack indent buffer (Z.of_nat size)
   = Ret (true, text ++ [Ascii.zero] ++ drop (length text + 1) buffer)).
Proof.
  intros msgs text. unfold print_backtrace_to_buffer.
  rewrite print_backtrace_is_emit. fold msgs. split.
  - intros ->. reflexivity.
  - intros Hne Hfit Hbuf Hsz Hl. destruct msgs as [|m rest] eqn:Em; [done|].
    rewrite (emit_memory_cb_fits WIN32 rest m _ 0 size); cbn [c_indent
      c_error c_offset c_size c_buffer]; fold text; try done; lia.
Qed.

Lemma print_backtrace_to_buffer_fits_witness :
  print_backtrace_to_buffer true false false (fun _ => "f") [1; 2; 3] ">"
    (replicate 10 Ascii.Space) (Z.of_nat 10)
  = Ret (true,
         buffer_text ">" (backtrace_messages true (fun _ => "f") [1; 2; 3])
           ++ [Ascii.zero]
           ++ drop
                (length (buffer_text ">"
                           (backtrace_messages true (fun _ => "f") [1; 2; 3]))
                 + 1)
                (replicate 10 Ascii.Space)).
Proof.
  apply (proj2 (print_backtrace_to_buffer_fits true false false
                  (fun _ => "f") [1; 2; 3] ">" (replicate 10 Ascii.Space) 10)).
  - discriminate.
  - vm_compute. lia.
  - simpl. lia.
  - lia.
  - vm_compute. discriminate.
Defined.

(** Past the end of the buffer the next C99 [snprintf] is undefined. *)
Lemma memory_cb_past_end (indent : string) (mem : list Ascii.ascii)
    (off : nat) (m : string) :
  (length mem <= off)%nat →
  memory_cb false {| c_indent := indent; c_buffer := mem;
                     c_size := Z.of_nat (length mem);
                     c_offset := Z.of_nat off; c_error := false |} m
  = Undefined.
Proof.
  intros Hoff. unfold memory_cb.
  cbn [c_error c_buffer c_offset c_size c_indent].
  unfold snprintf, snprintf_c99.
  destruct (decide (0 <= Z.of_nat off <= Z.of_nat (length mem)))
    as [Hin|_]; [|done].
  assert (off = length mem) as -> by lia.
  replace (Z.of_nat (length mem) - Z.of_nat (length mem) - 1) with (-1)
    by lia.
  change (to_size_t (-1)) with (2 ^ 64 - 1).
  destruct (decide (2 ^ 64 - 1 = 0)) as [?|_]; [done|].
  match goal with
  | |- context [decide (?a + ?b + 1 <= ?a)] =>
      destruct (decide (a + b + 1 <= a)) as [?|_]; [lia|]
  end.
  done.
Qed.

(** The first C99 [snprintf] moves the offset by the whole line. *)
Lemma memory_cb_first (indent : string) (buffer : list Ascii.ascii)
    (m : string) :
  Z.of_nat (length buffer) < 2 ^ 63 →
  Z.of_nat (length (buffer_line indent m)) <= INT_MAX →
  memory_cb false {| c_indent := indent; c_buffer := buffer;
                     c_size := Z.of_nat (length buffer); c_offset := 0;
                     c_error := false |} m = Undefined ∨
  ∃ mem, length mem = length buffer ∧
    memory_cb false {| c_indent := indent; c_buffer := buffer;
                       c_size := Z.of_nat (length buffer); c_offset := 0;
                       c_error := false |} m
    = Ret {| c_indent := indent; c_buffer := mem;
             c_size := Z.of_nat (length buffer);
             c_offset := Z.of_nat (length (buffer_line indent m));
             c_error := false |}.
Proof.
  intros Hsz Hl. unfold INT_MAX in Hl. unfold memory_cb.
  cbn [c_error c_buffer c_offset c_size c_indent].
  fold (buffer_line indent m). set (line := buffer_line indent m) in *.
  assert (to_size_t (Z.of_nat (length line)) = Z.of_nat (length line)) as Hoff.
  { unfold to_size_t. rewrite Z.mod_small; lia. }
  unfold snprintf, snprintf_c99, INT_MAX.
  destruct (decide (0 <= 0 <= Z.of_nat (length buffer))) as [_|?]; [|lia].
  destruct (decide (Z.of_nat (length line) <= 2 ^ 31 - 1)) as [_|?]; [|done].
  destruct (decide (to_size_t (Z.of_nat (length buffer) - 0 - 1) = 0))
    as [_|Hn0].
  - right. exists buffer. split; [done|].
    cbn [mbind outcome_bind fst snd].
    destruct (decide (Z.of_nat (length line) < 0)) as [?|_]; [lia|].
    by rewrite Z.add_0_l, Hoff.
  - match goal with
    | |- context [decide (0 + Z.of_nat ?k + 1 <= ?b)] =>
        destruct (decide (0 + Z.of_nat k + 1 <= b)) as [Hk|_];
        [|by left]
    end.
    right. eexists. split; [|cbn [mbind outcome_bind fst snd]].
    2: { destruct (decide (Z.of_nat (length line) < 0)) as [?|_]; [lia|].
         rewrite Z.add_0_l, Hoff. reflexivity. }
    rewrite !length_app, length_take, length_drop, length_take. cbn [length].
    change (Z.to_nat 0) with 0%nat. lia.
Qed.

(** Once the error flag is set the callback does nothing. *)
Lemma emit_memory_cb_error (WIN32 : bool) (msgs : list string) (c : context) :
  c_error c = true → emit (memory_cb WIN32) msgs c = Ret c.
Proof.
  intros He. induction msgs as [|m rest IH]; [done|].
  assert (memory_cb WIN32 c m = Ret c) as Hm
      by (unfold memory_cb; by rewrite He).
  cbn [emit]. rewrite Hm. exact IH.
Qed.

(** [_snprintf] on a line at least as long as the room left: the room is
    filled; a line longer than the room sets the error flag, a line as
    long as the room moves the offset; no zero is stored either way. *)
Lemma memory_cb_win32_full (c : context) (m : string) (o sz : nat) :
  let line := buffer_line (c_indent c) m in
  c_error c = false → c_offset c = Z.of_nat o → c_size c = Z.of_nat sz →
  (o + 1 <= sz)%nat → (sz <= length (c_buffer c))%nat →
  Z.of_nat sz < 2 ^ 63 → Z.of_nat (length line) <= INT_MAX →
  (sz <= o + length line + 1)%nat →
  memory_cb true c m
  = Ret {| c_indent := c_indent c;
           c_buffer := take o (c_buffer c) ++ take (sz - o - 1) line
                         ++ drop (sz - 1) (c_buffer c);
           c_size := c_size c;
           c_offset := if decide (o + length line + 1 = sz)%nat
                       then Z.of_nat (o + length line) else Z.of_nat o;
           c_error := negb (bool_decide (o + length line + 1 = sz)%nat) |}.
Proof.
  intros line He Ho Hs H1 Hbuf Hsz Hl Hlong.
  unfold memory_cb. rewrite He.
  fold (buffer_line (c_indent c) m). fold line.
  rewrite Ho, Hs. unfold INT_MAX in *.
  assert (to_size_t (Z.of_nat sz - Z.of_nat o - 1) = Z.of_nat (sz - o - 1))
    as ->.
  { unfold to_size_t. rewrite Z.mod_small; lia. }
  unfold snprintf, _snprintf, INT_MAX.
  destruct (decide (0 <= Z.of_nat o <= Z.of_nat (length (c_buffer c))))
    as [_|?]; [|lia].
  destruct (decide (Z.of_nat (length line) <= 2 ^ 31 - 1)) as [_|?]; [|done].
  destruct (decide (Z.of_nat (length line) < Z.of_nat (sz - o - 1)))
    as [?|_]; [lia|].
  destruct (decide (Z.of_nat (length line) = Z.of_nat (sz - o - 1)))
    as [Heq|Hne].
  - destruct (decide (Z.of_nat o + Z.of_nat (length line)
                      <= Z.of_nat (length (c_buffer c)))) as [_|?]; [|lia].
    cbn [mbind outcome_bind fst snd].
    destruct (decide (Z.of_nat (length line) < 0)) as [?|_]; [lia|].
    destruct (decide (o + length line + 1 = sz)%nat) as [_|?]; [|lia].
    rewrite bool_decide_eq_true_2 by lia. cbn [negb].
    rewrite Nat2Z.id.
    replace (sz - o - 1)%nat with (length line) by lia.
    replace (o + length line)%nat with (sz - 1)%nat by lia.
    rewrite firstn_all. do 2 f_equal.
    unfold to_size_t. rewrite Z.mod_small; lia.
  - destruct (decide (Z.of_nat o + Z.of_nat (sz - o - 1)
                      <= Z.of_nat (length (c_buffer c)))) as [_|?]; [|lia].
    cbn [mbind outcome_bind fst snd].
    destruct (decide (-1 < 0)) as [_|?]; [|lia].
    destruct (decide (o + length line + 1 = sz)%nat) as [?|_]; [lia|].
    rewrite bool_decide_eq_false_2 by lia. cbn [negb].
    rewrite !Nat2Z.id.
    replace (o + (sz - o - 1))%nat with (sz - 1)%nat by lia.
    reflexivity.
Qed.

(** X23.  When the first line is at least as long as the buffer and a
    second text follows, [print_backtrace_to_buffer] with the [snprintf]
    of C99 has undefined behaviour: [snprintf] returns the full length of
    the line it cut, the offset moves to or past the end of the array, and
    the size handed to the next [snprintf] wraps around.  Under [WIN32],
    where [snprintf] is [_snprintf], the call on a buffer that is not
    empty returns false instead, with the buffer filled up to its last
    character by the start of the first line and no terminating zero
    stored; the texts that follow are dropped. *)
Theorem print_backtrace_to_buffer_overflows
    (WIN32 HAVE_BACKTRACE HAVE_DLADDR : bool)
    (describe_address : Z -> string) (stack : list Z) (indent : string)
    (buffer : list Ascii.ascii) (m1 m2 : string) (rest : list string) :
  backtrace_messages (backtrace_support WIN32 HAVE_BACKTRACE HAVE_DLADDR)
    describe_address stack = m1 :: m2 :: rest →
  Z.of_nat (length buffer) < 2 ^ 63 →
  (length buffer <= length (buffer_line indent m1))%nat →
  Z.of_nat (length (buffer_line indent m1)) <= INT_MAX →
  (WIN32 = false →
   print_backtrace_to_buffer WIN32 HAVE_BACKTRACE HAVE_DLADDR
     describe_address stack indent buffer (Z.of_nat (length buffer))
   = Undefined) ∧
  (WIN32 = true → (1 <= length buffer)%nat →
   print_backtrace_to_buffer WIN32 HAVE_BACKTRACE HAVE_DLADDR
     describe_address stack indent buffer (Z.of_nat (length buffer))
   = Ret (false,
          take (length buffer - 1) (buffer_line indent m1)
            ++ drop (length buffer - 1) buffer)).
Proof.
  intros Hm Hsz Hlong Hl. unfold print_backtrace_to_buffer.
  rewrite print_backtrace_is_emit, Hm.
  change (emit (memory_cb WIN32) (m1 :: m2 :: rest) ?c)
    with (c1 ← memory_cb WIN32 c m1;
          c2 ← memory_cb WIN32 c1 m2; emit (memory_cb WIN32) rest c2).
  split.
  - intros ->.
    destruct (memory_cb_first indent buffer m1 Hsz Hl)
      as [->|(mem & Hmem & ->)]; [done|].
    cbn [mbind outcome_bind]. rewrite <- Hmem.
    rewrite memory_cb_past_end by lia. done.
  - intros -> H1.
    rewrite (memory_cb_win32_full _ m1 0 (length buffer)); cbn [c_indent
      c_error c_offset c_size c_buffer]; try done; try lia.
    destruct (decide (0 + length (buffer_line indent m1) + 1
                      = length buffer)%nat) as [?|_]; [lia|].
    rewrite bool_decide_eq_false_2 by lia. cbn [negb mbind outcome_bind].
    change (memory_cb true ?c m2 ≫= _)
      with (emit (memory_cb true) (m2 :: rest) c).
    rewrite emit_memory_cb_error by done.
    cbn [mbind outcome_bind c_error c_buffer negb]. rewrite take_0.
    by rewrite Nat.sub_0_r.
Qed.

Lemma print_backtrace_to_buffer_overflows_witness :
  print_backtrace_to_buffer false true true (fun _ => "f") [1; 2; 3] ">"
    (replicate 3 Ascii.Space) (Z.of_nat (length (replicate 3 Ascii.Space)))
  = Undefined ∧
  print_backtrace_to_buffer true false false (fun _ => "f") [1; 2; 3] ">"
    (replicate 3 Ascii.Space) (Z.of_nat (length (replicate 3 Ascii.Space)))
  = Ret (false,
         take (length (replicate 3 Ascii.Space) - 1) (buffer_line ">" "f")
           ++ drop (length (replicate 3 Ascii.Space) - 1)
                (replicate 3 Ascii.Space)).
Proof.
  split.
  - refine (proj1 (print_backtrace_to_buffer_overflows false true true
                     (fun _ => "f") [1; 2; 3] ">" (replicate 3 Ascii.Space)
                     "f" "f" [] _ _ _ _) eq_refl).
    + reflexivity.
    + simpl. lia.
    + simpl. lia.
    + simpl. unfold INT_MAX. lia.
  - refine (proj2 (print_backtrace_to_buffer_overflows true false false
                     (fun _ => "f") [1; 2; 3] ">" (replicate 3 Ascii.Space)
                     "f" "f" [] _ _ _ _) eq_refl _).
    + reflexivity.
    + simpl. lia.
    + simpl. lia.
    + simpl. unfold INT_MAX. lia.
    + simpl. lia.
Defined.

(** The C99 [snprintf] on a line that leaves fewer than two characters
    free: the line is cut and the offset moved by its whole length. *)
Lemma memory_cb_c99_cut (c : context) (m : string) (sz : nat) :
  let line := buffer_line (c_indent c) m in
  c_error c = false → c_offset c = 0 → c_size c = Z.of_nat sz →
  (2 <= sz)%nat → (sz <= length (c_buffer c))%nat →
  Z.of_nat sz < 2 ^ 63 → Z.of_nat (length line) <= INT_MAX →
  (sz <= length line + 1)%nat →
  memory_cb false c m
  = Ret {| c_indent := c_indent c;
           c_buffer := take (sz - 2) line ++ [Ascii.zero]
                         ++ drop (sz - 1) (c_buffer c);
           c_size := c_size c;
           c_offset := Z.of_nat (length line);
           c_error := false |}.
Proof.
  intros line He Ho Hs H2 Hbuf Hsz Hl Hlong.
  unfold memory_cb. rewrite He.
  fold (buffer_line (c_indent c) m). fold line.
  rewrite Ho, Hs. unfold INT_MAX in *.
  assert (to_size_t (Z.of_nat sz - 0 - 1) = Z.of_nat (sz - 1)) as ->.
  { unfold to_size_t. rewrite Z.mod_small; lia. }
  unfold snprintf, snprintf_c99, INT_MAX.
  destruct (decide (0 <= 0 <= Z.of_nat (length (c_buffer c))))
    as [_|?]; [|lia].
  destruct (decide (Z.of_nat (length line) <= 2 ^ 31 - 1)) as [_|?]; [|done].
  destruct (decide (Z.of_nat (sz - 1) = 0)) as [?|_]; [lia|].
  assert (Z.to_nat (Z.min (Z.of_nat (length line)) (Z.of_nat (sz - 1) - 1))
          = (sz - 2)%nat) as -> by lia.
  destruct (decide (0 + Z.of_nat (sz - 2) + 1
                    <= Z.of_nat (length (c_buffer c)))) as [_|?]; [|lia].
  cbn [mbind outcome_bind fst snd].
  destruct (decide (Z.of_nat (length line) < 0)) as [?|_]; [lia|].
  change (Z.to_nat 0) with 0%nat. rewrite take_0.
  replace (0 + (sz - 2) + 1)%nat with (sz - 1)%nat by lia.
  cbn [app]. do 2 f_equal.
  unfold to_size_t. rewrite Z.mod_small; lia.
Qed.

(** X24.  A single emitted line that does not fit, with the [snprintf] of
    C99, is cut to [size - 2] characters and a terminating zero, the last
    character of the buffer stays unused, and [print_backtrace_to_buffer]
    still returns true: the cut is not reported.  Under [WIN32], where
    [snprintf] is [_snprintf], the buffer is filled up to its last
    character with the start of the line and no terminating zero is
    stored; the call returns false when the line was cut and true when
    the line is exactly that long. *)
Theorem print_backtrace_to_buffer_cuts
    (WIN32 HAVE_BACKTRACE HAVE_DLADDR : bool)
    (describe_address : Z -> string) (stack : list Z) (indent : string)
    (buffer : list Ascii.ascii) (m : string) :
  backtrace_messages (backtrace_support WIN32 HAVE_BACKTRACE HAVE_DLADDR)
    describe_address stack = [m] →
  (2 <= length buffer)%nat → Z.of_nat (length buffer) < 2 ^ 63 →
  (length buffer <= length (buffer_line indent m) + 1)%nat →
  Z.of_nat (length (buffer_line indent m)) <= INT_MAX →
  (WIN32 = false →
   print_backtrace_to_buffer WIN32 HAVE_BACKTRACE HAVE_DLADDR
     describe_address stack indent buffer (Z.of_nat (length buffer))
   = Ret (true,
          take (length buffer - 2) (buffer_line indent m) ++ [Ascii.zero]
            ++ drop (length buffer - 1) buffer)) ∧
  (WIN32 = true →
   print_backtrace_to_buffer WIN32 HAVE_BACKTRACE HAVE_DLADDR
     describe_address stack indent buffer (Z.of_nat (length buffer))
   = Ret (bool_decide (length (buffer_line indent m) + 1 = length buffer)%nat,
          take (length buffer - 1) (buffer_line indent m)
            ++ drop (length buffer - 1) buffer)).
Proof.
  intros Hm H2 Hsz Hlong Hl. unfold print_backtrace_to_buffer.
  rewrite print_backtrace_is_emit, Hm. cbn [emit]. split.
  - intros ->.
    rewrite (memory_cb_c99_cut _ m (length buffer)); cbn [c_indent c_error
      c_offset c_size c_buffer]; try done; lia.
  - intros ->.
    rewrite (memory_cb_win32_full _ m 0 (length buffer)); cbn [c_indent
      c_error c_offset c_size c_buffer]; try done; try lia.
    cbn [mbind outcome_bind c_error c_buffer]. rewrite negb_involutive.
    rewrite take_0, Nat.sub_0_r. reflexivity.
Qed.

Lemma print_backtrace_to_buffer_cuts_witness :
  print_backtrace_to_buffer false false false (fun _ => "f") [] ">"
    (replicate 8 Ascii.Space) (Z.of_nat (length (replicate 8 Ascii.Space)))
  = Ret (true,
         take (length (replicate 8 Ascii.Space) - 2)
           (buffer_line ">" "<backtrace not supported on this platform>")
           ++ [Ascii.zero]
           ++ drop (length (replicate 8 Ascii.Space) - 1)
                (replicate 8 Ascii.Space)) ∧
  print_backtrace_to_buffer true false false (fun _ => "f") [1; 2] ">"
    (replicate 4 Ascii.Space) (Z.of_nat (length (replicate 4 Ascii.Space)))
  = Ret (bool_decide
           (length (buffer_line ">" "f") + 1
            = length (replicate 4 Ascii.Space))%nat,
         take (length (replicate 4 Ascii.Space) - 1) (buffer_line ">" "f")
           ++ drop (length (replicate 4 Ascii.Space) - 1)
                (replicate 4 Ascii.Space)).
Proof.
  split.
  - refine (proj1 (print_backtrace_to_buffer_cuts false false false
                     (fun _ => "f") [] ">" (replicate 8 Ascii.Space)
                     "<backtrace not supported on this platform>"
                     _ _ _ _ _) eq_refl).
    + reflexivity.
    + simpl. lia.
    + simpl. lia.
    + vm_compute. lia.
    + vm_compute. discriminate.
  - refine (proj2 (print_backtrace_to_buffer_cuts true false false
                     (fun _ => "f") [1; 2] ">" (replicate 4 Ascii.Space)
                     "f" _ _ _ _ _) eq_refl).
    + reflexivity.
    + simpl. lia.
    + simpl. lia.
    + vm_compute. lia.
    + vm_compute. discriminate.
Defined.
